(** * Feedback forms: schema edits, validation, submission and aggregation

    A shallow embedding of the client-side logic of the feedback-form
    application (React pages [CreateForm], [EditForm], [PublicForm],
    [FormResponses], [Responses] and [Dashboard]) together with the
    properties its specification states about it.

    The first part holds the embedding, one module per source file; the
    second part holds the lemmas and theorems. *)

From Stdlib Require Import ZArith NArith Floats Ascii String.
From stdpp Require Import base list sorting.

Set Default Proof Using "Type".

(* ===================================================================== *)
(** * Part I. The embedding                                               *)
(* ===================================================================== *)

(** ** JavaScript strings

    A JavaScript string is a finite sequence of UTF-16 code units. *)

Module Js.

Abbreviation code_unit := N (only parsing).
Abbreviation jsstring := (list N) (only parsing).

(** ASCII literals of the source are written with [str]. *)
Definition str (s : string) : jsstring :=
  map N_of_ascii (list_ascii_of_string s).

(** [!s] on a string: only the empty string is falsy. *)
Definition truthy (s : jsstring) : bool :=
  match s with
  | [] => false
  | _ :: _ => true
  end.

(** The code units [String.prototype.trim] strips: WhiteSpace and
    LineTerminator of ECMA-262 (TAB, LF, VT, FF, CR, SP, NBSP, the Unicode
    space separators, LS, PS and the byte order mark). *)
Definition is_white_space (c : N) : bool :=
  ((9 <=? c) && (c <=? 13) || (c =? 32) || (c =? 160) || (c =? 5760)
   || (8192 <=? c) && (c <=? 8202) || (c =? 8232) || (c =? 8233)
   || (c =? 8239) || (c =? 8287) || (c =? 12288) || (c =? 65279))%N.

Fixpoint trimStart (s : jsstring) : jsstring :=
  match s with
  | [] => []
  | c :: s' => if is_white_space c then trimStart s' else s
  end.

Definition trimEnd (s : jsstring) : jsstring :=
  rev (trimStart (rev s)).

Definition trim (s : jsstring) : jsstring :=
  trimEnd (trimStart s).

(** [Array.prototype.join] on an array of strings. *)
Fixpoint join (sep : jsstring) (l : list jsstring) : jsstring :=
  match l with
  | [] => []
  | [s] => s
  | s :: l' => s ++ sep ++ join sep l'
  end.

(** [String.prototype.startsWith]. *)
Fixpoint startsWith (s prefix : jsstring) : bool :=
  match prefix, s with
  | [], _ => true
  | _ :: _, [] => false
  | p :: prefix', c :: s' => (c =? p)%N && startsWith s' prefix'
  end.

(** [s.replace(/c/g, by)] for a pattern that is the single code unit [c]:
    every occurrence, left to right, is replaced. *)
Fixpoint replace_all (c : N) (by_ : jsstring) (s : jsstring) : jsstring :=
  match s with
  | [] => []
  | x :: s' =>
      (if (x =? c)%N then by_ else [x]) ++ replace_all c by_ s'
  end.

Fixpoint uint_units (d : Decimal.uint) : jsstring :=
  match d with
  | Decimal.Nil => []
  | Decimal.D0 d => 48%N :: uint_units d
  | Decimal.D1 d => 49%N :: uint_units d
  | Decimal.D2 d => 50%N :: uint_units d
  | Decimal.D3 d => 51%N :: uint_units d
  | Decimal.D4 d => 52%N :: uint_units d
  | Decimal.D5 d => 53%N :: uint_units d
  | Decimal.D6 d => 54%N :: uint_units d
  | Decimal.D7 d => 55%N :: uint_units d
  | Decimal.D8 d => 56%N :: uint_units d
  | Decimal.D9 d => 57%N :: uint_units d
  end.

(** [Number.prototype.toString] on an integer (below 10^21 in magnitude,
    where JavaScript still prints every digit). *)
Definition number_to_string (z : Z) : jsstring :=
  match z with
  | Z0 => [48%N]
  | Zpos p => uint_units (Pos.to_uint p)
  | Zneg p => 45%N :: uint_units (Pos.to_uint p)
  end.

(** [Array.prototype.findIndex]: the index of the first element that
    satisfies [P], or -1. *)
Definition findIndex {A} (P : A → Prop) `{!∀ x, Decision (P x)}
    (l : list A) : Z :=
  match list_find P l with
  | Some (i, _) => Z.of_nat i
  | None => (-1)%Z
  end.

(** [Array.prototype.find]. *)
Definition find {A} (P : A → Prop) `{!∀ x, Decision (P x)}
    (l : list A) : option A :=
  snd <$> list_find P l.

(** [Array.prototype.sort] with the comparator [(a, b) => key(a) - key(b)]
    on integer keys. The sort is stable, so its result is the one of
    insertion sort that puts each element behind those with the same
    key. *)
Fixpoint insert_by {A} (key : A → Z) (x : A) (l : list A) : list A :=
  match l with
  | [] => [x]
  | y :: l' => if (key x <? key y)%Z then x :: l else y :: insert_by key x l'
  end.

Definition sort_by {A} (key : A → Z) (l : list A) : list A :=
  foldl (λ sorted x, insert_by key x sorted) [] l.

(** [l.filter((_, i) => i !== index)] *)
Definition filter_index_ne {A} (index : Z) (l : list A) : list A :=
  snd <$> filter (λ p, Z.of_nat (fst p) ≠ index) (imap pair l).

(** [l.splice(start, deleteCount)] on integer arguments: the array after
    the call. A negative [start] counts from the end; the range removed is
    cut to the array. *)
Definition splice {A} (start deleteCount : Z) (l : list A) : list A :=
  let len := Z.of_nat (length l) in
  let actualStart :=
    if (start <? 0)%Z then Z.max (len + start) 0 else Z.min start len in
  let actualDeleteCount := Z.min (Z.max deleteCount 0) (len - actualStart) in
  take (Z.to_nat actualStart) l
  ++ drop (Z.to_nat (actualStart + actualDeleteCount)) l.

(** [l[index]] on an integer index: [None] is [undefined]. *)
Definition at_index {A} (l : list A) (index : Z) : option A :=
  if (index <? 0)%Z then None else l !! Z.to_nat index.

(** *** Objects used as string-keyed records

    A plain object whose values are strings is kept as the list of its own
    properties in the order [Object.entries] enumerates them: keys that
    are array indices first, in ascending numeric order, then the other
    keys in the order they were created. [get] and [set] work on the own
    properties; [assign] and [read] below add what an object made by [{}]
    inherits from [Object.prototype]. *)
Abbreviation record := (list (list N * list N)) (only parsing).

Definition is_digit (c : N) : bool := ((48 <=? c) && (c <=? 57))%N.

Definition digits_value (s : jsstring) : N :=
  foldl (λ acc c, acc * 10 + (c - 48))%N 0%N s.

(** The canonical numeric strings of the integers 0 .. 2^32 - 2. *)
Definition array_index (k : jsstring) : option N :=
  match k with
  | [] => None
  | c :: rest =>
      if forallb is_digit k
         && ((c =? 48)%N && bool_decide (rest = []) || negb (c =? 48)%N)
         && (Z.of_nat (length k) <=? 10)%Z
         && (digits_value k <=? 4294967294)%N
      then Some (digits_value k)
      else None
  end.

(** [o[k]]: [None] is [undefined]. *)
Definition get (o : record) (k : jsstring) : option jsstring :=
  match list_find (λ e, fst e = k) o with
  | Some (_, (_, v)) => Some v
  | None => None
  end.

Fixpoint replace_value (o : record) (k v : jsstring) : record :=
  match o with
  | [] => []
  | (k', v') :: o' =>
      if decide (k' = k) then (k, v) :: o' else (k', v') :: replace_value o' k v
  end.

Fixpoint insert_index (o : record) (n : N) (k v : jsstring) : record :=
  match o with
  | [] => [(k, v)]
  | (k', v') :: o' =>
      match array_index k' with
      | Some n' =>
          if (n' <? n)%N then (k', v') :: insert_index o' n k v
          else (k, v) :: o
      | None => (k, v) :: o
      end
  end.

(** [o[k] = v], and also [{ ...o, [k]: v }]. *)
Definition set (o : record) (k v : jsstring) : record :=
  match get o k with
  | Some _ => replace_value o k v
  | None =>
      match array_index k with
      | Some n => insert_index o n k v
      | None => o ++ [(k, v)]
      end
  end.

(** The members of [Object.prototype] whose value is a function. The
    twelfth member, [__proto__], is an accessor. *)
Definition Object_prototype_functions : list jsstring :=
  [str "constructor"; str "hasOwnProperty"; str "isPrototypeOf";
   str "propertyIsEnumerable"; str "toLocaleString"; str "toString";
   str "valueOf"; str "__defineGetter__"; str "__defineSetter__";
   str "__lookupGetter__"; str "__lookupSetter__"].

(** The assignment [o[k] = v] of a string to a property of an object made
    by [{}]. The key [__proto__] reaches the setter of [Object.prototype],
    which ignores a value that is neither an object nor null, so nothing is
    stored; the function members are writable, so every other key makes or
    updates an own property. *)
Definition assign (o : record) (k v : jsstring) : record :=
  if decide (k = str "__proto__") then o else set o k v.

(** What [o[k]] evaluates to on such an object: the own property, or else
    the member inherited from [Object.prototype], or else [undefined]. *)
Inductive member :=
  | OwnValue (v : jsstring)
  | InheritedFunction (k : jsstring)
  | InheritedPrototype
  | Undefined.

Definition read (o : record) (k : jsstring) : member :=
  match get o k with
  | Some v => OwnValue v
  | None =>
      if decide (k = str "__proto__") then InheritedPrototype
      else if decide (k ∈ Object_prototype_functions) then InheritedFunction k
      else Undefined
  end.

(** [Object.entries], [Object.keys] and [Object.values]. *)
Definition entries (o : record) : list (jsstring * jsstring) := o.
Definition keys (o : record) : list jsstring := fst <$> o.
Definition values (o : record) : list jsstring := snd <$> o.

(** *** Numbers

    A JavaScript number is an IEEE 754 binary64 value. *)

(** The number nearest to an integer (ties to even). *)
Definition of_Z (z : Z) : float :=
  SF2Prim (binary_normalize 53 1024 z 0 false).

(** [Math.round]: the integral number closest to [x], the one closer to
    +∞ when two are equally close; [x] itself when it is integral, zero,
    infinite or NaN. The result keeps the sign of [x] when it is zero. *)
Definition Math_round (x : float) : float :=
  match Prim2SF x with
  | S754_finite s m e =>
      if (0 <=? e)%Z then x
      else
        let v := if s then Z.neg m else Z.pos m in
        let r := ((2 * v + 2 ^ (- e)) / 2 ^ (1 - e))%Z in
        if (r =? 0)%Z then (if s then (- 0)%float else 0%float)
        else of_Z r
  | _ => x
  end.

Definition digit_value (radix : N) (c : N) : option N :=
  let d :=
    if ((48 <=? c) && (c <=? 57))%N then Some (c - 48)%N
    else if ((97 <=? c) && (c <=? 122))%N then Some (c - 87)%N
    else if ((65 <=? c) && (c <=? 90))%N then Some (c - 55)%N
    else None in
  match d with
  | Some n => if (n <? radix)%N then Some n else None
  | None => None
  end.

(** The longest prefix of [s] made of digits of the radix, as the list of
    their values. *)
Fixpoint leading_digits (radix : N) (s : jsstring) : list N :=
  match s with
  | [] => []
  | c :: s' =>
      match digit_value radix c with
      | Some n => n :: leading_digits radix s'
      | None => []
      end
  end.

(** [parseInt(s)] with no radix argument: leading white space is skipped,
    then an optional sign, then an optional [0x]/[0X] prefix that selects
    radix 16 (radix 10 otherwise), then the longest run of digits; NaN
    when that run is empty. The result is the number nearest to the
    integer the digits denote, negative zero for a negated zero. *)
Definition parseInt (s : jsstring) : float :=
  let s1 := trimStart s in
  let '(negative, s2) :=
    match s1 with
    | 45%N :: s' => (true, s')
    | 43%N :: s' => (false, s')
    | _ => (false, s1)
    end in
  let '(radix, s3) :=
    match s2 with
    | 48%N :: 120%N :: s' => (16%N, s')
    | 48%N :: 88%N :: s' => (16%N, s')
    | _ => (10%N, s2)
    end in
  match leading_digits radix s3 with
  | [] => nan
  | ds =>
      let mathInt := Z.of_N (foldl (λ acc d, acc * radix + d)%N 0%N ds) in
      if (mathInt =? 0)%Z then (if negative then (- 0)%float else 0%float)
      else of_Z (if negative then - mathInt else mathInt)
  end.

End Js.

(** ** The types of [types/form]

    [Question] and [FormData], shared by the creation page and the public
    form. *)

Module Types.

Inductive QuestionType := text | multiple_choice | rating.

#[global] Instance QuestionType_eq_dec : EqDecision QuestionType.
Proof. solve_decision. Defined.

Record Question := mkQuestion {
  id : Js.jsstring;
  question_text : Js.jsstring;
  question_type : QuestionType;
  options : list Js.jsstring;
  is_required : bool;
  order_index : Z
}.

Record FormData := mkFormData {
  title : Js.jsstring;
  description : Js.jsstring;
  is_active : bool;
  questions : list Question
}.

End Types.

(** ** The question editor, [QuestionEditor]

    The editor of one question. Each handler builds the new version of the
    question and hands it to [onUpdate]; the functions below give that new
    version. *)

Module QuestionEditor.

Import Types.

(** [Partial<Question>]: the fields an update carries. *)
Record PartialQuestion := mkPartial {
  p_id : option Js.jsstring;
  p_question_text : option Js.jsstring;
  p_question_type : option QuestionType;
  p_options : option (list Js.jsstring);
  p_is_required : option bool;
  p_order_index : option Z
}.

(** [updateQuestion(updates)] calls [onUpdate({ ...question, ...updates })]. *)
Definition updateQuestion (question : Question) (updates : PartialQuestion)
    : Question :=
  mkQuestion (default (id question) (p_id updates))
             (default (question_text question) (p_question_text updates))
             (default (question_type question) (p_question_type updates))
             (default (options question) (p_options updates))
             (default (is_required question) (p_is_required updates))
             (default (order_index question) (p_order_index updates)).

Definition addOption (question : Question) : Question :=
  let newOptions := options question ++ [Js.str ""] in
  updateQuestion question (mkPartial None None None (Some newOptions) None None).

Definition removeOption (index : Z) (question : Question) : Question :=
  let newOptions := Js.filter_index_ne index (options question) in
  updateQuestion question (mkPartial None None None (Some newOptions) None None).

(** The handlers of the text area, of the type selector and of the
    required switch. *)
Definition changeText (value : Js.jsstring) (question : Question) : Question :=
  updateQuestion question (mkPartial None (Some value) None None None None).

Definition changeType (value : QuestionType) (question : Question) : Question :=
  updateQuestion question
    (mkPartial None None (Some value)
       (Some (if decide (value = text) then [] else options question))
       None None).

Definition changeRequired (checked : bool) (question : Question) : Question :=
  updateQuestion question (mkPartial None None None None (Some checked) None).

End QuestionEditor.

(** ** The creation page, [CreateForm] *)

Module CreateForm.

Import Types.

Inductive direction := up | down.

(** The initial value of the [formData] state. *)
Definition initialFormData : FormData :=
  mkFormData (Js.str "") (Js.str "") true [].

(** [updateFormData({ questions })]: the other fields are kept. *)
Definition updateFormData_questions (formData : FormData)
    (qs : list Question) : FormData :=
  mkFormData (title formData) (description formData) (is_active formData) qs.

(** [{ ...q, order_index: index }] *)
Definition with_order_index (q : Question) (index : Z) : Question :=
  mkQuestion (id q) (question_text q) (question_type q) (options q)
             (is_required q) index.

(** [now] is the value of [Date.now()]. *)
Definition addQuestion (now : N) (formData : FormData) : FormData :=
  let newQuestion :=
    mkQuestion (Js.str "temp-" ++ Js.number_to_string (Z.of_N now))
               (Js.str "") text [] true
               (Z.of_nat (length (questions formData))) in
  updateFormData_questions formData (questions formData ++ [newQuestion]).

Definition deleteQuestion (questionId : Js.jsstring) (formData : FormData)
    : FormData :=
  let filteredQuestions :=
    imap (λ index q, with_order_index q (Z.of_nat index))
         (filter (λ q, id q ≠ questionId) (questions formData)) in
  updateFormData_questions formData filteredQuestions.

(** [questions.forEach((q, index) => { q.order_index = index })] *)
Definition renumber (qs : list Question) : list Question :=
  imap (λ index q, with_order_index q (Z.of_nat index)) qs.

(** The two early returns leave the state as it is. Past them both
    indices are inside the array, so the last branch of the [match] is
    never taken. *)
Definition moveQuestion (questionId : Js.jsstring) (dir : direction)
    (formData : FormData) : FormData :=
  let questions0 := questions formData in
  let currentIndex := Js.findIndex (λ q, id q = questionId) questions0 in
  if (currentIndex =? -1)%Z then formData else
  let newIndex :=
    match dir with
    | up => (currentIndex - 1)%Z
    | down => (currentIndex + 1)%Z
    end in
  if ((newIndex <? 0) || (Z.of_nat (length questions0) <=? newIndex))%Z
  then formData else
  match questions0 !! Z.to_nat currentIndex, questions0 !! Z.to_nat newIndex with
  | Some qc, Some qn =>
      let swapped :=
        <[Z.to_nat newIndex := qc]> (<[Z.to_nat currentIndex := qn]> questions0) in
      updateFormData_questions formData (renumber swapped)
  | _, _ => formData
  end.

Definition updateQuestion (questionId : Js.jsstring) (updates : Question)
    (formData : FormData) : FormData :=
  updateFormData_questions formData
    ((λ q, if decide (id q = questionId) then updates else q)
       <$> questions formData).

(** The [onUpdate] the page passes to the editor of [question]. *)
Definition onUpdate (question updatedQuestion : Question)
    (formData : FormData) : FormData :=
  updateQuestion (id question) updatedQuestion formData.

(** The list of question editors is rendered from
    [formData.questions.sort((a, b) => a.order_index - b.order_index)];
    [sort] works in place, so the state holds the sorted array after a
    render. *)
Definition render_questions (formData : FormData) : FormData :=
  updateFormData_questions formData
    (Js.sort_by order_index (questions formData)).

(** [canMoveUp] and [canMoveDown] of the editor rendered at [index]. *)
Definition canMoveUp (index : Z) : bool := (0 <? index)%Z.

Definition canMoveDown (formData : FormData) (index : Z) : bool :=
  (index <? Z.of_nat (length (questions formData)) - 1)%Z.

(** *** [saveForm]

    The row written to the [questions] table for each question. *)
Record QuestionRow := mkQuestionRow {
  row_form_id : Js.jsstring;
  row_question_text : Js.jsstring;
  row_question_type : QuestionType;
  row_options : list Js.jsstring;
  row_is_required : bool;
  row_order_index : Z
}.

(** [opt => opt.trim()] used as a filter predicate. *)
Definition nonblank (opt : Js.jsstring) : Prop :=
  Js.truthy (Js.trim opt) = true.

#[global] Instance nonblank_dec opt : Decision (nonblank opt).
Proof. unfold nonblank. apply _. Defined.

(** The checks of the [try] block, in order: the message of the [Error]
    thrown by the first one that fails. *)
Definition validate (formData : FormData) : option Js.jsstring :=
  if negb (Js.truthy (Js.trim (title formData))) then
    Some (Js.str "Form title is required")
  else if (Z.of_nat (length (questions formData)) =? 0)%Z then
    Some (Js.str "At least one question is required")
  else
    let emptyQuestions :=
      filter (λ q, Js.truthy (Js.trim (question_text q)) = false)
             (questions formData) in
    if (0 <? Z.of_nat (length emptyQuestions))%Z then
      Some (Js.str "All questions must have text")
    else
      let invalidMultipleChoice :=
        filter (λ q, question_type q = multiple_choice
                     ∧ length (filter nonblank (options q)) = 0%nat)
               (questions formData) in
      if (0 <? Z.of_nat (length invalidMultipleChoice))%Z then
        Some (Js.str "Multiple choice questions must have at least one option")
      else None.

Definition questionsToInsert (formId : Js.jsstring)
    (qs : list Question) : list QuestionRow :=
  (λ q, mkQuestionRow formId
          (Js.trim (question_text q))
          (question_type q)
          (match question_type q with
           | multiple_choice => filter nonblank (options q)
           | _ => []
           end)
          (is_required q)
          (order_index q)) <$> qs.

Record SavePlan := mkSavePlan {
  plan_title : Js.jsstring;
  plan_description : Js.jsstring;
  plan_is_active : bool;
  plan_questions : Js.jsstring → list QuestionRow
}.

Inductive SaveOutcome :=
  | NotSignedIn
  | Failed (message : Js.jsstring)
  | Insert (plan : SavePlan).

(** What [saveForm] does up to its calls to storage. [user] tells whether
    a user is signed in; the rows are a function of the id storage assigns
    to the new form. *)
Definition saveForm (user : bool) (formData : FormData) : SaveOutcome :=
  if negb user then NotSignedIn else
  match validate formData with
  | Some message => Failed message
  | None =>
      Insert (mkSavePlan (Js.trim (title formData))
                         (Js.trim (description formData))
                         (is_active formData)
                         (λ formId, questionsToInsert formId (questions formData)))
  end.

End CreateForm.

(** ** The edit page, [EditForm] *)

Module EditForm.

Import Types(QuestionType, text, multiple_choice, rating).

(** The page declares its own [Question], whose [id] is optional: rows
    loaded from storage carry one, questions added in the editor do not. *)
Record Question := mkQuestion {
  id : option Js.jsstring;
  question_text : Js.jsstring;
  question_type : QuestionType;
  options : list Js.jsstring;
  is_required : bool;
  order_index : Z
}.

(** The field [id] of the form is [form_id] here, [id] being taken by
    [Question]. *)
Record FormData := mkFormData {
  form_id : Js.jsstring;
  title : Js.jsstring;
  description : Js.jsstring;
  is_active : bool
}.

(** The initial value of the [questions] state. *)
Definition initialQuestions : list Question := [].

Definition addQuestion (questions : list Question) : list Question :=
  let newQuestion :=
    mkQuestion None (Js.str "") text [] false
               (Z.of_nat (length questions)) in
  questions ++ [newQuestion].

(** [questions.filter((_, i) => i !== index)] *)
Definition filter_index_ne (index : Z) (questions : list Question)
    : list Question :=
  snd <$> filter (λ p, Z.of_nat (fst p) ≠ index) (imap pair questions).

(** [q.order_index = i] *)
Definition set_order_index (q : Question) (i : Z) : Question :=
  mkQuestion (id q) (question_text q) (question_type q) (options q)
             (is_required q) i.

Definition removeQuestion (index : Z) (questions : list Question)
    : list Question :=
  let updatedQuestions := filter_index_ne index questions in
  imap (λ i q, set_order_index q (Z.of_nat i)) updatedQuestions.

(** The option array [question.options] after a change in place. *)
Definition set_options (q : Question) (opts : list Js.jsstring) : Question :=
  mkQuestion (id q) (question_text q) (question_type q) opts
             (is_required q) (order_index q).

(** [addOption] and [removeOption] change the option array of the
    question at [questionIndex] in place. [None] is the [TypeError] of
    reading [options] of [undefined], when there is no question at that
    index. *)
Definition addOption (questionIndex : Z) (questions : list Question)
    : option (list Question) :=
  match Js.at_index questions questionIndex with
  | Some q =>
      Some (<[Z.to_nat questionIndex :=
                set_options q (options q ++ [Js.str ""])]> questions)
  | None => None
  end.

Definition removeOption (questionIndex optionIndex : Z)
    (questions : list Question) : option (list Question) :=
  match Js.at_index questions questionIndex with
  | Some q =>
      Some (<[Z.to_nat questionIndex :=
                set_options q (Js.splice optionIndex 1 (options q))]> questions)
  | None => None
  end.

(** *** [saveForm]

    The row written to the [questions] table for each question. *)
Record QuestionRow := mkQuestionRow {
  row_form_id : Js.jsstring;
  row_question_text : Js.jsstring;
  row_question_type : QuestionType;
  row_options : list Js.jsstring;
  row_is_required : bool;
  row_order_index : Z
}.

(** The body of the [for] loop over the questions, from index [i] on: the
    message of the first failing check, if any. *)
Fixpoint validateQuestions (i : Z) (questions : list Question)
    : option Js.jsstring :=
  match questions with
  | [] => None
  | question :: rest =>
      if negb (Js.truthy (Js.trim (question_text question))) then
        Some (Js.str "Question " ++ Js.number_to_string (i + 1)
              ++ Js.str " text is required")
      else if bool_decide (question_type question = multiple_choice)
              && (Z.of_nat (length (options question)) <? 2)%Z then
        Some (Js.str "Question " ++ Js.number_to_string (i + 1)
              ++ Js.str " must have at least 2 options")
      else validateQuestions (i + 1) rest
  end.

(** The checks [saveForm] runs before it touches storage. *)
Definition validate (form : FormData) (questions : list Question)
    : option Js.jsstring :=
  if negb (Js.truthy (Js.trim (title form))) then
    Some (Js.str "Form title is required")
  else if (Z.of_nat (length questions) =? 0)%Z then
    Some (Js.str "At least one question is required")
  else validateQuestions 0 questions.

Definition questionsToInsert (formId : Js.jsstring)
    (questions : list Question) : list QuestionRow :=
  imap (λ index question,
          mkQuestionRow formId
            (Js.trim (question_text question))
            (question_type question)
            (filter (λ opt, Js.truthy (Js.trim opt) = true) (options question))
            (is_required question)
            (Z.of_nat index))
       questions.

(** What [saveForm] does up to its calls to storage: either the error it
    shows, or the form update and the rows it inserts after deleting the
    old questions. *)
Record SavePlan := mkSavePlan {
  plan_title : Js.jsstring;
  plan_description : Js.jsstring;
  plan_is_active : bool;
  plan_questions : list QuestionRow
}.

Definition saveForm (formId : Js.jsstring) (form : FormData)
    (questions : list Question) : Js.jsstring + SavePlan :=
  match validate form questions with
  | Some err => inl err
  | None =>
      inr (mkSavePlan (Js.trim (title form)) (Js.trim (description form))
                      (is_active form) (questionsToInsert formId questions))
  end.

End EditForm.

(** ** The public form, [PublicForm] *)

Module PublicForm.

Import Types.

(** [handleAnswerChange]: [setAnswers(prev => ({ ...prev, [questionId]: value }))] *)
Definition handleAnswerChange (questionId value : Js.jsstring)
    (answers : Js.record) : Js.record :=
  Js.set answers questionId value.

(** The predicate [validateForm] filters the required questions with. *)
Definition is_missing (answers : Js.record) (q : Question) : bool :=
  match Js.get answers (id q) with
  | None => true
  | Some answer =>
      if negb (Js.truthy answer) then true
      else if bool_decide (question_type q = text)
              && negb (Js.truthy (Js.trim answer)) then true
      else false
  end.

Definition missingAnswers (questions : list Question) (answers : Js.record)
    : list Question :=
  let requiredQuestions := filter (λ q, is_required q = true) questions in
  filter (λ q, is_missing answers q = true) requiredQuestions.

Definition missingQuestionNumbers (questions : list Question)
    (answers : Js.record) : list Z :=
  (λ q, Js.findIndex (λ question, id question = id q) questions + 1)%Z
    <$> missingAnswers questions answers.

(** [validateForm] returns a boolean and sets the [error] state; both are
    given, the returned value first. *)
Definition validateForm (questions : list Question) (answers : Js.record)
    : bool * Js.jsstring :=
  if (0 <? Z.of_nat (length (missingAnswers questions answers)))%Z then
    (false,
     Js.str "Please answer all required questions. Missing: Question "
     ++ Js.join (Js.str ", ")
          (Js.number_to_string <$> missingQuestionNumbers questions answers))
  else (true, Js.str "").

(** The row written to the [answers] table for each kept answer. *)
Record AnswerRow := mkAnswerRow {
  response_id : Js.jsstring;
  question_id : Js.jsstring;
  answer_text : Js.jsstring
}.

(** The filter of [answersToInsert] on one entry of the answer record. *)
Definition keep (questions : list Question)
    (entry : Js.jsstring * Js.jsstring) : bool :=
  let '(questionId, value) := entry in
  if negb (Js.truthy value) then false
  else
    let question := Js.find (λ q, id q = questionId) questions in
    if bool_decide (question_type <$> question = Some text)
    then (0 <? Z.of_nat (length (Js.trim value)))%Z
    else true.

Definition answersToInsert (responseId : Js.jsstring)
    (questions : list Question) (answers : Js.record) : list AnswerRow :=
  (λ entry, mkAnswerRow responseId (fst entry) (Js.trim (snd entry)))
    <$> filter (λ entry, keep questions entry = true) (Js.entries answers).

Inductive SubmitOutcome :=
  | Rejected (message : Js.jsstring)
  | Submitted (rows : Js.jsstring → list AnswerRow).

(** What [submitForm] does up to its calls to storage; the rows are a
    function of the id storage assigns to the new response. *)
Definition submitForm (questions : list Question) (answers : Js.record)
    : SubmitOutcome :=
  let '(ok, message) := validateForm questions answers in
  if negb ok then Rejected message
  else Submitted (λ responseId, answersToInsert responseId questions answers).

End PublicForm.

(** ** The responses of one form, [src/pages/FormResponses.tsx] *)

Module FormResponses.

Record Answer := mkAnswer {
  question_text : Js.jsstring;
  question_type : Js.jsstring;
  answer_text : Js.jsstring;
  order_index : Z
}.

Record FormResponse := mkFormResponse {
  id : Js.jsstring;
  submitted_at : Js.jsstring;
  ip_address : option Js.jsstring;
  user_agent : option Js.jsstring;
  answers : list Answer
}.

(** The rows storage returns for the query of [loadFormAndResponses]. *)
Record RawQuestion := mkRawQuestion {
  raw_question_text : Js.jsstring;
  raw_question_type : Js.jsstring;
  raw_order_index : Z
}.

Record RawAnswer := mkRawAnswer {
  raw_answer_text : Js.jsstring;
  questions : RawQuestion
}.

Record RawResponse := mkRawResponse {
  raw_id : Js.jsstring;
  raw_submitted_at : Js.jsstring;
  raw_ip_address : option Js.jsstring;
  raw_user_agent : option Js.jsstring;
  raw_answers : list RawAnswer
}.

(** [transformedResponses]: the answers of a response are flattened and
    sorted by the order index of their question. *)
Definition transform_answer (answer : RawAnswer) : Answer :=
  mkAnswer (raw_question_text (questions answer))
           (raw_question_type (questions answer))
           (raw_answer_text answer)
           (raw_order_index (questions answer)).

Definition transform (response : RawResponse) : FormResponse :=
  mkFormResponse (raw_id response) (raw_submitted_at response)
    (raw_ip_address response) (raw_user_agent response)
    (Js.sort_by order_index (transform_answer <$> raw_answers response)).

(** *** The statistics of [loadFormAndResponses] *)

Definition ratingAnswers (transformedResponses : list FormResponse)
    : list float :=
  r ← transformedResponses;
  filter (λ rating, PrimFloat.is_nan rating = false)
    ((λ answer, Js.parseInt (answer_text answer))
       <$> filter (λ answer, question_type answer = Js.str "rating")
                  (answers r)).

Definition avgRating (transformedResponses : list FormResponse) : float :=
  let ratings := ratingAnswers transformedResponses in
  if (0 <? Z.of_nat (length ratings))%Z
  then (foldl (λ sum rating, sum + rating) 0 ratings
        / Js.of_Z (Z.of_nat (length ratings)))%float
  else 0%float.

(** [stats.avgRating] *)
Definition stats_avgRating (transformedResponses : list FormResponse)
    : float :=
  (Js.Math_round (avgRating transformedResponses * 10) / 10)%float.

Definition stats_totalResponses (transformedResponses : list FormResponse)
    : Z :=
  Z.of_nat (length transformedResponses).

(** *** [exportResponses]

    [toLocaleString] stands for [new Date(s).toLocaleString()], whose
    result depends on the locale of the browser. *)

(** The template literal of [answerData]: the answer text with every
    double quote (code unit 34) replaced by two, between two double
    quotes. *)
Definition quote_field (answer_text : Js.jsstring) : Js.jsstring :=
  [34%N] ++ Js.replace_all 34 [34%N; 34%N] answer_text ++ [34%N].

Definition csvHeaders (responses : list FormResponse) : list Js.jsstring :=
  let headers :=
    [Js.str "Response ID"; Js.str "Submitted At"; Js.str "IP Address"] in
  let questionHeaders :=
    match responses !! 0%nat with
    | Some r => question_text <$> answers r
    | None => []
    end in
  headers ++ questionHeaders.

Definition csvRow (toLocaleString : Js.jsstring → Js.jsstring)
    (response : FormResponse) : list Js.jsstring :=
  let baseData :=
    [id response;
     toLocaleString (submitted_at response);
     match ip_address response with
     | Some ip => if Js.truthy ip then ip else Js.str "N/A"
     | None => Js.str "N/A"
     end] in
  let answerData := (λ answer, quote_field (answer_text answer))
                      <$> answers response in
  baseData ++ answerData.

(** The text of the downloaded file; [None] when the function returns
    early because there is no response. *)
Definition exportResponses (toLocaleString : Js.jsstring → Js.jsstring)
    (responses : list FormResponse) : option Js.jsstring :=
  if (Z.of_nat (length responses) =? 0)%Z then None
  else
    let csvRows := csvRow toLocaleString <$> responses in
    Some (Js.join [10%N]
            (Js.join (Js.str ",") <$> (csvHeaders responses :: csvRows))).

End FormResponses.

(** ** The responses of all forms, [src/pages/Responses.tsx] *)

Module Responses.

(** The rows storage returns for the query of [loadData]. *)
Record RawQuestion := mkRawQuestion {
  question_text : Js.jsstring;
  question_type : Js.jsstring
}.

Record RawAnswer := mkRawAnswer {
  answer_text : Js.jsstring;
  raw_questions : RawQuestion
}.

Record RawForm := mkRawForm {
  form_id : Js.jsstring;
  form_title : Js.jsstring;
  form_user_id : Js.jsstring
}.

Record RawResponse := mkRawResponse {
  raw_id : Js.jsstring;
  submitted_at : Js.jsstring;
  forms : RawForm;
  raw_answers : list RawAnswer
}.

Record Response := mkResponse {
  id : Js.jsstring;
  formTitle : Js.jsstring;
  formId : Js.jsstring;
  submittedAt : Js.jsstring;
  answers : Js.record
}.

(** [transformedResponses]: the answers of a response become one object
    keyed by question text. *)
Definition transform (response : RawResponse) : Response :=
  mkResponse (raw_id response) (form_title (forms response))
    (form_id (forms response)) (submitted_at response)
    (foldl (λ acc answer,
              Js.assign acc (question_text (raw_questions answer))
                        (answer_text answer))
           [] (raw_answers response)).

(** [/^[1-5]$/.test(answer.toString())] *)
Definition is_rating_digit (answer : Js.jsstring) : bool :=
  match answer with
  | [c] => ((49 <=? c) && (c <=? 53))%N
  | _ => false
  end.

(** [Number] on a string; only strings that passed the test above reach
    it, and on a single decimal digit it is the value of the digit. *)
Definition Number (answer : Js.jsstring) : float :=
  match answer with
  | [c] => if Js.is_digit c then Js.of_Z (Z.of_N c - 48) else nan
  | _ => nan
  end.

Definition ratingAnswers (transformedResponses : list Response)
    : list float :=
  r ← transformedResponses;
  Number <$> filter (λ answer, is_rating_digit answer = true)
                    (Js.values (answers r)).

Definition avgRating (transformedResponses : list Response) : float :=
  let ratings := ratingAnswers transformedResponses in
  if (0 <? Z.of_nat (length ratings))%Z
  then (foldl (λ sum rating, sum + rating) 0 ratings
        / Js.of_Z (Z.of_nat (length ratings)))%float
  else 0%float.

(** [stats.avgRating] *)
Definition stats_avgRating (transformedResponses : list Response) : float :=
  (Js.Math_round (avgRating transformedResponses * 10) / 10)%float.

(** [loadData], from the rows read to the average it displays. *)
Definition loadData_avgRating (responsesData : list RawResponse) : float :=
  stats_avgRating (transform <$> responsesData).

(** *** [exportToCSV] *)

(** [Set.prototype.add]: a set keeps its elements in insertion order. *)
Definition Set_add (s : list Js.jsstring) (x : Js.jsstring)
    : list Js.jsstring :=
  if decide (x ∈ s) then s else s ++ [x].

Definition allQuestions (responses : list Response) : list Js.jsstring :=
  foldl (λ s response, foldl Set_add s (Js.keys (answers response)))
        [] responses.

Definition csvHeaders (responses : list Response) : list Js.jsstring :=
  [Js.str "Form Title"; Js.str "Submitted At"] ++ allQuestions responses.

(** The text of [response.answers[question] || ''] inside the template
    literal. A function inherited from [Object.prototype] is truthy and is
    written as its source text, which the engine chooses: [functionSource]
    gives it for each member. The inherited [__proto__] is
    [Object.prototype] itself, written as [[object Object]]. *)
Definition answer_text_of (functionSource : Js.jsstring → Js.jsstring)
    (response : Response) (question : Js.jsstring) : Js.jsstring :=
  match Js.read (answers response) question with
  | Js.OwnValue v => if Js.truthy v then v else Js.str ""
  | Js.InheritedFunction k => functionSource k
  | Js.InheritedPrototype => Js.str "[object Object]"
  | Js.Undefined => Js.str ""
  end.

(** The answer between two double quotes. *)
Definition answer_field (functionSource : Js.jsstring → Js.jsstring)
    (response : Response) (question : Js.jsstring) : Js.jsstring :=
  [34%N] ++ answer_text_of functionSource response question ++ [34%N].

Definition csvRow (toLocaleString functionSource : Js.jsstring → Js.jsstring)
    (all : list Js.jsstring) (response : Response) : list Js.jsstring :=
  ([34%N] ++ formTitle response ++ [34%N])
  :: toLocaleString (submittedAt response)
  :: (answer_field functionSource response <$> all).

(** The text of the downloaded file; [None] when the function returns
    early because there is no response. *)
Definition exportToCSV (toLocaleString functionSource : Js.jsstring → Js.jsstring)
    (responses : list Response) : option Js.jsstring :=
  if (Z.of_nat (length responses) =? 0)%Z then None
  else
    let all := allQuestions responses in
    Some (Js.join [10%N]
            (Js.join (Js.str ",") (csvHeaders responses)
             :: ((λ response,
                    Js.join (Js.str ",")
                      (csvRow toLocaleString functionSource all response))
                   <$> responses))).

End Responses.

(** ** The [Date] object

    The abstract operations of ECMA-262 (section Date Objects) behind
    [getDate], [setDate] and [toISOString]. A time value is a number of
    milliseconds since the epoch, in UTC. *)

Module Date.

Open Scope Z_scope.

Definition msPerDay : Z := 86400000.
Definition msPerHour : Z := 3600000.
Definition msPerMinute : Z := 60000.
Definition msPerSecond : Z := 1000.

Definition Day (t : Z) : Z := t / msPerDay.
Definition TimeWithinDay (t : Z) : Z := t mod msPerDay.

Definition DaysInYear (y : Z) : Z :=
  if negb (y mod 4 =? 0) then 365
  else if negb (y mod 100 =? 0) then 366
  else if negb (y mod 400 =? 0) then 365
  else 366.

Definition DayFromYear (y : Z) : Z :=
  365 * (y - 1970) + (y - 1969) / 4 - (y - 1901) / 100 + (y - 1601) / 400.

Definition TimeFromYear (y : Z) : Z := msPerDay * DayFromYear y.

(** The largest [y] with [TimeFromYear y <= t]: the mean length of a year
    gives an estimate that is off by at most one. *)
Definition YearFromTime (t : Z) : Z :=
  let y := 1970 + Day t * 400 / 146097 in
  if TimeFromYear (y + 1) <=? t then y + 1
  else if TimeFromYear y <=? t then y
  else y - 1.

Definition InLeapYear (t : Z) : Z :=
  if DaysInYear (YearFromTime t) =? 365 then 0 else 1.

Definition DayWithinYear (t : Z) : Z := Day t - DayFromYear (YearFromTime t).

Definition MonthFromTime (t : Z) : Z :=
  let d := DayWithinYear t in
  let leap := InLeapYear t in
  if d <? 31 then 0
  else if d <? 59 + leap then 1
  else if d <? 90 + leap then 2
  else if d <? 120 + leap then 3
  else if d <? 151 + leap then 4
  else if d <? 181 + leap then 5
  else if d <? 212 + leap then 6
  else if d <? 243 + leap then 7
  else if d <? 273 + leap then 8
  else if d <? 304 + leap then 9
  else if d <? 334 + leap then 10
  else 11.

Definition DateFromTime (t : Z) : Z :=
  let d := DayWithinYear t in
  let leap := InLeapYear t in
  match MonthFromTime t with
  | 0 => d + 1
  | 1 => d - 30
  | 2 => d - 58 - leap
  | 3 => d - 89 - leap
  | 4 => d - 119 - leap
  | 5 => d - 150 - leap
  | 6 => d - 180 - leap
  | 7 => d - 211 - leap
  | 8 => d - 242 - leap
  | 9 => d - 272 - leap
  | 10 => d - 303 - leap
  | _ => d - 333 - leap
  end.

Definition HourFromTime (t : Z) : Z := (t / msPerHour) mod 24.
Definition MinFromTime (t : Z) : Z := (t / msPerMinute) mod 60.
Definition SecFromTime (t : Z) : Z := (t / msPerSecond) mod 60.
Definition msFromTime (t : Z) : Z := t mod msPerSecond.

(** The number of days from the start of a year to the start of month
    [mn] (0 to 11) in it. *)
Definition month_start (mn leap : Z) : Z :=
  match mn with
  | 0 => 0
  | 1 => 31
  | 2 => 59 + leap
  | 3 => 90 + leap
  | 4 => 120 + leap
  | 5 => 151 + leap
  | 6 => 181 + leap
  | 7 => 212 + leap
  | 8 => 243 + leap
  | 9 => 273 + leap
  | 10 => 304 + leap
  | _ => 334 + leap
  end.

(** [MakeDay]: the day number of the first of month [mn] of year [ym],
    plus [date - 1]. *)
Definition MakeDay (year month date : Z) : Z :=
  let ym := year + month / 12 in
  let mn := month mod 12 in
  let leap := if DaysInYear ym =? 365 then 0 else 1 in
  DayFromYear ym + month_start mn leap + date - 1.

Definition MakeDate (day time : Z) : Z := day * msPerDay + time.

(** [TimeClip]: [None] is NaN, the time value of an invalid date. *)
Definition TimeClip (time : Z) : option Z :=
  if 8640000000000000 <? Z.abs time then None else Some time.

Section LocalTime.

(** [LocalTZA t isUTC] is the offset of local time from UTC, in
    milliseconds, at the UTC time [t] when [isUTC] holds and at the local
    time [t] otherwise; it is the time zone of the browser. *)
Variable LocalTZA : Z → bool → Z.

Definition LocalTime (t : Z) : Z := t + LocalTZA t true.
Definition UTC (t : Z) : Z := t - LocalTZA t false.

(** [date.getDate()] on a date whose time value is [tv]. *)
Definition getDate (tv : Z) : Z := DateFromTime (LocalTime tv).

(** [date.setDate(dt)]: the new time value of the date. *)
Definition setDate (tv : Z) (dt : Z) : option Z :=
  let t := LocalTime tv in
  let newDate :=
    MakeDate (MakeDay (YearFromTime t) (MonthFromTime t) dt) (TimeWithinDay t) in
  TimeClip (UTC newDate).

End LocalTime.

(** Decimal digits of [n], padded with zeros on the left to [width]. *)
Definition pad (width : nat) (n : Z) : Js.jsstring :=
  let s := Js.number_to_string n in
  replicate (width - length s) 48%N ++ s.

(** [date.toISOString()] on a valid date. *)
Definition toISOString (tv : Z) : Js.jsstring :=
  let y := YearFromTime tv in
  (if (0 <=? y) && (y <=? 9999) then pad 4 y
   else (if y <? 0 then [45%N] else [43%N]) ++ pad 6 (Z.abs y))
  ++ Js.str "-" ++ pad 2 (MonthFromTime tv + 1)
  ++ Js.str "-" ++ pad 2 (DateFromTime tv)
  ++ Js.str "T" ++ pad 2 (HourFromTime tv)
  ++ Js.str ":" ++ pad 2 (MinFromTime tv)
  ++ Js.str ":" ++ pad 2 (SecFromTime tv)
  ++ Js.str "." ++ pad 3 (msFromTime tv)
  ++ Js.str "Z".

End Date.

(** ** The dashboard, [Dashboard] *)

Module Dashboard.

Record MonthlyResponse := mkMonthlyResponse {
  id : Js.jsstring;
  submitted_at : Js.jsstring
}.

(** [s.split('T')[0]]: the part of [s] before its first [T]. *)
Fixpoint split_T_0 (s : Js.jsstring) : Js.jsstring :=
  match s with
  | [] => []
  | c :: s' => if (c =? 84)%N then [] else c :: split_T_0 s'
  end.

(** The callback of [Array.from({ length: 7 }, ...)] at index [i]; [now]
    is the time value of [new Date()]. [None] when [toISOString] throws
    because the date is invalid. *)
Definition last7Days_at (LocalTZA : Z → bool → Z) (now : Z) (i : Z)
    : option Js.jsstring :=
  date ← Date.setDate LocalTZA now (Date.getDate LocalTZA now - (6 - i))%Z;
  Some (split_T_0 (Date.toISOString date)).

(** The seven calls of the callback read the clock within the same
    millisecond. *)
Definition last7Days (LocalTZA : Z → bool → Z) (now : Z)
    : option (list Js.jsstring) :=
  mapM (last7Days_at LocalTZA now) (Z.of_nat <$> seq 0 7).

Record TrendPoint := mkTrendPoint {
  date : Js.jsstring;
  count : Z
}.

(** [monthlyResponses?.filter(...).length || 0] *)
Definition count_on (monthlyResponses : option (list MonthlyResponse))
    (date : Js.jsstring) : Z :=
  match monthlyResponses with
  | Some responses =>
      Z.of_nat (length (filter
        (λ response, Js.startsWith (submitted_at response) date = true)
        responses))
  | None => 0%Z
  end.

Definition trendData (LocalTZA : Z → bool → Z) (now : Z)
    (monthlyResponses : option (list MonthlyResponse))
    : option (list TrendPoint) :=
  match last7Days LocalTZA now with
  | Some days =>
      Some ((λ day, mkTrendPoint day (count_on monthlyResponses day)) <$> days)
  | None => None
  end.

(** *** The statistics over all forms of the user

    A row of [allFormsData]; [responses] is [form.responses?.[0]?.count],
    [None] when storage returned no count. The counts are row counts of a
    table, far below 2^53, where the sums of numbers are exact. *)
Record FormRow := mkFormRow {
  form_id : Js.jsstring;
  title : Js.jsstring;
  is_active : bool;
  responses : option N
}.

(** [form.responses?.[0]?.count || 0] *)
Definition responseCount (form : FormRow) : N := default 0%N (responses form).

Definition totalForms (allFormsData : list FormRow) : N :=
  N.of_nat (length allFormsData).

Definition totalResponses (allFormsData : list FormRow) : N :=
  foldl (λ sum form, sum + responseCount form)%N 0%N allFormsData.

Definition activeFormsCount (allFormsData : list FormRow) : N :=
  N.of_nat (length (filter (λ form, is_active form = true) allFormsData)).

Record TopForm := mkTopForm {
  top_title : Js.jsstring;
  top_responses : N
}.

(** The [reduce] that finds the top performing form, from [null]. *)
Definition topPerformingForm (allFormsData : list FormRow) : option TopForm :=
  foldl (λ top form,
           let responseCount := responseCount form in
           match top with
           | None => Some (mkTopForm (title form) responseCount)
           | Some t =>
               if (top_responses t <? responseCount)%N
               then Some (mkTopForm (title form) responseCount)
               else top
           end)
        None allFormsData.

End Dashboard.

(** ** Vocabulary of the specification *)

Module Spec.

(** The order indices of a question list are exactly 0 .. N-1, in list
    order. *)
Definition dense {A} (order_index : A → Z) (qs : list A) : Prop :=
  order_index <$> qs = Z.of_nat <$> seq 0 (length qs).

(** The edits of the question list the creation page offers. *)
Inductive create_op :=
  | CreateAdd (now : N)
  | CreateDelete (questionId : Js.jsstring)
  | CreateMove (questionId : Js.jsstring) (dir : CreateForm.direction).

Definition create_step (formData : Types.FormData) (op : create_op)
    : Types.FormData :=
  match op with
  | CreateAdd now => CreateForm.addQuestion now formData
  | CreateDelete questionId => CreateForm.deleteQuestion questionId formData
  | CreateMove questionId dir => CreateForm.moveQuestion questionId dir formData
  end.

Definition create_run (ops : list create_op) (formData : Types.FormData)
    : Types.FormData :=
  foldl create_step formData ops.

(** The edits of the question list the edit page offers. *)
Inductive edit_op :=
  | EditAdd
  | EditRemove (index : Z).

Definition edit_step (questions : list EditForm.Question) (op : edit_op)
    : list EditForm.Question :=
  match op with
  | EditAdd => EditForm.addQuestion questions
  | EditRemove index => EditForm.removeQuestion index questions
  end.

Definition edit_run (ops : list edit_op) (questions : list EditForm.Question)
    : list EditForm.Question :=
  foldl edit_step questions ops.

(** The order of the comparator [(a, b) => key(a) - key(b)]. *)
Definition ascending_by {A} (key : A → Z) (a b : A) : Prop :=
  (key a ≤ key b)%Z.

(** Two questions that differ at most in their order index. *)
Definition same_core (a b : Types.Question) : Prop :=
  CreateForm.with_order_index a 0 = CreateForm.with_order_index b 0.

(** A string that does not start with white space. *)
Definition clean_head (s : Js.jsstring) : Prop :=
  match s with
  | [] => True
  | c :: _ => Js.is_white_space c = false
  end.

(** *** Submission *)

(** [q] is the owning question of the answer stored under [k]: the first
    question of the list whose id is [k]. *)
Definition owner (questions : list Types.Question) (k : Js.jsstring)
    (q : Types.Question) : Prop :=
  ∃ i, questions !! i = Some q ∧ Types.id q = k
       ∧ ∀ j q', questions !! j = Some q' → (j < i)%nat → Types.id q' ≠ k.

(** The filtering rule of the submission assembler on the entry [(k, v)]:
    the value is non-empty and, when the owning question has type text,
    its trimmed value is non-empty too. *)
Definition included (questions : list Types.Question)
    (k v : Js.jsstring) : Prop :=
  v ≠ [] ∧ ∀ q, owner questions k q →
                Types.question_type q = Types.text → Js.trim v ≠ [].

(** Question [q] has an acceptable answer in [answers]: one that is present
    and non-empty, with a non-empty trim when [q] has type text. *)
Definition answered (answers : Js.record) (q : Types.Question) : Prop :=
  match Js.get answers (Types.id q) with
  | Some v => v ≠ [] ∧ (Types.question_type q = Types.text → Js.trim v ≠ [])
  | None => False
  end.

#[global] Instance answered_dec answers q : Decision (answered answers q).
Proof. unfold answered. destruct (Js.get answers (Types.id q)); apply _. Defined.

(** The answers of a stored submission read back as an answer record:
    its entries are the stored pairs of question id and answer text. *)
Definition storedAnswers (rows : list PublicForm.AnswerRow) : Js.record :=
  (λ row, (PublicForm.question_id row, PublicForm.answer_text row)) <$> rows.

(** A required question without an acceptable answer. *)
Definition violates (answers : Js.record) (q : Types.Question) : Prop :=
  Types.is_required q = true ∧ ¬ answered answers q.

(** The 1-indexed positions, in question order, of the violating
    questions. *)
Definition violating_positions (questions : list Types.Question)
    (answers : Js.record) : list Z :=
  (λ p, Z.of_nat (fst p) + 1)%Z
    <$> filter (λ p, violates answers (snd p)) (imap pair questions).

(** The answer record after a sequence of changes typed into the public
    form, from the empty record the page starts with. *)
Definition typed_answers (changes : list (Js.jsstring * Js.jsstring))
    : Js.record :=
  foldl (λ answers change,
           PublicForm.handleAnswerChange (fst change) (snd change) answers)
        [] changes.

(** The value typed last for question [k], if any. *)
Definition last_typed (changes : list (Js.jsstring * Js.jsstring))
    (k : Js.jsstring) : option Js.jsstring :=
  snd <$> last (filter (λ change, fst change = k) changes).

(** *** Saving a form *)

(** A question passes the checks of the edit page: its text is not blank
    and, when it is a multiple-choice question, its option array has at
    least two entries. *)
Definition edit_question_ok (q : EditForm.Question) : Prop :=
  Js.trim (EditForm.question_text q) ≠ []
  ∧ (EditForm.question_type q = Types.multiple_choice →
     (2 ≤ length (EditForm.options q))%nat).

#[global] Instance edit_question_ok_dec q : Decision (edit_question_ok q).
Proof. unfold edit_question_ok. apply _. Defined.

(** The message of the edit page for question number [n] (1-indexed) that
    fails the checks. *)
Definition edit_question_error (n : Z) (q : EditForm.Question) : Js.jsstring :=
  if decide (Js.trim (EditForm.question_text q) = [])
  then Js.str "Question " ++ Js.number_to_string n ++ Js.str " text is required"
  else Js.str "Question " ++ Js.number_to_string n
       ++ Js.str " must have at least 2 options".

(** *** CSV fields *)

(** [body] is [value] with every double quote (code unit 34) doubled. *)
Inductive doubled : Js.jsstring → Js.jsstring → Prop :=
  | doubled_nil : doubled [] []
  | doubled_quote value body :
      doubled value body → doubled (34%N :: value) (34%N :: 34%N :: body)
  | doubled_other c value body :
      c ≠ 34%N → doubled value body → doubled (c :: value) (c :: body).

(** [field] is [value] wrapped in double quotes, its own double quotes
    doubled. *)
Definition csv_quoted (value field : Js.jsstring) : Prop :=
  ∃ body, field = [34%N] ++ body ++ [34%N] ∧ doubled value body.

(** Reading a quoted field back: the text between the outer quotes, each
    pair of double quotes standing for one. [None] when the field is not
    well formed. *)
Fixpoint undouble (body : Js.jsstring) : option Js.jsstring :=
  match body with
  | [] => Some []
  | 34%N :: 34%N :: body' => cons 34%N <$> undouble body'
  | 34%N :: _ => None
  | c :: body' => cons c <$> undouble body'
  end.

Definition csv_unquote (field : Js.jsstring) : option Js.jsstring :=
  match field with
  | 34%N :: rest =>
      match reverse rest with
      | 34%N :: rbody => undouble (reverse rbody)
      | _ => None
      end
  | _ => None
  end.

(** *** Reading a CSV text

    The reader of comma-separated text with records ending at a line feed
    (code unit 10), in the manner of RFC 4180. A field that starts with a
    double quote runs to its closing quote, two double quotes inside it
    standing for one, and may hold commas and line feeds; any other field
    runs to the next comma or line feed and holds no double quote. *)

(** A text that can stand as a field without quotes. *)
Definition plain_unit (c : N) : bool :=
  negb ((c =? 44) || (c =? 10) || (c =? 34))%N.

Definition plain (s : Js.jsstring) : Prop := forallb plain_unit s = true.

(** A text with no double quote in it. *)
Definition no_quote (s : Js.jsstring) : Prop :=
  forallb (λ c, negb (c =? 34)%N) s = true.

Inductive csv_mode :=
  | Unquoted    (* in a field without quotes, or at the start of a field *)
  | Quoted      (* inside the quotes of a field *)
  | QuoteSeen.  (* after a double quote inside the quotes of a field *)

(** [field] is the part read of the field at hand, [record] holds the
    fields read of the record at hand; the result is the list of the
    records from there on, [None] when the text is not well formed. *)
Fixpoint csv_run (mode : csv_mode) (field : Js.jsstring)
    (record : list Js.jsstring) (s : Js.jsstring)
    : option (list (list Js.jsstring)) :=
  match s with
  | [] =>
      match mode with
      | Quoted => None
      | _ => Some [record ++ [field]]
      end
  | c :: s' =>
      match mode with
      | Unquoted =>
          if (c =? 44)%N then csv_run Unquoted [] (record ++ [field]) s'
          else if (c =? 10)%N then
            cons (record ++ [field]) <$> csv_run Unquoted [] [] s'
          else if (c =? 34)%N then
            match field with
            | [] => csv_run Quoted [] record s'
            | _ :: _ => None
            end
          else csv_run Unquoted (field ++ [c]) record s'
      | Quoted =>
          if (c =? 34)%N then csv_run QuoteSeen field record s'
          else csv_run Quoted (field ++ [c]) record s'
      | QuoteSeen =>
          if (c =? 34)%N then csv_run Quoted (field ++ [34%N]) record s'
          else if (c =? 44)%N then csv_run Unquoted [] (record ++ [field]) s'
          else if (c =? 10)%N then
            cons (record ++ [field]) <$> csv_run Unquoted [] [] s'
          else None
      end
  end.

Definition csv_read (s : Js.jsstring) : option (list (list Js.jsstring)) :=
  csv_run Unquoted [] [] s.

(** [cell] is a way to write the field [value]: as it is when it is
    plain, or between double quotes with its own double quotes doubled. *)
Definition csv_cell (value cell : Js.jsstring) : Prop :=
  (plain cell ∧ value = cell) ∨ csv_quoted value cell.

(** *** Calendar days *)

(** The ISO date (YYYY-MM-DD) of the UTC day with number [day], day 0
    being 1970-01-01. *)
Definition iso_date (day : Z) : Js.jsstring :=
  Dashboard.split_T_0 (Date.toISOString (day * Date.msPerDay)).

(** A time zone whose offset from UTC never changes. *)
Definition fixed_offset (offset : Z) : Z → bool → Z := λ _ _, offset.

(** Central European time around the end of daylight saving time in 2025:
    two hours ahead of UTC until 2025-10-26T01:00:00Z, which is 03:00
    local time, and one hour ahead from then on. A local time that occurs
    twice is read with the offset before the change. *)
Definition europe_berlin_autumn_2025 (t : Z) (isUTC : bool) : Z :=
  let change := 1761440400000%Z in
  if isUTC then
    if (t <? change)%Z then 7200000%Z else 3600000%Z
  else
    if (t <? change + 7200000)%Z then 7200000%Z else 3600000%Z.

(** Central European time around the start of daylight saving time in
    2025: one hour ahead of UTC until 2025-03-30T01:00:00Z, which is
    02:00 local time, and two hours ahead from then on. A local time that
    is skipped is read with the offset before the change. *)
Definition europe_berlin_spring_2025 (t : Z) (isUTC : bool) : Z :=
  let change := 1743296400000%Z in
  if isUTC then
    if (t <? change)%Z then 3600000%Z else 7200000%Z
  else
    if (t <? change + 7200000)%Z then 3600000%Z else 7200000%Z.

End Spec.

(* ===================================================================== *)
(** * Part II. Properties                                                 *)
(* ===================================================================== *)

(** ** Dense order indices *)

Section Dense.

Context {A : Type} (order_index : A → Z).

Lemma dense_nil : Spec.dense order_index [].
Proof. reflexivity. Qed.

Lemma imap_order_index_from (f : nat → A → A) (n : nat) (l : list A) :
  (∀ i q, order_index (f i q) = Z.of_nat i) →
  order_index <$> imap (λ i, f (n + i)%nat) l = Z.of_nat <$> seq n (length l).
Proof.
  intros Hf. revert n. induction l as [|q l IH]; intros n; [done|].
  cbn [imap length seq fmap list_fmap]. f_equal.
  - rewrite Hf. f_equal. lia.
  - rewrite <- (IH (S n)). f_equal. apply imap_ext. intros i x _. cbn.
    f_equal. lia.
Qed.

Lemma dense_imap (f : nat → A → A) (l : list A) :
  (∀ i q, order_index (f i q) = Z.of_nat i) →
  Spec.dense order_index (imap f l).
Proof.
  intros Hf. unfold Spec.dense. rewrite length_imap.
  apply (imap_order_index_from f 0 l Hf).
Qed.

Lemma dense_snoc (qs : list A) (q : A) :
  Spec.dense order_index qs →
  order_index q = Z.of_nat (length qs) →
  Spec.dense order_index (qs ++ [q]).
Proof.
  unfold Spec.dense. intros Hqs Hq.
  rewrite fmap_app, length_app, Hqs. cbn [length].
  rewrite Nat.add_1_r, seq_S, fmap_app. cbn. by rewrite Hq.
Qed.

End Dense.

Lemma createForm_step_dense (formData : Types.FormData) (op : Spec.create_op) :
  Spec.dense Types.order_index (Types.questions formData) →
  Spec.dense Types.order_index (Types.questions (Spec.create_step formData op)).
Proof.
  intros Hd. destruct op as [now|questionId|questionId dir]; cbn.
  - by apply dense_snoc.
  - by apply dense_imap.
  - unfold CreateForm.moveQuestion.
    repeat (case_match; try done); by apply dense_imap.
Qed.

Lemma editForm_step_dense (questions : list EditForm.Question) (op : Spec.edit_op) :
  Spec.dense EditForm.order_index questions →
  Spec.dense EditForm.order_index (Spec.edit_step questions op).
Proof.
  intros Hd. destruct op as [|index]; cbn.
  - by apply dense_snoc.
  - by apply dense_imap.
Qed.

Lemma createForm_run_dense (ops : list Spec.create_op) (formData : Types.FormData) :
  Spec.dense Types.order_index (Types.questions formData) →
  Spec.dense Types.order_index (Types.questions (Spec.create_run ops formData)).
Proof.
  revert formData. induction ops as [|op ops IH]; intros formData Hd; [done|].
  cbn. apply IH. by apply createForm_step_dense.
Qed.

Lemma editForm_run_dense (ops : list Spec.edit_op) (questions : list EditForm.Question) :
  Spec.dense EditForm.order_index questions →
  Spec.dense EditForm.order_index (Spec.edit_run ops questions).
Proof.
  revert questions. induction ops as [|op ops IH]; intros questions Hd; [done|].
  cbn. apply IH. by apply editForm_step_dense.
Qed.

(** [moveQuestion] on the first question with direction up, or on the
    last question with direction down, leaves the form as it is. *)
Lemma moveQuestion_boundary (questionId : list N) (dir : CreateForm.direction)
    (formData : Types.FormData) :
  let index :=
    Js.findIndex (λ q, Types.id q = questionId) (Types.questions formData) in
  (dir = CreateForm.up ∧ index = 0%Z)
  ∨ (dir = CreateForm.down
     ∧ index = (Z.of_nat (length (Types.questions formData)) - 1)%Z) →
  CreateForm.moveQuestion questionId dir formData = formData.
Proof.
  intros index H. subst index. unfold CreateForm.moveQuestion.
  destruct H as [[-> ->]|[-> ->]]; [done|].
  case_match; [done|].
  assert ((Z.of_nat (length (Types.questions formData))
           <=? Z.of_nat (length (Types.questions formData)) - 1 + 1)%Z = true)
    as -> by (rewrite Z.sub_add; apply Z.leb_refl).
  by rewrite orb_true_r.
Qed.

Lemma moveQuestion_boundary_witness :
  let formData :=
    CreateForm.addQuestion 2 (CreateForm.addQuestion 1 CreateForm.initialFormData) in
  CreateForm.moveQuestion (Js.str "temp-1") CreateForm.up formData = formData
  ∧ CreateForm.moveQuestion (Js.str "temp-2") CreateForm.down formData = formData.
Proof.
  intros formData. split.
  - apply (moveQuestion_boundary (Js.str "temp-1") CreateForm.up formData).
    left. split; reflexivity.
  - apply (moveQuestion_boundary (Js.str "temp-2") CreateForm.down formData).
    right. split; reflexivity.
Defined.

(** Away from the boundary [moveQuestion] exchanges the question with its
    neighbour and renumbers. *)
Example moveQuestion_swaps :
  let formData :=
    CreateForm.addQuestion 3
      (CreateForm.addQuestion 2
         (CreateForm.addQuestion 1 CreateForm.initialFormData)) in
  (λ q, (Types.id q, Types.order_index q))
    <$> Types.questions
          (CreateForm.moveQuestion (Js.str "temp-3") CreateForm.up formData)
  = [(Js.str "temp-1", 0%Z); (Js.str "temp-3", 1%Z); (Js.str "temp-2", 2%Z)].
Proof. reflexivity. Qed.

Lemma filter_index_ne_all (m n : nat) (questions : list EditForm.Question) :
  (m < n)%nat →
  snd <$> filter (λ p, Z.of_nat (fst p) ≠ Z.of_nat m)
            (imap (λ i, pair (n + i)%nat) questions)
  = questions.
Proof.
  revert n. induction questions as [|q questions IH]; intros n Hlt; [done|].
  rewrite imap_cons, filter_cons. cbn [fst].
  rewrite decide_True by lia. rewrite fmap_cons. cbn [snd]. f_equal.
  rewrite <- (IH (S n)) at 2 by lia. do 2 f_equal.
  apply imap_ext. intros i y _. cbn. f_equal. lia.
Qed.

Lemma filter_index_ne_from (index n : nat) (questions : list EditForm.Question) :
  snd <$> filter (λ p, Z.of_nat (fst p) ≠ Z.of_nat (n + index))
            (imap (λ i, pair (n + i)%nat) questions)
  = delete index questions.
Proof.
  revert index n.
  induction questions as [|q questions IH]; intros index n; [done|].
  rewrite imap_cons, filter_cons. cbn [fst].
  assert (imap ((λ i, pair (n + i)%nat) ∘ S) questions
          = imap (λ i, pair (S n + i)%nat) questions) as ->.
  { apply imap_ext. intros i y _. cbn. f_equal. lia. }
  destruct index as [|index].
  - rewrite decide_False by lia. cbn [delete list_delete].
    replace (n + 0)%nat with n by lia.
    apply filter_index_ne_all. lia.
  - rewrite decide_True by lia. rewrite fmap_cons. cbn [snd delete list_delete].
    f_equal. replace (n + S index)%nat with (S n + index)%nat by lia.
    apply IH.
Qed.

(** [removeQuestion] removes the question at the index and nothing else;
    an index outside the list removes nothing. *)
Lemma filter_index_ne_delete (index : nat) (questions : list EditForm.Question) :
  EditForm.filter_index_ne (Z.of_nat index) questions = delete index questions.
Proof. apply (filter_index_ne_from index 0 questions). Qed.

(** Claim C1. Starting from the empty question list, after any sequence
    of [addQuestion], [deleteQuestion] and [moveQuestion] calls on the
    creation page, and after any sequence of [addQuestion] and
    [removeQuestion] calls on the edit page, the [order_index] fields of
    the questions are exactly 0 .. N-1 in list order. *)
Theorem order_index_dense_after_edits :
  (∀ ops : list Spec.create_op,
     Spec.dense Types.order_index
       (Types.questions (Spec.create_run ops CreateForm.initialFormData)))
  ∧ (∀ ops : list Spec.edit_op,
       Spec.dense EditForm.order_index
         (Spec.edit_run ops EditForm.initialQuestions)).
Proof.
  split; intros ops.
  - apply createForm_run_dense, dense_nil.
  - apply editForm_run_dense, dense_nil.
Qed.

(** ** Strings *)

Section Strings.

Implicit Types s p : list N.

Lemma truthy_true s : Js.truthy s = true ↔ s ≠ [].
Proof. by destruct s. Qed.

Lemma truthy_false s : Js.truthy s = false ↔ s = [].
Proof. by destruct s. Qed.

Lemma trimStart_clean_head s : Spec.clean_head (Js.trimStart s).
Proof.
  induction s as [|c s IH]; [done|]. cbn.
  destruct (Js.is_white_space c) eqn:Hc; [done|]. by cbn.
Qed.

Lemma trimStart_id s : Spec.clean_head s → Js.trimStart s = s.
Proof. destruct s as [|c s]; [done|]. cbn. by intros ->. Qed.

Lemma trimStart_suffix s : ∃ p, s = p ++ Js.trimStart s.
Proof.
  induction s as [|c s [p IH]]; [by exists []|]. cbn.
  destruct (Js.is_white_space c).
  - exists (c :: p). cbn. by f_equal.
  - by exists [].
Qed.

Lemma clean_head_prefix s p : Spec.clean_head (s ++ p) → Spec.clean_head s.
Proof. by destruct s. Qed.

Lemma trimEnd_clean_head s : Spec.clean_head s → Spec.clean_head (Js.trimEnd s).
Proof.
  intros Hs. unfold Js.trimEnd.
  destruct (trimStart_suffix (rev s)) as [p Hp].
  apply (clean_head_prefix _ (rev p)).
  by rewrite <- rev_app_distr, <- Hp, rev_involutive.
Qed.

Lemma trimEnd_idem s : Js.trimEnd (Js.trimEnd s) = Js.trimEnd s.
Proof.
  unfold Js.trimEnd. rewrite rev_involutive.
  f_equal. apply trimStart_id, trimStart_clean_head.
Qed.

Lemma trim_idem s : Js.trim (Js.trim s) = Js.trim s.
Proof.
  unfold Js.trim.
  rewrite (trimStart_id (Js.trimEnd _)).
  - apply trimEnd_idem.
  - apply trimEnd_clean_head, trimStart_clean_head.
Qed.

Lemma trim_nil : Js.trim [] = [].
Proof. reflexivity. Qed.

Lemma trim_nonempty s : Js.trim s ≠ [] → s ≠ [].
Proof. intros H ->. by apply H. Qed.

End Strings.

(** ** Arrays and records *)

Section Arrays.

Context {A : Type}.

Lemma find_Some (P : A → Prop) `{!∀ x, Decision (P x)} (l : list A) (x : A) :
  Js.find P l = Some x ↔
  ∃ i, l !! i = Some x ∧ P x ∧ ∀ j y, l !! j = Some y → (j < i)%nat → ¬ P y.
Proof.
  unfold Js.find. rewrite fmap_Some. split.
  - intros [[i y] [Hf ->]]. exists i. cbn. by apply list_find_Some in Hf.
  - intros [i Hi]. exists (i, x). split; [|done]. by apply list_find_Some.
Qed.

Lemma find_None (P : A → Prop) `{!∀ x, Decision (P x)} (l : list A) :
  Js.find P l = None ↔ ∀ x, x ∈ l → ¬ P x.
Proof.
  unfold Js.find. rewrite fmap_None, list_find_None, Forall_forall. done.
Qed.

(** Pairing the elements of a list with their positions commutes with
    filtering. *)
Lemma filter_imap_pair_from (P : A → Prop) `{!∀ x, Decision (P x)}
    (n : nat) (l : list A) :
  snd <$> filter (λ p, P (snd p)) (imap (λ i, pair (n + i)%nat) l) = filter P l.
Proof.
  revert n. induction l as [|x l IH]; intros n; [done|].
  rewrite imap_cons, !filter_cons. cbn [snd].
  assert (imap ((λ i, pair (n + i)%nat) ∘ S) l
          = imap (λ i, pair (S n + i)%nat) l) as ->.
  { apply imap_ext. intros i y _. cbn. f_equal. lia. }
  destruct (decide (P x)); rewrite ?fmap_cons; by rewrite IH.
Qed.

Lemma filter_imap_pair (P : A → Prop) `{!∀ x, Decision (P x)} (l : list A) :
  snd <$> filter (λ p, P (snd p)) (imap pair l) = filter P l.
Proof. apply (filter_imap_pair_from P 0 l). Qed.

Lemma elem_of_imap_pair (l : list A) (i : nat) (x : A) :
  (i, x) ∈ imap pair l ↔ l !! i = Some x.
Proof.
  rewrite elem_of_lookup_imap. split.
  - intros (j & y & [= -> ->] & ?). done.
  - intros ?. by exists i, x.
Qed.

End Arrays.

Lemma get_Some (o : list (list N * list N)) (k v : list N) :
  Js.get o k = Some v ↔
  ∃ i, o !! i = Some (k, v) ∧ ∀ j e, o !! j = Some e → (j < i)%nat → fst e ≠ k.
Proof.
  unfold Js.get. split.
  - destruct (list_find _ o) as [[i [k' v']]|] eqn:Hf; [|done].
    intros [= ->]. apply list_find_Some in Hf as (Hi & Hk & Hlt).
    cbn in Hk. subst k'. by exists i.
  - intros (i & Hi & Hlt).
    assert (list_find (λ e, fst e = k) o = Some (i, (k, v))) as ->; [|done].
    apply list_find_Some. done.
Qed.

Lemma get_None (o : list (list N * list N)) (k : list N) :
  Js.get o k = None ↔ ∀ e, e ∈ o → fst e ≠ k.
Proof.
  unfold Js.get. split.
  - destruct (list_find _ o) as [[i [k' v']]|] eqn:Hf; [done|].
    intros _. apply list_find_None in Hf.
    by rewrite Forall_forall in Hf.
  - intros H.
    assert (list_find (λ e, fst e = k) o = None) as ->; [|done].
    apply list_find_None. by rewrite Forall_forall.
Qed.

(** ** The submission assembler *)

Section Assembler.

Import Types PublicForm.

Implicit Types questions : list Question.
Implicit Types answers : list (list N * list N).

Lemma owner_find questions k q :
  Spec.owner questions k q ↔ Js.find (λ q, id q = k) questions = Some q.
Proof. unfold Spec.owner. by rewrite find_Some. Qed.

Lemma owner_unique questions k q q' :
  Spec.owner questions k q → Spec.owner questions k q' → q = q'.
Proof. rewrite !owner_find. congruence. Qed.

Lemma length_pos_nonempty (s : list N) :
  (0 <? Z.of_nat (length s))%Z = true ↔ s ≠ [].
Proof. destruct s; cbn; [done|]. split; [done|]. intros _. apply Z.ltb_lt. lia. Qed.

Lemma keep_included questions k v :
  keep questions (k, v) = true ↔ Spec.included questions k v.
Proof.
  unfold keep, Spec.included.
  destruct (Js.truthy v) eqn:Hv; cbn [negb].
  2:{ apply truthy_false in Hv. subst v. split; [done|]. by intros [? _]. }
  apply truthy_true in Hv.
  destruct (Js.find (λ q, id q = k) questions) as [q|] eqn:Hfind; cbn.
  - apply owner_find in Hfind.
    case_bool_decide as Htext.
    + rewrite length_pos_nonempty. split.
      * intros Ht. split; [done|]. by intros _ _ _.
      * intros [_ Hq]. apply (Hq q Hfind). congruence.
    + split; [|done]. intros _. split; [done|].
      intros q' Hq' Hty. rewrite (owner_unique _ _ _ _ Hq' Hfind) in Hty.
      destruct Htext. by rewrite Hty.
  - split; [|done]. intros _. split; [done|].
    intros q' Hq'. apply owner_find in Hq'. congruence.
Qed.

Lemma elem_of_answersToInsert responseId questions answers row :
  row ∈ answersToInsert responseId questions answers ↔
  ∃ k v, (k, v) ∈ Js.entries answers ∧ keep questions (k, v) = true
         ∧ row = mkAnswerRow responseId k (Js.trim v).
Proof.
  unfold answersToInsert. rewrite list_elem_of_fmap. split.
  - intros ([k v] & -> & [Hkeep Hin]%list_elem_of_filter). by exists k, v.
  - intros (k & v & Hin & Hkeep & ->). exists (k, v). split; [done|].
    by apply list_elem_of_filter.
Qed.

(** Claim C2. A row is in the answer set the assembler produces if and
    only if it comes from an entry of the answer record whose value is
    non-empty and, when the owning question has type text, whose trimmed
    value is non-empty too; its [answer_text] is the trimmed value. For
    the answers q1: hi with two spaces on each side, and q2: the empty
    string, to two text questions, the output is the single row (q1, hi). *)
Theorem answersToInsert_filtering :
  (∀ responseId questions answers row,
     row ∈ answersToInsert responseId questions answers ↔
     ∃ k v, (k, v) ∈ Js.entries answers ∧ Spec.included questions k v
            ∧ row = mkAnswerRow responseId k (Js.trim v))
  ∧ (∀ responseId t1 o1 r1 i1 t2 o2 r2 i2,
       answersToInsert responseId
         [mkQuestion (Js.str "q1") t1 text o1 r1 i1;
          mkQuestion (Js.str "q2") t2 text o2 r2 i2]
         [(Js.str "q1", Js.str "  hi  "); (Js.str "q2", Js.str "")]
       = [mkAnswerRow responseId (Js.str "q1") (Js.str "hi")]).
Proof.
  split.
  - intros responseId questions answers row.
    rewrite elem_of_answersToInsert.
    by setoid_rewrite keep_included.
  - intros. reflexivity.
Qed.

(** Claim C10. An entry of the answer record whose question id does not
    occur in the question list is kept whenever its value is non-empty,
    and is stored trimmed. *)
Theorem answersToInsert_keeps_unknown_question
    responseId questions answers k v :
  (k, v) ∈ Js.entries answers →
  v ≠ [] →
  (∀ q, q ∈ questions → id q ≠ k) →
  mkAnswerRow responseId k (Js.trim v)
    ∈ answersToInsert responseId questions answers.
Proof.
  intros Hin Hv Hk. apply elem_of_answersToInsert.
  exists k, v. split_and!; [done| |done].
  apply keep_included. split; [done|].
  intros q (i & Hi & Hid & _). destruct (Hk q); [|done].
  by apply list_elem_of_lookup_2 in Hi.
Qed.

Lemma answersToInsert_keeps_unknown_question_witness :
  mkAnswerRow (Js.str "r1") (Js.str "gone") (Js.str "x")
    ∈ answersToInsert (Js.str "r1")
        [mkQuestion (Js.str "q1") (Js.str "Name?") text [] true 0]
        [(Js.str "q1", Js.str "Ann"); (Js.str "gone", Js.str " x ")].
Proof.
  apply (answersToInsert_keeps_unknown_question (Js.str "r1")
           [mkQuestion (Js.str "q1") (Js.str "Name?") text [] true 0]
           [(Js.str "q1", Js.str "Ann"); (Js.str "gone", Js.str " x ")]
           (Js.str "gone") (Js.str " x ")).
  - apply list_elem_of_In. cbn. right. left. reflexivity.
  - discriminate.
  - intros q Hq. apply list_elem_of_In in Hq. cbn in Hq.
    destruct Hq as [<-|[]]. discriminate.
Defined.

End Assembler.

(** ** Validation of a submission *)

Section Validation.

Import Types PublicForm.

Implicit Types questions : list Question.
Implicit Types answers : list (list N * list N).

Lemma get_cons answers k k' v' :
  Js.get ((k', v') :: answers) k
  = if decide (k' = k) then Some v' else Js.get answers k.
Proof.
  unfold Js.get. cbn. destruct (decide (k' = k)); [done|].
  by destruct (list_find _ answers) as [[i [k0 v0]]|].
Qed.

Lemma is_missing_answered answers q :
  is_missing answers q = true ↔ ¬ Spec.answered answers q.
Proof.
  unfold is_missing, Spec.answered.
  destruct (Js.get answers (id q)) as [v|]; [|split; [by intros _ []|done]].
  destruct (Js.truthy v) eqn:Hv; cbn [negb].
  2:{ apply truthy_false in Hv. subst v. split; [|done]. by intros _ [? _]. }
  apply truthy_true in Hv.
  case_bool_decide as Hty; cbn [andb].
  - destruct (Js.truthy (Js.trim v)) eqn:Ht; cbn [negb].
    + apply truthy_true in Ht. split; [done|]. intros H. by destruct H.
    + apply truthy_false in Ht. split; [|done]. intros _ [_ H]. by apply H.
  - split; [done|]. intros H. by destruct H.
Qed.

Lemma missingAnswers_violates questions answers :
  missingAnswers questions answers = filter (Spec.violates answers) questions.
Proof.
  unfold missingAnswers. rewrite list_filter_filter.
  apply list_filter_iff. intros q. unfold Spec.violates.
  rewrite is_missing_answered. tauto.
Qed.

Lemma validateForm_ok_iff questions answers :
  fst (validateForm questions answers) = true ↔
  missingAnswers questions answers = [].
Proof.
  unfold validateForm.
  destruct (missingAnswers questions answers) as [|q l]; [done|].
  destruct (Z.ltb_spec 0 (Z.of_nat (length (q :: l)))) as [|Hle]; [done|].
  cbn [length] in Hle. lia.
Qed.

Lemma validateForm_ok_answered questions answers :
  fst (validateForm questions answers) = true ↔
  ∀ q, q ∈ questions → is_required q = true → Spec.answered answers q.
Proof.
  rewrite validateForm_ok_iff, missingAnswers_violates.
  unfold Spec.violates. split.
  - intros H q Hq Hreq.
    destruct (decide (Spec.answered answers q)) as [|Hna]; [done|].
    by destruct (filter_nil_not_elem_of _ _ q H).
  - intros H. apply elem_of_nil_inv. intros q.
    rewrite list_elem_of_filter. intros [[Hreq Hna] Hq]. by apply Hna, H.
Qed.

Lemma findIndex_lookup questions i q :
  NoDup (id <$> questions) →
  questions !! i = Some q →
  Js.findIndex (λ question, id question = id q) questions = Z.of_nat i.
Proof.
  intros Hnd Hi. unfold Js.findIndex.
  assert (list_find (λ question, id question = id q) questions = Some (i, q))
    as ->; [|done].
  apply list_find_Some. split_and!; [done..|].
  intros j y Hj Hlt Heq.
  assert (j = i); [|lia].
  apply (NoDup_lookup (id <$> questions) j i (id q)); [done| |].
  - by rewrite list_lookup_fmap, Hj, <- Heq.
  - by rewrite list_lookup_fmap, Hi.
Qed.

Lemma missingQuestionNumbers_positions questions answers :
  NoDup (id <$> questions) →
  missingQuestionNumbers questions answers
  = Spec.violating_positions questions answers.
Proof.
  intros Hnd. unfold missingQuestionNumbers, Spec.violating_positions.
  rewrite missingAnswers_violates.
  rewrite <- (filter_imap_pair (Spec.violates answers) questions).
  rewrite <- list_fmap_compose.
  apply Forall_fmap_ext, Forall_forall.
  intros [i q] [_ Hin%elem_of_imap_pair]%list_elem_of_filter. cbn.
  by rewrite (findIndex_lookup questions i q).
Qed.

(** Claim C3. For a question list whose ids are distinct, [validateForm]
    succeeds exactly when every required question has an answer that is
    present and non-empty, with a non-empty trim when the question has
    type text; when it fails, its single message lists the 1-indexed
    positions of all the violating questions, in question order. *)
Theorem validateForm_reports_all_violations questions answers :
  NoDup (id <$> questions) →
  (fst (validateForm questions answers) = true ↔
     ∀ q, q ∈ questions → is_required q = true → Spec.answered answers q)
  ∧ (fst (validateForm questions answers) = false →
     snd (validateForm questions answers)
     = Js.str "Please answer all required questions. Missing: Question "
       ++ Js.join (Js.str ", ")
            (Js.number_to_string
               <$> Spec.violating_positions questions answers)).
Proof.
  intros Hnd. split; [apply validateForm_ok_answered|].
  rewrite <- (missingQuestionNumbers_positions questions answers Hnd).
  unfold validateForm. by case_match.
Qed.

End Validation.

Lemma validateForm_reports_all_violations_witness :
  let questions :=
    [Types.mkQuestion (Js.str "q1") (Js.str "Name?") Types.text [] true 0;
     Types.mkQuestion (Js.str "q2") (Js.str "Stars?") Types.rating [] false 1;
     Types.mkQuestion (Js.str "q3") (Js.str "Colour?") Types.multiple_choice
       [Js.str "red"; Js.str "blue"] true 2] in
  let answers := [(Js.str "q1", Js.str "   "); (Js.str "q2", Js.str "3")] in
  NoDup (Types.id <$> questions)
  ∧ PublicForm.validateForm questions answers
    = (false,
       Js.str "Please answer all required questions. Missing: Question 1, 3").
Proof.
  intros questions answers.
  assert (NoDup (Types.id <$> questions)) as Hnd.
  { apply (bool_decide_unpack _). vm_compute. reflexivity. }
  split; [exact Hnd|].
  pose proof (validateForm_reports_all_violations questions answers Hnd)
    as [_ Hmsg].
  specialize (Hmsg eq_refl).
  destruct (PublicForm.validateForm questions answers) as [ok message] eqn:Hv.
  cbn in Hmsg. rewrite Hmsg.
  vm_compute in Hv. injection Hv as <- _. reflexivity.
Defined.

(** A whitespace-only answer to a required text question is reported as
    missing. *)
Example validateForm_blank_text :
  PublicForm.validateForm
    [Types.mkQuestion (Js.str "q1") (Js.str "Name?") Types.text [] true 0]
    [(Js.str "q1", Js.str "   ")]
  = (false,
     Js.str "Please answer all required questions. Missing: Question 1").
Proof. reflexivity. Qed.

(** Any non-empty value satisfies a required rating question. *)
Example validateForm_rating :
  PublicForm.validateForm
    [Types.mkQuestion (Js.str "q1") (Js.str "Stars?") Types.rating [] true 0]
    [(Js.str "q1", Js.str "3")]
  = (true, Js.str "").
Proof. reflexivity. Qed.

(** ** Re-validation of a stored submission *)

Section Roundtrip.

Import Types PublicForm.

Implicit Types questions : list Question.
Implicit Types answers : list (list N * list N).

Lemma get_stored responseId questions answers k v :
  Js.get answers k = Some v →
  keep questions (k, v) = true →
  Js.get (Spec.storedAnswers (answersToInsert responseId questions answers)) k
  = Some (Js.trim v).
Proof.
  unfold Spec.storedAnswers, answersToInsert, Js.entries.
  induction answers as [|[k' v'] answers IH]; [done|].
  rewrite get_cons, filter_cons. intros Hget Hkeep.
  destruct (decide (k' = k)) as [->|Hne].
  - injection Hget as ->. rewrite decide_True by done.
    rewrite !fmap_cons, get_cons. cbn. by rewrite decide_True.
  - case_decide.
    + rewrite !fmap_cons, get_cons. cbn. rewrite decide_False by done. auto.
    + auto.
Qed.

Lemma keep_nonblank questions k v :
  Js.trim v ≠ [] → keep questions (k, v) = true.
Proof.
  intros Ht. apply keep_included. split; [by apply trim_nonempty|done].
Qed.

(** Claim C8, as amended. When the answer record passes [validateForm]
    and no required question of a type other than text has an answer that
    is only white space, the stored (trimmed) answers of the assembled
    submission pass [validateForm] against the same questions. *)
Theorem revalidate_stored_answers responseId questions answers :
  fst (validateForm questions answers) = true →
  (∀ q v, q ∈ questions → is_required q = true →
          question_type q ≠ text →
          Js.get answers (id q) = Some v → Js.trim v ≠ []) →
  validateForm questions
    (Spec.storedAnswers (answersToInsert responseId questions answers))
  = (true, Js.str "").
Proof.
  intros Hok Hnontext.
  assert (fst (validateForm questions
                 (Spec.storedAnswers (answersToInsert responseId questions answers)))
          = true) as Hstored.
  { apply validateForm_ok_answered. intros q Hq Hreq.
    pose proof (proj1 (validateForm_ok_answered questions answers) Hok q Hq Hreq)
      as Hans.
    unfold Spec.answered in *.
    destruct (Js.get answers (id q)) as [v|] eqn:Hget; [|done].
    destruct Hans as [Hv Htext].
    assert (Js.trim v ≠ []) as Htrim.
    { destruct (decide (question_type q = text)); [auto|].
      by apply (Hnontext q v). }
    rewrite (get_stored responseId questions answers (id q) v Hget)
      by by apply keep_nonblank.
    split; [done|]. intros _. by rewrite trim_idem. }
  apply validateForm_ok_iff in Hstored.
  unfold validateForm. by rewrite Hstored.
Qed.

Lemma revalidate_stored_answers_witness :
  let questions :=
    [mkQuestion (Js.str "q1") (Js.str "Name?") text [] true 0;
     mkQuestion (Js.str "q2") (Js.str "Stars?") rating [] true 1] in
  let answers := [(Js.str "q1", Js.str " Ann "); (Js.str "q2", Js.str "4")] in
  validateForm questions
    (Spec.storedAnswers (answersToInsert (Js.str "r1") questions answers))
  = (true, Js.str "").
Proof.
  intros questions answers.
  apply (revalidate_stored_answers (Js.str "r1") questions answers).
  - vm_compute. reflexivity.
  - intros q v Hq _ Hty Hget.
    apply list_elem_of_In in Hq. cbn in Hq.
    destruct Hq as [<-|[<-|[]]].
    + by destruct Hty.
    + vm_compute in Hget. injection Hget as <-. vm_compute. discriminate.
Defined.

(** The claim as stated fails: a required rating question answered with a
    single space passes [validateForm], is stored as the empty string, and
    the stored answer does not pass. *)
Lemma revalidate_stored_answers_counterexample :
  let questions :=
    [mkQuestion (Js.str "q1") (Js.str "Stars?") rating [] true 0] in
  let answers := [(Js.str "q1", Js.str " ")] in
  validateForm questions answers = (true, Js.str "")
  ∧ answersToInsert (Js.str "r1") questions answers
    = [mkAnswerRow (Js.str "r1") (Js.str "q1") (Js.str "")]
  ∧ validateForm questions
      (Spec.storedAnswers (answersToInsert (Js.str "r1") questions answers))
    = (false,
       Js.str "Please answer all required questions. Missing: Question 1").
Proof. split_and!; reflexivity. Qed.

End Roundtrip.

(** ** Validation of a form at save time *)

Section SaveValidation.

Import Types.

Lemma createForm_blank_title formData :
  Js.trim (title formData) = [] →
  CreateForm.saveForm true formData
  = CreateForm.Failed (Js.str "Form title is required").
Proof. intros Ht. unfold CreateForm.saveForm, CreateForm.validate. by rewrite Ht. Qed.

Lemma editForm_blank_title form questions :
  Js.trim (EditForm.title form) = [] →
  EditForm.validate form questions = Some (Js.str "Form title is required").
Proof. intros Ht. unfold EditForm.validate. by rewrite Ht. Qed.

(** Claim C9. On both pages the empty-title check comes before the
    empty-question-list check: a form with an empty title fails with the
    title-required error whatever its question list, the empty one
    included, while a titled form without questions fails with the
    at-least-one-question error. *)
Theorem title_checked_before_question_count :
  (∀ description is_active questions,
     CreateForm.saveForm true
       (mkFormData (Js.str "") description is_active questions)
     = CreateForm.Failed (Js.str "Form title is required"))
  ∧ (∀ form_id description is_active questions,
       EditForm.validate
         (EditForm.mkFormData form_id (Js.str "") description is_active)
         questions
       = Some (Js.str "Form title is required"))
  ∧ (∀ description is_active,
       CreateForm.saveForm true
         (mkFormData (Js.str "Survey") description is_active [])
       = CreateForm.Failed (Js.str "At least one question is required"))
  ∧ (∀ form_id description is_active,
       EditForm.validate
         (EditForm.mkFormData form_id (Js.str "Survey") description is_active)
         []
       = Some (Js.str "At least one question is required")).
Proof.
  split_and!; intros.
  - by apply createForm_blank_title.
  - by apply editForm_blank_title.
  - reflexivity.
  - reflexivity.
Qed.

Lemma length_pos_false {A} (l : list A) :
  (0 <? Z.of_nat (length l))%Z = false ↔ l = [].
Proof.
  destruct l as [|x l]; [done|]. split; [|done].
  intros H. apply Z.ltb_ge in H. cbn [length] in H. lia.
Qed.

Lemma filter_nil_iff {A} (P : A → Prop) `{!∀ x, Decision (P x)} (l : list A) :
  filter P l = [] ↔ ∀ x, x ∈ l → ¬ P x.
Proof.
  split.
  - intros Hnil x Hx HP. by apply (filter_nil_not_elem_of P l x).
  - intros Hall. apply elem_of_nil_inv. intros x [HP Hx]%list_elem_of_filter.
    by apply (Hall x).
Qed.

(** On the creation page, once the title, the number of questions and the
    question texts are in order, validation passes exactly when every
    multiple-choice question has at least one trimmed, non-empty option,
    and fails with the multiple-choice message otherwise. *)
Lemma createForm_validate_options formData :
  Js.trim (title formData) ≠ [] →
  questions formData ≠ [] →
  (∀ q, q ∈ questions formData → Js.trim (question_text q) ≠ []) →
  (CreateForm.validate formData = None ↔
     ∀ q, q ∈ questions formData → question_type q = multiple_choice →
          (1 ≤ length (filter CreateForm.nonblank (options q)))%nat)
  ∧ (CreateForm.validate formData ≠ None →
     CreateForm.validate formData
     = Some (Js.str "Multiple choice questions must have at least one option")).
Proof.
  intros Htitle Hqs Htext. unfold CreateForm.validate.
  apply truthy_true in Htitle. rewrite Htitle. cbn [negb].
  destruct (questions formData) as [|q0 qs] eqn:Heq; [done|].
  assert ((Z.of_nat (length (q0 :: qs)) =? 0)%Z = false) as ->
    by (apply Z.eqb_neq; cbn [length]; lia).
  assert (filter (λ q, Js.truthy (Js.trim (question_text q)) = false)
            (q0 :: qs) = []) as ->.
  { apply filter_nil_iff. intros q Hq Hblank.
    apply truthy_false in Hblank. by apply (Htext q). }
  cbn [length Z.of_nat Z.ltb Z.compare].
  destruct (0 <? Z.of_nat (length (filter _ (q0 :: qs))))%Z eqn:Hlen.
  - split; [|done]. split; [done|]. intros Hall. exfalso.
    destruct (filter _ (q0 :: qs)) as [|q l] eqn:Hf; [done|].
    assert (q ∈ filter
              (λ q, question_type q = multiple_choice
                    ∧ length (filter CreateForm.nonblank (options q)) = 0%nat)
              (q0 :: qs)) as Hq by (rewrite Hf; apply list_elem_of_here).
    apply list_elem_of_filter in Hq as [[Hmc Hzero] Hq].
    specialize (Hall q Hq Hmc). lia.
  - split; [|done]. split; [|done]. intros _ q Hq Hmc.
    apply length_pos_false in Hlen.
    pose proof (proj1 (filter_nil_iff _ _) Hlen q Hq) as Hnot.
    destruct (length (filter CreateForm.nonblank (options q))) eqn:Hl; [|lia].
    by destruct Hnot.
Qed.

Lemma createForm_validate_options_witness :
  CreateForm.validate
    (mkFormData (Js.str "Survey") (Js.str "") true
       [mkQuestion (Js.str "temp-1") (Js.str "Name?") text [] true 0;
        mkQuestion (Js.str "temp-2") (Js.str "Colour?") multiple_choice
          [Js.str "  "; Js.str ""] true 1])
  = Some (Js.str "Multiple choice questions must have at least one option").
Proof.
  apply (createForm_validate_options
           (mkFormData (Js.str "Survey") (Js.str "") true
              [mkQuestion (Js.str "temp-1") (Js.str "Name?") text [] true 0;
               mkQuestion (Js.str "temp-2") (Js.str "Colour?") multiple_choice
                 [Js.str "  "; Js.str ""] true 1])).
  - vm_compute. discriminate.
  - discriminate.
  - intros q Hq. apply list_elem_of_In in Hq. cbn in Hq.
    destruct Hq as [<-|[<-|[]]]; vm_compute; discriminate.
  - vm_compute. discriminate.
Defined.

(** Claim C4, at the input where the edit page departs from it. A
    multiple-choice question with the options red and the empty string has one
    trimmed, non-empty option, which is below 2; the edit page counts both
    entries, accepts the form, and stores the question with the single
    option red. *)
Theorem editForm_counts_blank_options :
  let question :=
    EditForm.mkQuestion None (Js.str "Colour?") multiple_choice
      [Js.str "red"; Js.str ""] false 0 in
  let form :=
    EditForm.mkFormData (Js.str "f1") (Js.str "Survey") (Js.str "") true in
  length (filter CreateForm.nonblank (EditForm.options question)) = 1%nat
  ∧ EditForm.validate form [question] = None
  ∧ EditForm.saveForm (Js.str "f1") form [question]
    = inr (EditForm.mkSavePlan (Js.str "Survey") (Js.str "") true
             [EditForm.mkQuestionRow (Js.str "f1") (Js.str "Colour?")
                multiple_choice [Js.str "red"] false 0]).
Proof. split_and!; reflexivity. Qed.

(** With exactly one option, and that option non-empty, the creation page
    accepts the form and the edit page rejects it. *)
Lemma one_option_create_passes_edit_fails :
  CreateForm.validate
    (mkFormData (Js.str "Survey") (Js.str "") true
       [mkQuestion (Js.str "temp-1") (Js.str "Colour?") multiple_choice
          [Js.str "red"] true 0])
  = None
  ∧ EditForm.validate
      (EditForm.mkFormData (Js.str "f1") (Js.str "Survey") (Js.str "") true)
      [EditForm.mkQuestion None (Js.str "Colour?") multiple_choice
         [Js.str "red"] false 0]
    = Some (Js.str "Question 1 must have at least 2 options").
Proof. split; reflexivity. Qed.

End SaveValidation.

(** ** CSV export *)

Section Csv.

Import FormResponses.

Lemma doubled_replace_all (value : list N) :
  Spec.doubled value (Js.replace_all 34 [34%N; 34%N] value).
Proof.
  induction value as [|c value IH]; [constructor|].
  cbn [Js.replace_all]. destruct (N.eqb_spec c 34) as [->|Hne].
  - by constructor.
  - by constructor.
Qed.

Lemma quote_field_quoted (value : list N) :
  Spec.csv_quoted value (quote_field value).
Proof. eexists. split; [reflexivity|]. apply doubled_replace_all. Qed.

Lemma undouble_other (c : N) (body : list N) :
  c ≠ 34%N → Spec.undouble (c :: body) = cons c <$> Spec.undouble body.
Proof.
  intros Hc. destruct c as [|p]; [done|].
  do 6 (destruct p as [p|p|]; try reflexivity).
  by destruct Hc.
Qed.

Lemma undouble_doubled (value body : list N) :
  Spec.doubled value body → Spec.undouble body = Some value.
Proof.
  induction 1 as [|value body _ IH|c value body Hc _ IH]; [done| |].
  - cbn. by rewrite IH.
  - rewrite undouble_other by done. by rewrite IH.
Qed.

(** A quoted field reads back as the value it was made from. *)
Lemma csv_unquote_quote_field (value : list N) :
  Spec.csv_unquote (quote_field value) = Some value.
Proof.
  unfold quote_field, Spec.csv_unquote. cbn [app].
  rewrite reverse_app, reverse_singleton. cbn [app].
  rewrite reverse_involutive.
  apply undouble_doubled, doubled_replace_all.
Qed.

Lemma csv_quoted_head (value field : list N) :
  Spec.csv_quoted value field → head field = Some 34%N.
Proof. by intros (body & -> & _). Qed.

(** In the export of one form's responses every answer field is the
    answer text wrapped in double quotes with each of its double quotes
    doubled, whatever the text contains; the three leading fields of a row
    (response id, submission time, IP address or N/A) and the header cells
    are written as they are. The answer He said [34]hi[34], where [34] is
    the double quote, becomes the field
    [34]He said [34][34]hi[34][34][34]. *)
Lemma exportResponses_quotes_answer_fields :
  (∀ toLocaleString response,
     ∃ fields,
       csvRow toLocaleString response
       = [id response; toLocaleString (submitted_at response);
          match ip_address response with
          | Some (c :: ip) => c :: ip
          | _ => Js.str "N/A"
          end] ++ fields
       ∧ Forall2 (λ answer field, Spec.csv_quoted (answer_text answer) field)
                 (answers response) fields)
  ∧ (∀ r responses,
       csvHeaders (r :: responses)
       = [Js.str "Response ID"; Js.str "Submitted At"; Js.str "IP Address"]
         ++ (question_text <$> answers r))
  ∧ quote_field (Js.str "He said " ++ [34%N] ++ Js.str "hi" ++ [34%N])
    = [34%N] ++ Js.str "He said " ++ [34%N; 34%N] ++ Js.str "hi"
      ++ [34%N; 34%N] ++ [34%N].
Proof.
  split_and!.
  - intros toLocaleString response. unfold csvRow.
    eexists. split.
    { by destruct (ip_address response) as [[|c ip]|]. }
    apply Forall2_fmap_r, Forall_Forall2_diag, Forall_forall.
    intros answer _. apply quote_field_quoted.
  - done.
  - reflexivity.
Qed.

(** Not every field of a row is quoted: the response id, the submission
    time (here in a locale whose rendering has a comma) and the IP
    placeholder are written without quotes. *)
Lemma exportResponses_bare_fields :
  let response :=
    mkFormResponse (Js.str "r1") (Js.str "2025-07-18T02:19:19+00:00")
      None None
      [mkAnswer (Js.str "Comments") (Js.str "text") (Js.str "ok") 0] in
  let toLocaleString := λ _ : list N, Js.str "7/18/2025, 2:19:19 AM" in
  csvRow toLocaleString response
  = [Js.str "r1"; Js.str "7/18/2025, 2:19:19 AM"; Js.str "N/A";
     [34%N] ++ Js.str "ok" ++ [34%N]]
  ∧ ¬ (∀ field, field ∈ csvRow toLocaleString response →
                ∃ value, Spec.csv_quoted value field).
Proof.
  split; [reflexivity|].
  intros H. destruct (H (Js.str "r1")) as [value Hq].
  - apply list_elem_of_In. cbn. by left.
  - apply csv_quoted_head in Hq. discriminate.
Qed.

(** Claim C5, at an input where the exports depart from it. The answer
    is He said [34]hi[34], where [34] is the double quote, and the browser
    writes times in the manner of the United States. The export of all
    responses puts the answer between double quotes and leaves its own
    double quotes single, so the file is not well-formed CSV. The export of
    one form doubles them, as the claim says, but writes the response id,
    the time and the IP placeholder bare, as both exports write the header
    cells; the comma of the time makes the row read as five fields under a
    header of four. *)
Theorem csv_exports_leave_fields_unquoted (functionSource : list N → list N) :
  let answer := Js.str "He said " ++ [34%N] ++ Js.str "hi" ++ [34%N] in
  let toLocaleString := λ _ : list N, Js.str "7/18/2025, 2:19:19 AM" in
  let all :=
    Responses.exportToCSV toLocaleString functionSource
      [Responses.mkResponse (Js.str "r1") (Js.str "Survey") (Js.str "f1")
         (Js.str "2025-07-18T02:19:19+00:00")
         [(Js.str "Comments", answer)]] in
  let one :=
    exportResponses toLocaleString
      [mkFormResponse (Js.str "r1") (Js.str "2025-07-18T02:19:19+00:00")
         None None
         [mkAnswer (Js.str "Comments") (Js.str "text") answer 0]] in
  all = Some (Js.str "Form Title,Submitted At,Comments" ++ [10%N]
              ++ [34%N] ++ Js.str "Survey" ++ [34%N]
              ++ Js.str ",7/18/2025, 2:19:19 AM,"
              ++ [34%N] ++ Js.str "He said " ++ [34%N] ++ Js.str "hi"
              ++ [34%N] ++ [34%N])
  ∧ one = Some (Js.str "Response ID,Submitted At,IP Address,Comments" ++ [10%N]
                ++ Js.str "r1,7/18/2025, 2:19:19 AM,N/A,"
                ++ [34%N] ++ Js.str "He said " ++ [34%N; 34%N] ++ Js.str "hi"
                ++ [34%N; 34%N] ++ [34%N])
  ∧ match all with
    | Some text => Spec.csv_read text
    | None => None
    end = None
  ∧ match one with
    | Some text => Spec.csv_read text
    | None => None
    end
    = Some [[Js.str "Response ID"; Js.str "Submitted At"; Js.str "IP Address";
             Js.str "Comments"];
            [Js.str "r1"; Js.str "7/18/2025"; Js.str " 2:19:19 AM";
             Js.str "N/A"; answer]].
Proof. intros answer toLocaleString all one. split_and!; reflexivity. Qed.

End Csv.

(** ** Average rating *)

Section AverageRating.

(** On the page of one form, a number contributes to the average exactly
    when it is the [parseInt] of the text of an answer to a rating
    question and is not NaN. *)
Lemma formResponses_ratingAnswers_elem
    (responses : list FormResponses.FormResponse) (x : float) :
  x ∈ FormResponses.ratingAnswers responses ↔
  ∃ r answer,
    r ∈ responses ∧ answer ∈ FormResponses.answers r
    ∧ FormResponses.question_type answer = Js.str "rating"
    ∧ x = Js.parseInt (FormResponses.answer_text answer)
    ∧ PrimFloat.is_nan x = false.
Proof.
  unfold FormResponses.ratingAnswers. rewrite list_elem_of_bind. split.
  - intros (r & Hx & Hr). exists r.
    apply list_elem_of_filter in Hx as [Hnan Hx].
    apply list_elem_of_fmap in Hx as (answer & -> & Ha).
    apply list_elem_of_filter in Ha as [Hty Ha].
    by exists answer.
  - intros (r & answer & Hr & Ha & Hty & -> & Hnan). exists r.
    split; [|done]. apply list_elem_of_filter. split; [done|].
    apply list_elem_of_fmap. exists answer. split; [done|].
    by apply list_elem_of_filter.
Qed.

(** Without a rating answer that parses, the average is 0. *)
Lemma formResponses_avgRating_none
    (responses : list FormResponses.FormResponse) :
  FormResponses.ratingAnswers responses = [] →
  FormResponses.stats_avgRating responses = 0%float.
Proof.
  intros H. unfold FormResponses.stats_avgRating, FormResponses.avgRating.
  rewrite H. vm_compute. reflexivity.
Qed.

Lemma formResponses_avgRating_none_witness :
  FormResponses.stats_avgRating
    [FormResponses.mkFormResponse (Js.str "r1")
       (Js.str "2025-07-18T02:19:19+00:00") None None
       [FormResponses.mkAnswer (Js.str "Stars?") (Js.str "rating")
          (Js.str "bad") 0;
        FormResponses.mkAnswer (Js.str "Visits?") (Js.str "text")
          (Js.str "3") 1]]
  = 0%float.
Proof.
  apply (formResponses_avgRating_none
           [FormResponses.mkFormResponse (Js.str "r1")
              (Js.str "2025-07-18T02:19:19+00:00") None None
              [FormResponses.mkAnswer (Js.str "Stars?") (Js.str "rating")
                 (Js.str "bad") 0;
               FormResponses.mkAnswer (Js.str "Visits?") (Js.str "text")
                 (Js.str "3") 1]]).
  vm_compute. reflexivity.
Defined.

(** The rating answers 3, 5, bad and 1 average to 3. *)
Example formResponses_avgRating_example :
  let rating_answer s :=
    FormResponses.mkAnswer (Js.str "Stars?") (Js.str "rating") (Js.str s) 0 in
  FormResponses.stats_avgRating
    [FormResponses.mkFormResponse (Js.str "r1")
       (Js.str "2025-07-18T02:19:19+00:00") None None
       [rating_answer "3"%string];
     FormResponses.mkFormResponse (Js.str "r2")
       (Js.str "2025-07-18T03:00:00+00:00") None None
       [rating_answer "5"%string];
     FormResponses.mkFormResponse (Js.str "r3")
       (Js.str "2025-07-18T04:00:00+00:00") None None
       [rating_answer "bad"%string];
     FormResponses.mkFormResponse (Js.str "r4")
       (Js.str "2025-07-18T05:00:00+00:00") None None
       [rating_answer "1"%string]]
  = 3%float.
Proof. vm_compute. reflexivity. Qed.

(** Claim C6, at the input where the page of all responses departs from
    it. A response holds the answer 3 to a text question and the answer 5
    to a rating question. The page of the form averages the rating answer
    alone and shows 5; the page of all responses takes every answer that
    is a single digit from 1 to 5, whatever the type of its question, and
    shows 4. *)
Theorem loadData_avgRating_counts_text_answers :
  Responses.loadData_avgRating
    [Responses.mkRawResponse (Js.str "r1") (Js.str "2025-07-18T02:19:19+00:00")
       (Responses.mkRawForm (Js.str "f1") (Js.str "Survey") (Js.str "u1"))
       [Responses.mkRawAnswer (Js.str "3")
          (Responses.mkRawQuestion (Js.str "How many visits?") (Js.str "text"));
        Responses.mkRawAnswer (Js.str "5")
          (Responses.mkRawQuestion (Js.str "Rate us") (Js.str "rating"))]]
  = 4%float
  ∧ FormResponses.stats_avgRating
      [FormResponses.mkFormResponse (Js.str "r1")
         (Js.str "2025-07-18T02:19:19+00:00") None None
         [FormResponses.mkAnswer (Js.str "How many visits?") (Js.str "text")
            (Js.str "3") 0;
          FormResponses.mkAnswer (Js.str "Rate us") (Js.str "rating")
            (Js.str "5") 1]]
    = 5%float.
Proof. split; vm_compute; reflexivity. Qed.

End AverageRating.

(** ** The trend of the last seven days *)

Section Trend.

Open Scope Z_scope.

Lemma Day_shift (t k : Z) : Date.Day (t - k * Date.msPerDay) = Date.Day t - k.
Proof.
  unfold Date.Day, Date.msPerDay.
  replace (t - k * 86400000) with (t + (- k) * 86400000) by lia.
  rewrite Z.div_add by lia. lia.
Qed.

Lemma Day_of_day (d : Z) : Date.Day (d * Date.msPerDay) = d.
Proof. unfold Date.Day, Date.msPerDay. by rewrite Z.div_mul. Qed.

Lemma Day_TimeWithinDay (t : Z) :
  Date.Day t * Date.msPerDay + Date.TimeWithinDay t = t.
Proof.
  unfold Date.Day, Date.TimeWithinDay, Date.msPerDay.
  pose proof (Z.div_mod t 86400000). lia.
Qed.

Lemma TimeFromYear_le (y t : Z) :
  (Date.TimeFromYear y <=? t) = (Date.DayFromYear y <=? Date.Day t).
Proof.
  unfold Date.TimeFromYear, Date.Day, Date.msPerDay.
  generalize (Date.DayFromYear y). intros D.
  destruct (Z.leb_spec (86400000 * D) t), (Z.leb_spec D (t / 86400000));
    try done; exfalso.
  - assert (D ≤ t / 86400000); [|lia]. apply Z.div_le_lower_bound; lia.
  - pose proof (Z.mul_div_le t 86400000). nia.
Qed.

(** The calendar fields of a time value depend on its day only. *)
Lemma YearFromTime_Day (t1 t2 : Z) :
  Date.Day t1 = Date.Day t2 → Date.YearFromTime t1 = Date.YearFromTime t2.
Proof.
  intros H. unfold Date.YearFromTime. by rewrite !TimeFromYear_le, H.
Qed.

Lemma MonthFromTime_Day (t1 t2 : Z) :
  Date.Day t1 = Date.Day t2 → Date.MonthFromTime t1 = Date.MonthFromTime t2.
Proof.
  intros H. unfold Date.MonthFromTime, Date.DayWithinYear, Date.InLeapYear.
  by rewrite (YearFromTime_Day t1 t2 H), H.
Qed.

Lemma DateFromTime_Day (t1 t2 : Z) :
  Date.Day t1 = Date.Day t2 → Date.DateFromTime t1 = Date.DateFromTime t2.
Proof.
  intros H. unfold Date.DateFromTime, Date.DayWithinYear, Date.InLeapYear.
  by rewrite (MonthFromTime_Day t1 t2 H), (YearFromTime_Day t1 t2 H), H.
Qed.

(** [YearFromTime] meets its definition in ECMA-262: it is the largest
    year that starts at or before the time value. *)
Lemma DayFromYear_estimate (d : Z) :
  let y := 1970 + d * 400 / 146097 in
  Date.DayFromYear (y - 1) ≤ d < Date.DayFromYear (y + 2).
Proof. unfold Date.DayFromYear. cbn zeta. Z.div_mod_to_equations. lia. Qed.

Lemma DayFromYear_le (y1 y2 : Z) :
  y1 ≤ y2 → Date.DayFromYear y1 ≤ Date.DayFromYear y2.
Proof. unfold Date.DayFromYear. intros H. Z.div_mod_to_equations. lia. Qed.

Lemma DayFromYear_succ (y : Z) :
  Date.DayFromYear (y + 1) = Date.DayFromYear y + Date.DaysInYear y.
Proof.
  unfold Date.DayFromYear, Date.DaysInYear.
  repeat case_match;
    rewrite ?negb_true_iff, ?negb_false_iff, ?Z.eqb_eq, ?Z.eqb_neq in *;
    Z.div_mod_to_equations; lia.
Qed.

Lemma YearFromTime_days (t : Z) :
  Date.DayFromYear (Date.YearFromTime t) ≤ Date.Day t
  < Date.DayFromYear (Date.YearFromTime t + 1).
Proof.
  unfold Date.YearFromTime. rewrite !TimeFromYear_le.
  pose proof (DayFromYear_estimate (Date.Day t)) as Hest. cbn zeta in Hest.
  set (y := 1970 + Date.Day t * 400 / 146097) in *.
  replace (y + 2) with (y + 1 + 1) in Hest by lia.
  destruct (Z.leb_spec (Date.DayFromYear (y + 1)) (Date.Day t)); [lia|].
  destruct (Z.leb_spec (Date.DayFromYear y) (Date.Day t)); [lia|].
  replace (y - 1 + 1) with y by lia. lia.
Qed.

Lemma YearFromTime_largest (t y : Z) :
  Date.TimeFromYear y ≤ t ↔ y ≤ Date.YearFromTime t.
Proof.
  pose proof (YearFromTime_days t) as [Hlo Hhi].
  rewrite <- Z.leb_le, TimeFromYear_le, Z.leb_le. split.
  - intros Hy. destruct (Z.le_gt_cases y (Date.YearFromTime t)); [done|].
    pose proof (DayFromYear_le (Date.YearFromTime t + 1) y). lia.
  - intros Hy. pose proof (DayFromYear_le y (Date.YearFromTime t)). lia.
Qed.

Lemma DayWithinYear_range (t : Z) :
  0 ≤ Date.DayWithinYear t < Date.DaysInYear (Date.YearFromTime t).
Proof.
  unfold Date.DayWithinYear. pose proof (YearFromTime_days t).
  rewrite DayFromYear_succ in *. lia.
Qed.

(** The day of the month is between 1 and 31. *)
Lemma DateFromTime_range (t : Z) : 1 ≤ Date.DateFromTime t ≤ 31.
Proof.
  pose proof (DayWithinYear_range t) as Hd.
  unfold Date.DateFromTime, Date.MonthFromTime, Date.InLeapYear in *.
  assert (Date.DaysInYear (Date.YearFromTime t) = 365
          ∨ Date.DaysInYear (Date.YearFromTime t) = 366) as [Hy|Hy].
  { unfold Date.DaysInYear. repeat case_match; auto. }
  all: rewrite Hy in *; cbn [Z.eqb Pos.eqb] in *.
  all: repeat (case_match; try lia).
Qed.

Lemma MonthFromTime_range (t : Z) : 0 ≤ Date.MonthFromTime t ≤ 11.
Proof. unfold Date.MonthFromTime. repeat case_match; lia. Qed.

(** Setting the day of the month to the current one minus [k] moves the
    day number back by [k]. *)
Lemma MakeDay_DateFromTime (t k : Z) :
  Date.MakeDay (Date.YearFromTime t) (Date.MonthFromTime t)
               (Date.DateFromTime t - k)
  = Date.Day t - k.
Proof.
  unfold Date.MakeDay, Date.DateFromTime, Date.InLeapYear, Date.DayWithinYear.
  pose proof (MonthFromTime_range t) as Hm.
  generalize dependent (Date.MonthFromTime t). intros m Hm.
  rewrite (Z.div_small m 12), (Z.mod_small m 12), Z.add_0_r by lia.
  assert (m = 0 ∨ m = 1 ∨ m = 2 ∨ m = 3 ∨ m = 4 ∨ m = 5 ∨ m = 6 ∨ m = 7
          ∨ m = 8 ∨ m = 9 ∨ m = 10 ∨ m = 11) as Hcases by lia.
  destruct Hcases as [->|[->|[->|[->|[->|[->|[->|[->|[->|[->|[->| ->]]]]]]]]]]];
    cbn [Date.month_start]; lia.
Qed.

Lemma setDate_fixed_offset (offset now k : Z) :
  Date.setDate (Spec.fixed_offset offset) now
    (Date.getDate (Spec.fixed_offset offset) now - k)
  = Date.TimeClip (now - k * Date.msPerDay).
Proof.
  unfold Date.setDate, Date.getDate, Date.LocalTime, Date.UTC, Spec.fixed_offset.
  rewrite MakeDay_DateFromTime. unfold Date.MakeDate. f_equal.
  pose proof (Day_TimeWithinDay (now + offset)). lia.
Qed.

Lemma TimeClip_in_range (t : Z) :
  -8640000000000000 ≤ t ≤ 8640000000000000 → Date.TimeClip t = Some t.
Proof.
  intros H. unfold Date.TimeClip.
  destruct (Z.ltb_spec 8640000000000000 (Z.abs t)); [lia|done].
Qed.

Lemma uint_units_no_T (d : Decimal.uint) :
  Forall (λ c, c ≠ 84%N) (Js.uint_units d).
Proof. induction d; cbn; constructor; done. Qed.

Lemma number_to_string_no_T (z : Z) :
  Forall (λ c, c ≠ 84%N) (Js.number_to_string z).
Proof.
  destruct z; cbn.
  - by repeat constructor.
  - apply uint_units_no_T.
  - constructor; [done|]. apply uint_units_no_T.
Qed.

Lemma pad_no_T (width : nat) (n : Z) : Forall (λ c, c ≠ 84%N) (Date.pad width n).
Proof.
  unfold Date.pad. apply Forall_app. split.
  - apply Forall_replicate. done.
  - apply number_to_string_no_T.
Qed.

Lemma split_T_0_app (d r : list N) :
  Forall (λ c, c ≠ 84%N) d → Dashboard.split_T_0 (d ++ 84%N :: r) = d.
Proof.
  induction 1 as [|c d Hc _ IH]; cbn.
  - done.
  - destruct (N.eqb_spec c 84); [done|]. by rewrite IH.
Qed.

(** [toISOString] is a date part without the letter T, then T, then the
    time part. *)
Lemma toISOString_parts (tv : Z) :
  ∃ time_part,
    Date.toISOString tv
    = ((let y := Date.YearFromTime tv in
        if (0 <=? y) && (y <=? 9999) then Date.pad 4 y
        else (if y <? 0 then [45%N] else [43%N]) ++ Date.pad 6 (Z.abs y))
       ++ [45%N] ++ Date.pad 2 (Date.MonthFromTime tv + 1)
       ++ [45%N] ++ Date.pad 2 (Date.DateFromTime tv))
      ++ 84%N :: time_part.
Proof.
  eexists. unfold Date.toISOString. cbn zeta.
  rewrite <- !app_assoc. reflexivity.
Qed.

Lemma date_part_no_T (y m d : Z) :
  Forall (λ c, c ≠ 84%N)
    ((if (0 <=? y) && (y <=? 9999) then Date.pad 4 y
      else (if y <? 0 then [45%N] else [43%N]) ++ Date.pad 6 (Z.abs y))
     ++ [45%N] ++ Date.pad 2 m ++ [45%N] ++ Date.pad 2 d).
Proof.
  pose proof pad_no_T as Hpad.
  assert (Forall (λ c, c ≠ 84%N) [45%N]) as Hdash by by repeat constructor.
  rewrite !Forall_app. split_and!; auto.
  destruct ((0 <=? y) && (y <=? 9999)); [auto|].
  rewrite Forall_app. split; [|auto].
  destruct (y <? 0); by repeat constructor.
Qed.

(** The date part of [toISOString] is the ISO date of the day of the time
    value. *)
Lemma toISOString_date (tv : Z) :
  Dashboard.split_T_0 (Date.toISOString tv) = Spec.iso_date (Date.Day tv).
Proof.
  unfold Spec.iso_date.
  assert (Date.Day tv = Date.Day (Date.Day tv * Date.msPerDay)) as Hday
    by by rewrite Day_of_day.
  generalize dependent (Date.Day tv * Date.msPerDay). intros tv' Hday.
  destruct (toISOString_parts tv) as [r ->].
  destruct (toISOString_parts tv') as [r' ->].
  cbn zeta. rewrite !split_T_0_app by apply date_part_no_T.
  by rewrite (YearFromTime_Day _ _ Hday), (MonthFromTime_Day _ _ Hday),
    (DateFromTime_Day _ _ Hday).
Qed.

Lemma mapM_Some_fmap {A B} (f : A → option B) (g : A → B) (l : list A) :
  (∀ x, x ∈ l → f x = Some (g x)) → mapM f l = Some (g <$> l).
Proof.
  induction l as [|x l IH]; intros H; [done|].
  cbn. rewrite (H x) by apply list_elem_of_here. cbn.
  rewrite IH; [done|]. intros y Hy. apply H. by apply list_elem_of_further.
Qed.

Lemma startsWith_prefix (s p : list N) :
  Js.startsWith s p = true ↔ p `prefix_of` s.
Proof.
  revert s. induction p as [|c p IH]; intros s.
  - destruct s; cbn; (split; [|done]); intros _; apply prefix_nil.
  - destruct s as [|c' s]; cbn.
    + split; [done|]. intros H. by apply prefix_nil_not in H.
    + rewrite andb_true_iff, N.eqb_eq, IH. split.
      * intros [-> H]. by apply prefix_cons.
      * intros H. split; [by apply prefix_cons_inv_1 in H|].
        by apply prefix_cons_inv_2 in H.
Qed.

(** The count of a day is the number of responses whose submission time
    starts with the date of the day. *)
Lemma count_on_prefix (responses : list Dashboard.MonthlyResponse)
    (day : list N) :
  Dashboard.count_on (Some responses) day
  = Z.of_nat (length (filter
      (λ response, day `prefix_of` Dashboard.submitted_at response)
      responses)).
Proof.
  cbn. do 2 f_equal. apply list_filter_iff. intros r. apply startsWith_prefix.
Qed.

(** In a time zone whose offset from UTC does not change, the trend has
    seven entries, for the seven UTC days that end with the day of the
    reference time, oldest first, each with the count of its date. *)
Theorem trendData_fixed_offset (offset now : Z)
    (monthlyResponses : option (list Dashboard.MonthlyResponse)) :
  -8640000000000000 + 6 * Date.msPerDay ≤ now ≤ 8640000000000000 →
  Dashboard.trendData (Spec.fixed_offset offset) now monthlyResponses
  = Some ((λ k, let day := Spec.iso_date (Date.Day now - 6 + k) in
                Dashboard.mkTrendPoint day
                  (Dashboard.count_on monthlyResponses day))
            <$> [0; 1; 2; 3; 4; 5; 6]).
Proof.
  intros Hnow. unfold Dashboard.trendData, Dashboard.last7Days.
  rewrite (mapM_Some_fmap _ (λ i, Spec.iso_date (Date.Day now - 6 + i))).
  - reflexivity.
  - intros i Hi. unfold Dashboard.last7Days_at.
    rewrite setDate_fixed_offset.
    assert (0 ≤ i ≤ 6) as Hrange.
    { apply list_elem_of_In in Hi. cbn in Hi. lia. }
    rewrite TimeClip_in_range by (unfold Date.msPerDay in *; lia).
    cbn. rewrite toISOString_date, Day_shift. do 2 f_equal. lia.
Qed.

Lemma trendData_fixed_offset_witness :
  Dashboard.trendData (Spec.fixed_offset 19800000) 1709210096000 None
  = Some [Dashboard.mkTrendPoint (Js.str "2024-02-23") 0;
          Dashboard.mkTrendPoint (Js.str "2024-02-24") 0;
          Dashboard.mkTrendPoint (Js.str "2024-02-25") 0;
          Dashboard.mkTrendPoint (Js.str "2024-02-26") 0;
          Dashboard.mkTrendPoint (Js.str "2024-02-27") 0;
          Dashboard.mkTrendPoint (Js.str "2024-02-28") 0;
          Dashboard.mkTrendPoint (Js.str "2024-02-29") 0].
Proof.
  rewrite (trendData_fixed_offset 19800000 1709210096000 None).
  - vm_compute. reflexivity.
  - unfold Date.msPerDay. lia.
Defined.

(** Claim C7, at an input where the dashboard departs from it. In a
    browser on Central European time, at 2025-10-27T00:30:00Z (01:30 local
    time, the day after daylight saving time ended), the seven dates run
    from 2025-10-20 to 2025-10-25 and then jump to 2025-10-27: the entry
    for 2025-10-26 is missing, and a response submitted on that day is
    counted nowhere. *)
Theorem trendData_skips_day_after_dst_end :
  let now := 1761525000000%Z in
  let monthlyResponses :=
    Some [Dashboard.mkMonthlyResponse (Js.str "a1")
            (Js.str "2025-10-26T12:00:00.000000+00:00")] in
  Date.toISOString now = Js.str "2025-10-27T00:30:00.000Z"
  ∧ Dashboard.trendData Spec.europe_berlin_autumn_2025 now monthlyResponses
    = Some [Dashboard.mkTrendPoint (Js.str "2025-10-20") 0;
            Dashboard.mkTrendPoint (Js.str "2025-10-21") 0;
            Dashboard.mkTrendPoint (Js.str "2025-10-22") 0;
            Dashboard.mkTrendPoint (Js.str "2025-10-23") 0;
            Dashboard.mkTrendPoint (Js.str "2025-10-24") 0;
            Dashboard.mkTrendPoint (Js.str "2025-10-25") 0;
            Dashboard.mkTrendPoint (Js.str "2025-10-27") 0].
Proof. split; vm_compute; reflexivity. Qed.

(** In the same time zone at 2025-03-30T23:30:00Z (01:30 local time, the
    day after daylight saving time began), the date 2025-03-30 comes
    twice, 2025-03-24 is missing, and a response of 2025-03-30 is counted
    in both entries. *)
Example trendData_repeats_day_after_dst_start :
  Dashboard.trendData Spec.europe_berlin_spring_2025 1743377400000
    (Some [Dashboard.mkMonthlyResponse (Js.str "a1")
             (Js.str "2025-03-30T12:00:00.000000+00:00")])
  = Some [Dashboard.mkTrendPoint (Js.str "2025-03-25") 0;
          Dashboard.mkTrendPoint (Js.str "2025-03-26") 0;
          Dashboard.mkTrendPoint (Js.str "2025-03-27") 0;
          Dashboard.mkTrendPoint (Js.str "2025-03-28") 0;
          Dashboard.mkTrendPoint (Js.str "2025-03-29") 0;
          Dashboard.mkTrendPoint (Js.str "2025-03-30") 1;
          Dashboard.mkTrendPoint (Js.str "2025-03-30") 1].
Proof. vm_compute. reflexivity. Qed.

End Trend.

(** ** Answer records: changing and reading answers *)

Section Records.

Implicit Types o : list (list N * list N).
Implicit Types k v : list N.

Lemma get_nil k : Js.get [] k = None.
Proof. reflexivity. Qed.

Lemma get_elem_of o k v : Js.get o k = Some v → (k, v) ∈ o.
Proof.
  intros (i & Hi & _)%get_Some. by apply list_elem_of_lookup_2 in Hi.
Qed.

Lemma get_None_keys o k : Js.get o k = None ↔ k ∉ Js.keys o.
Proof.
  rewrite get_None. unfold Js.keys. rewrite list_elem_of_fmap. split.
  - intros H (e & -> & He). by apply (H e).
  - intros H e He Hk. apply H. by exists e.
Qed.

Lemma get_app_r o k k' v' :
  Js.get (o ++ [(k', v')]) k
  = match Js.get o k with
    | Some v => Some v
    | None => if decide (k' = k) then Some v' else None
    end.
Proof.
  induction o as [|[k0 v0] o IH]; cbn [app].
  - by rewrite get_cons, get_nil.
  - rewrite !get_cons. by destruct (decide (k0 = k)).
Qed.

Lemma get_replace_value o k v k' :
  Js.get (Js.replace_value o k v) k'
  = match Js.get o k' with
    | Some v' => if decide (k' = k) then Some v else Some v'
    | None => None
    end.
Proof.
  induction o as [|[k0 v0] o IH]; [done|]. cbn [Js.replace_value].
  destruct (decide (k0 = k)) as [->|Hne].
  - rewrite !get_cons. destruct (decide (k = k')) as [->|Hne'].
    + by rewrite decide_True.
    + destruct (Js.get o k'); [|done]. by rewrite decide_False.
  - rewrite !get_cons. destruct (decide (k0 = k')) as [->|Hne'].
    + by rewrite decide_False.
    + apply IH.
Qed.

Lemma get_insert_index o n k v k' :
  Js.get o k = None →
  Js.get (Js.insert_index o n k v) k'
  = if decide (k' = k) then Some v else Js.get o k'.
Proof.
  induction o as [|[k0 v0] o IH]; intros Hnone.
  - cbn. rewrite get_cons, get_nil. destruct (decide (k = k')) as [->|];
      [by rewrite decide_True|by rewrite decide_False].
  - rewrite get_cons in Hnone. destruct (decide (k0 = k)) as [|Hk0]; [done|].
    assert (Js.get ((k, v) :: (k0, v0) :: o) k'
            = if decide (k' = k) then Some v else Js.get ((k0, v0) :: o) k')
      as Hfront.
    { rewrite (get_cons _ k' k v). destruct (decide (k = k')) as [->|];
        [by rewrite decide_True|by rewrite decide_False]. }
    cbn [Js.insert_index]. destruct (Js.array_index k0) as [n'|]; [|done].
    destruct (n' <? n)%N; [|done].
    rewrite !get_cons. destruct (decide (k0 = k')) as [->|Hne'].
    + by rewrite decide_False.
    + by apply IH.
Qed.

Lemma get_set o k v k' :
  Js.get (Js.set o k v) k' = if decide (k' = k) then Some v else Js.get o k'.
Proof.
  unfold Js.set. destruct (Js.get o k) as [v0|] eqn:Hget.
  - rewrite get_replace_value. destruct (decide (k' = k)) as [->|Hne].
    + by rewrite Hget.
    + by destruct (Js.get o k').
  - destruct (Js.array_index k) as [n|].
    + by apply get_insert_index.
    + rewrite get_app_r. destruct (decide (k' = k)) as [->|Hne].
      * by rewrite Hget, decide_True.
      * destruct (Js.get o k'); [done|]. by rewrite decide_False.
Qed.

Lemma keys_replace_value o k v :
  Js.keys (Js.replace_value o k v) = Js.keys o.
Proof.
  unfold Js.keys. induction o as [|[k0 v0] o IH]; [done|].
  cbn [Js.replace_value]. destruct (decide (k0 = k)) as [->|]; [done|].
  rewrite !fmap_cons. by rewrite IH.
Qed.

Lemma keys_insert_index o n k v :
  Js.keys (Js.insert_index o n k v) ≡ₚ k :: Js.keys o.
Proof.
  unfold Js.keys. induction o as [|[k0 v0] o IH]; [done|].
  cbn [Js.insert_index]. destruct (Js.array_index k0) as [n'|]; [|done].
  destruct (n' <? n)%N; [|done].
  rewrite !fmap_cons, IH. cbn. apply Permutation_swap.
Qed.

Lemma keys_set_NoDup o k v :
  NoDup (Js.keys o) → NoDup (Js.keys (Js.set o k v)).
Proof.
  intros Hnd. unfold Js.set. destruct (Js.get o k) as [v0|] eqn:Hget.
  - by rewrite keys_replace_value.
  - apply get_None_keys in Hget.
    assert (NoDup (k :: Js.keys o)) as Hcons by by apply NoDup_cons.
    destruct (Js.array_index k) as [n|].
    + by rewrite keys_insert_index.
    + unfold Js.keys in *. rewrite fmap_app. cbn.
      by rewrite <- Permutation_cons_append.
Qed.

(** In a record with distinct keys every entry is the one a lookup of
    its key finds. *)
Lemma get_of_entry o k v :
  NoDup (Js.keys o) → (k, v) ∈ o → Js.get o k = Some v.
Proof.
  induction o as [|[k0 v0] o IH]; intros Hnd Hin; [by apply elem_of_nil in Hin|].
  unfold Js.keys in Hnd. rewrite fmap_cons in Hnd.
  apply NoDup_cons in Hnd as [Hk0 Hnd].
  rewrite get_cons. apply elem_of_cons in Hin as [[= -> ->]|Hin].
  - by rewrite decide_True.
  - destruct (decide (k0 = k)) as [->|]; [|by apply IH].
    destruct Hk0. apply list_elem_of_fmap. by exists (k, v).
Qed.

Lemma typed_answers_snoc (changes : list (list N * list N)) k v :
  Spec.typed_answers (changes ++ [(k, v)])
  = PublicForm.handleAnswerChange k v (Spec.typed_answers changes).
Proof. unfold Spec.typed_answers. by rewrite foldl_app. Qed.

Lemma typed_answers_NoDup (changes : list (list N * list N)) :
  NoDup (Js.keys (Spec.typed_answers changes)).
Proof.
  induction changes as [|[k v] changes IH] using rev_ind.
  - apply NoDup_nil_2.
  - rewrite typed_answers_snoc. by apply keys_set_NoDup.
Qed.

Lemma last_typed_snoc (changes : list (list N * list N)) k' v' k :
  Spec.last_typed (changes ++ [(k', v')]) k
  = if decide (k = k') then Some v' else Spec.last_typed changes k.
Proof.
  unfold Spec.last_typed.
  rewrite filter_app, filter_cons, filter_nil. cbn [fst].
  destruct (decide (k = k')) as [->|Hne].
  - rewrite decide_True by done. by rewrite last_snoc.
  - rewrite decide_False by done. by rewrite app_nil_r.
Qed.

Lemma typed_answers_lookup_aux (changes : list (list N * list N)) k :
  Js.get (Spec.typed_answers changes) k = Spec.last_typed changes k.
Proof.
  induction changes as [|[k' v'] changes IH] using rev_ind; [done|].
  rewrite typed_answers_snoc, last_typed_snoc.
  unfold PublicForm.handleAnswerChange. by rewrite get_set, IH.
Qed.

(** However the respondent fills in the form, the answer record holds for
    each question the value typed last for it and nothing for a question
    that was never touched, and no question occurs twice in it. *)
Theorem typed_answers_lookup (changes : list (list N * list N)) :
  NoDup (Js.keys (Spec.typed_answers changes))
  ∧ ∀ k, Js.get (Spec.typed_answers changes) k = Spec.last_typed changes k.
Proof.
  induction changes as [|[k' v'] changes [IHnd IH]] using rev_ind.
  - split; [apply NoDup_nil_2|done].
  - rewrite typed_answers_snoc. split.
    + by apply keys_set_NoDup.
    + intros k. rewrite last_typed_snoc.
      unfold PublicForm.handleAnswerChange. by rewrite get_set, IH.
Qed.

End Records.

(** ** What a submission stores *)

Section Submission.

Import Types PublicForm.

Implicit Types questions : list Question.
Implicit Types answers : list (list N * list N).

Lemma answersToInsert_ids responseId questions answers :
  question_id <$> answersToInsert responseId questions answers
  = fst <$> filter (λ entry, keep questions entry = true) answers.
Proof.
  unfold answersToInsert, Js.entries. rewrite <- list_fmap_compose.
  by apply list_fmap_ext.
Qed.

Lemma answersToInsert_NoDup responseId questions answers :
  NoDup (Js.keys answers) →
  NoDup (question_id <$> answersToInsert responseId questions answers).
Proof.
  intros Hnd. rewrite answersToInsert_ids.
  eapply sublist_NoDup; [exact Hnd|].
  unfold Js.keys. apply fmap_sublist, sublist_filter.
Qed.

(** Whatever was typed into the form, a submission holds at most one row
    per question, and the row of a question holds the trimmed form of the
    non-empty value typed last for it. *)
Theorem answersToInsert_typed responseId questions
    (changes : list (list N * list N)) :
  NoDup (question_id
           <$> answersToInsert responseId questions (Spec.typed_answers changes))
  ∧ ∀ row,
      row ∈ answersToInsert responseId questions (Spec.typed_answers changes) →
      ∃ v, Spec.last_typed changes (question_id row) = Some v
           ∧ v ≠ [] ∧ answer_text row = Js.trim v
           ∧ response_id row = responseId.
Proof.
  pose proof (typed_answers_NoDup changes) as Hnd. split.
  - by apply answersToInsert_NoDup.
  - intros row (k & v & Hin & Hkeep & ->)%elem_of_answersToInsert.
    exists v. cbn. split_and!; [| |done..].
    + rewrite <- typed_answers_lookup_aux. by apply get_of_entry.
    + apply keep_included in Hkeep. by destruct Hkeep.
Qed.

End Submission.

Section SubmitForm.

Import Types PublicForm.

Implicit Types questions : list Question.
Implicit Types answers : list (list N * list N).

Lemma validateForm_rejects questions answers :
  fst (validateForm questions answers) = false →
  ∃ q, q ∈ questions ∧ Spec.violates answers q.
Proof.
  intros Hfalse.
  destruct (missingAnswers questions answers) as [|q l] eqn:Hmiss.
  - apply validateForm_ok_iff in Hmiss. congruence.
  - exists q. rewrite missingAnswers_violates in Hmiss.
    assert (q ∈ filter (Spec.violates answers) questions) as Hq
      by (rewrite Hmiss; apply list_elem_of_here).
    apply list_elem_of_filter in Hq. tauto.
Qed.

(** [submitForm] rejects the answers exactly when some required question
    lacks an acceptable answer, and then stores nothing. When it accepts
    them, every required question has a value in the record, and the rows
    it stores hold the trimmed value of each required question whose value
    is not blank; that covers every required text question. *)
Theorem submitForm_outcome responseId questions answers :
  match submitForm questions answers with
  | Rejected message =>
      (∃ q, q ∈ questions ∧ Spec.violates answers q)
      ∧ message = snd (validateForm questions answers)
  | Submitted rows =>
      (∀ q, q ∈ questions → ¬ Spec.violates answers q)
      ∧ ∀ q, q ∈ questions → is_required q = true →
          ∃ v, Js.get answers (id q) = Some v ∧ v ≠ []
               ∧ (question_type q = text → Js.trim v ≠ [])
               ∧ (Js.trim v ≠ [] →
                  mkAnswerRow responseId (id q) (Js.trim v)
                    ∈ rows responseId)
  end.
Proof.
  unfold submitForm.
  destruct (validateForm questions answers) as [ok message] eqn:Hv.
  destruct ok; cbn [negb].
  - assert (fst (validateForm questions answers) = true) as Hok
      by by rewrite Hv.
    pose proof (proj1 (validateForm_ok_answered questions answers) Hok) as Hans.
    split.
    + intros q Hq [Hreq Hna]. by apply Hna, Hans.
    + intros q Hq Hreq. specialize (Hans q Hq Hreq).
      unfold Spec.answered in Hans.
      destruct (Js.get answers (id q)) as [v|] eqn:Hget; [|done].
      destruct Hans as [Hv' Htext]. exists v. split_and!; [done..|].
      intros Htrim. apply elem_of_answersToInsert. exists (id q), v.
      split_and!; [by apply get_elem_of|by apply keep_nonblank|done].
  - split; [|done]. apply validateForm_rejects. by rewrite Hv.
Qed.

End SubmitForm.

(** ** Editing the question list on the creation page *)

Section QuestionList.

Import Types.

Implicit Types formData : FormData.
Implicit Types qs : list Question.
Implicit Types p q : Question.

Lemma updateFormData_questions_id formData :
  CreateForm.updateFormData_questions formData (questions formData) = formData.
Proof. by destruct formData. Qed.

Lemma formData_eq formData qs :
  questions formData = qs →
  CreateForm.updateFormData_questions formData qs = formData.
Proof. intros <-. apply updateFormData_questions_id. Qed.

Lemma with_order_index_id q : CreateForm.with_order_index q (order_index q) = q.
Proof. by destruct q. Qed.

Lemma dense_lookup {A} (oi : A → Z) (l : list A) (i : nat) (x : A) :
  Spec.dense oi l → l !! i = Some x → oi x = Z.of_nat i.
Proof.
  unfold Spec.dense. intros Hd Hi.
  assert ((oi <$> l) !! i = Some (oi x)) as Hx by by rewrite list_lookup_fmap, Hi.
  rewrite Hd, list_lookup_fmap in Hx.
  destruct (seq 0 (length l) !! i) as [n|] eqn:Hn; [|done].
  apply lookup_seq in Hn as [-> _]. by injection Hx as ->.
Qed.

Lemma renumber_lookup qs i :
  CreateForm.renumber qs !! i
  = (λ q, CreateForm.with_order_index q (Z.of_nat i)) <$> qs !! i.
Proof. unfold CreateForm.renumber. apply list_lookup_imap. Qed.

Lemma renumber_dense qs :
  Spec.dense order_index qs → CreateForm.renumber qs = qs.
Proof.
  intros Hd. apply list_eq. intros i. rewrite renumber_lookup.
  destruct (qs !! i) as [q|] eqn:Hi; [|done]. cbn.
  by rewrite <- (dense_lookup order_index qs i q Hd Hi), with_order_index_id.
Qed.

Lemma renumber_ids qs : id <$> CreateForm.renumber qs = id <$> qs.
Proof.
  apply list_eq. intros i.
  rewrite !list_lookup_fmap, renumber_lookup. by destruct (qs !! i).
Qed.

Lemma renumber_same_core qs qs' :
  Forall2 Spec.same_core qs qs' →
  CreateForm.renumber qs = CreateForm.renumber qs'.
Proof.
  intros H. apply list_eq. intros i. rewrite !renumber_lookup.
  destruct (qs !! i) as [q|] eqn:Hq.
  - destruct (Forall2_lookup_l _ _ _ _ _ H Hq) as (q' & -> & Hcore). cbn.
    f_equal. unfold Spec.same_core in Hcore.
    by destruct q, q'; injection Hcore as -> -> -> -> ->.
  - apply lookup_ge_None in Hq. rewrite (Forall2_length _ _ _ H) in Hq.
    apply lookup_ge_None in Hq. by rewrite Hq.
Qed.

Lemma renumber_same_core_self qs : Forall2 Spec.same_core (CreateForm.renumber qs) qs.
Proof.
  apply Forall2_same_length_lookup. split.
  - unfold CreateForm.renumber. by rewrite length_imap.
  - intros i q' q Hq' Hq. rewrite renumber_lookup, Hq in Hq'.
    by injection Hq' as <-.
Qed.

(** [deleteQuestion] removes every question with the id and keeps the
    others in their order. *)
Lemma deleteQuestion_ids questionId formData :
  id <$> questions (CreateForm.deleteQuestion questionId formData)
  = filter (λ k, k ≠ questionId) (id <$> questions formData).
Proof.
  cbn. fold (CreateForm.renumber
               (filter (λ q, id q ≠ questionId) (questions formData))).
  rewrite renumber_ids. induction (questions formData) as [|q qs IH]; [done|].
  rewrite fmap_cons, !filter_cons. cbn.
  destruct (decide (id q ≠ questionId)); [|done]. by rewrite fmap_cons, IH.
Qed.

Lemma filter_all {A} (P : A → Prop) `{!∀ x, Decision (P x)} (l : list A) :
  (∀ x, x ∈ l → P x) → filter P l = l.
Proof.
  induction l as [|x l IH]; intros Hall; [done|].
  rewrite filter_cons, decide_True by (apply Hall, list_elem_of_here).
  f_equal. apply IH. intros y Hy. by apply Hall, list_elem_of_further.
Qed.

(** Deleting a question that is not there changes nothing. *)
Theorem deleteQuestion_unknown questionId formData :
  Spec.dense order_index (questions formData) →
  (∀ q, q ∈ questions formData → id q ≠ questionId) →
  CreateForm.deleteQuestion questionId formData = formData.
Proof.
  intros Hd Hunknown. unfold CreateForm.deleteQuestion. cbn zeta.
  rewrite (filter_all _ _ Hunknown).
  apply formData_eq. symmetry. by apply renumber_dense.
Qed.

Lemma deleteQuestion_unknown_witness :
  let formData :=
    CreateForm.addQuestion 2 (CreateForm.addQuestion 1 CreateForm.initialFormData) in
  CreateForm.deleteQuestion (Js.str "temp-7") formData = formData.
Proof.
  intros formData.
  apply (deleteQuestion_unknown (Js.str "temp-7") formData).
  - reflexivity.
  - intros q Hq. apply list_elem_of_In in Hq. cbn in Hq.
    destruct Hq as [<-|[<-|[]]]; discriminate.
Defined.

(** After [deleteQuestion] no question has the deleted id, the ids of the
    other questions are kept in their order, and the order indices are
    0 .. N-1 again. *)
Theorem deleteQuestion_removes questionId formData :
  let formData' := CreateForm.deleteQuestion questionId formData in
  (∀ q, q ∈ questions formData' → id q ≠ questionId)
  ∧ id <$> questions formData'
    = filter (λ k, k ≠ questionId) (id <$> questions formData)
  ∧ Spec.dense order_index (questions formData').
Proof.
  intros formData'. pose proof (deleteQuestion_ids questionId formData) as Hids.
  fold formData' in Hids. split_and!; [|done|by apply dense_imap].
  intros q Hq.
  assert (id q ∈ id <$> questions formData') as Hin
    by (apply list_elem_of_fmap; by exists q).
  rewrite Hids in Hin. by apply list_elem_of_filter in Hin as [? _].
Qed.

(** *** Moving a question *)

Lemma findIndex_cases {A} (P : A → Prop) `{!∀ x, Decision (P x)} (l : list A) :
  (Js.findIndex P l = (-1)%Z ∧ ∀ x, x ∈ l → ¬ P x)
  ∨ ∃ i x, Js.findIndex P l = Z.of_nat i ∧ l !! i = Some x ∧ P x.
Proof.
  unfold Js.findIndex. destruct (list_find P l) as [[i x]|] eqn:Hf.
  - right. exists i, x. apply list_find_Some in Hf as (? & ? & _). done.
  - left. split; [done|]. apply list_find_None in Hf.
    by rewrite Forall_forall in Hf.
Qed.

Lemma lookup_pair_split {A} (l : list A) (j : nat) (x y : A) :
  l !! j = Some x → l !! S j = Some y →
  ∃ l1 l2, l = l1 ++ x :: y :: l2 ∧ length l1 = j.
Proof.
  intros Hx Hy. exists (take j l), (drop (S (S j)) l). split.
  - rewrite <- (take_drop_middle l j x Hx) at 1. f_equal. f_equal.
    rewrite <- (take_drop_middle (drop (S j) l) 0 y).
    + by rewrite take_0, drop_drop, Nat.add_1_r.
    + by rewrite lookup_drop, Nat.add_0_r.
  - apply length_take_le. apply lookup_lt_Some in Hx. lia.
Qed.

Lemma updateFormData_questions_twice formData qs qs' :
  CreateForm.updateFormData_questions
    (CreateForm.updateFormData_questions formData qs) qs'
  = CreateForm.updateFormData_questions formData qs'.
Proof. done. Qed.

(** A move that passes both early returns exchanges the two questions
    and renumbers the list. *)
Lemma moveQuestion_at formData dir (i j : nat) qc qn :
  questions formData !! i = Some qc →
  questions formData !! j = Some qn →
  NoDup (id <$> questions formData) →
  (dir = CreateForm.up ∧ i = S j) ∨ (dir = CreateForm.down ∧ j = S i) →
  CreateForm.moveQuestion (id qc) dir formData
  = CreateForm.updateFormData_questions formData
      (CreateForm.renumber (<[j := qc]> (<[i := qn]> (questions formData)))).
Proof.
  intros Hi Hj Hnd Hdir. unfold CreateForm.moveQuestion. cbn zeta.
  rewrite (findIndex_lookup _ i qc Hnd Hi).
  pose proof (lookup_lt_Some _ _ _ Hj) as Hlen.
  assert (match dir with
          | CreateForm.up => (Z.of_nat i - 1)%Z
          | CreateForm.down => (Z.of_nat i + 1)%Z
          end = Z.of_nat j) as ->.
  { destruct Hdir as [[-> ->]|[-> ->]]; lia. }
  destruct (Z.eqb_spec (Z.of_nat i) (-1)); [lia|].
  destruct (Z.ltb_spec (Z.of_nat j) 0); [lia|].
  destruct (Z.leb_spec (Z.of_nat (length (questions formData))) (Z.of_nat j));
    [lia|].
  cbn [orb]. by rewrite !Nat2Z.id, Hi, Hj.
Qed.

Lemma moveQuestion_swap formData (l1 l2 : list Question) p q :
  questions formData = l1 ++ p :: q :: l2 →
  NoDup (id <$> questions formData) →
  CreateForm.moveQuestion (id q) CreateForm.up formData
  = CreateForm.updateFormData_questions formData
      (CreateForm.renumber (l1 ++ q :: p :: l2))
  ∧ CreateForm.moveQuestion (id p) CreateForm.down formData
    = CreateForm.updateFormData_questions formData
        (CreateForm.renumber (l1 ++ q :: p :: l2)).
Proof.
  intros Hqs Hnd.
  assert (questions formData !! length l1 = Some p) as Hp
    by (rewrite Hqs; apply list_lookup_middle; done).
  assert (questions formData !! S (length l1) = Some q) as Hq.
  { rewrite Hqs. rewrite (lookup_app_r l1) by lia.
    by replace (S (length l1) - length l1)%nat with 1%nat by lia. }
  assert (∀ a b, <[length l1 := a]> (<[S (length l1) := b]> (l1 ++ p :: q :: l2))
                 = l1 ++ a :: b :: l2) as Hswap1.
  { intros a b.
    replace (S (length l1)) with (length l1 + 1)%nat by lia.
    rewrite insert_app_r.
    replace (length l1) with (length l1 + 0)%nat at 1 by lia.
    by rewrite insert_app_r. }
  assert (∀ a b, <[S (length l1) := b]> (<[length l1 := a]> (l1 ++ p :: q :: l2))
                 = l1 ++ a :: b :: l2) as Hswap2.
  { intros a b.
    replace (length l1) with (length l1 + 0)%nat at 2 by lia.
    rewrite insert_app_r.
    replace (S (length l1)) with (length l1 + 1)%nat by lia.
    by rewrite insert_app_r. }
  split.
  - rewrite (moveQuestion_at formData CreateForm.up (S (length l1)) (length l1) q p)
      by (done || by left).
    by rewrite Hqs, Hswap1.
  - rewrite (moveQuestion_at formData CreateForm.down (length l1) (S (length l1)) p q)
      by (done || by right).
    by rewrite Hqs, Hswap2.
Qed.

(** Moving the question below another one up, and moving the upper one
    down, both exchange the two and renumber: the ids come out in the
    exchanged order and the order indices are 0 .. N-1. *)
Theorem moveQuestion_exchange formData (l1 l2 : list Question) p q :
  questions formData = l1 ++ p :: q :: l2 →
  NoDup (id <$> questions formData) →
  let up' := CreateForm.moveQuestion (id q) CreateForm.up formData in
  let down' := CreateForm.moveQuestion (id p) CreateForm.down formData in
  up' = down'
  ∧ Forall2 Spec.same_core (questions up') (l1 ++ q :: p :: l2)
  ∧ Spec.dense order_index (questions up')
  ∧ title up' = title formData
  ∧ description up' = description formData
  ∧ is_active up' = is_active formData.
Proof.
  intros Hqs Hnd up' down'.
  destruct (moveQuestion_swap formData l1 l2 p q Hqs Hnd) as [Hup Hdown].
  subst up' down'. rewrite Hup, Hdown. split_and!; try done.
  - apply renumber_same_core_self.
  - by apply dense_imap.
Qed.

Lemma moveQuestion_exchange_witness :
  let formData :=
    CreateForm.addQuestion 2 (CreateForm.addQuestion 1 CreateForm.initialFormData) in
  let p := mkQuestion (Js.str "temp-1") (Js.str "") text [] true 0 in
  let q := mkQuestion (Js.str "temp-2") (Js.str "") text [] true 1 in
  let up' := CreateForm.moveQuestion (id q) CreateForm.up formData in
  let down' := CreateForm.moveQuestion (id p) CreateForm.down formData in
  up' = down'
  ∧ Forall2 Spec.same_core (questions up') ([] ++ q :: p :: [])
  ∧ Spec.dense order_index (questions up')
  ∧ title up' = title formData
  ∧ description up' = description formData
  ∧ is_active up' = is_active formData.
Proof.
  intros formData p q.
  apply (moveQuestion_exchange formData [] [] p q).
  - reflexivity.
  - apply NoDup_cons. split; [|apply NoDup_singleton].
    intros Hin. apply list_elem_of_In in Hin. cbn in Hin.
    destruct Hin as [Heq|[]]. discriminate.
Defined.

(** Moving a question up and then down again, or down and then up
    again, gives back the form, when the first move is one the page
    offers. *)
Theorem moveQuestion_round_trip questionId formData :
  Spec.dense order_index (questions formData) →
  NoDup (id <$> questions formData) →
  let index := Js.findIndex (λ q, id q = questionId) (questions formData) in
  (CreateForm.canMoveUp index = true →
   CreateForm.moveQuestion questionId CreateForm.down
     (CreateForm.moveQuestion questionId CreateForm.up formData) = formData)
  ∧ (CreateForm.canMoveDown formData index = true →
     CreateForm.moveQuestion questionId CreateForm.up
       (CreateForm.moveQuestion questionId CreateForm.down formData) = formData).
Proof.
  intros Hd Hnd index. subst index.
  assert (∀ (l1 l2 : list Question) a b,
            questions formData = l1 ++ a :: b :: l2 →
            ∃ l1' l2' a' b',
              CreateForm.renumber (l1 ++ b :: a :: l2) = l1' ++ b' :: a' :: l2'
              ∧ Forall2 Spec.same_core (l1' ++ a' :: b' :: l2') (questions formData)
              ∧ id a' = id a ∧ id b' = id b
              ∧ NoDup (id <$> CreateForm.renumber (l1 ++ b :: a :: l2))) as Hshape.
  { intros l1 l2 a b Hqs.
    pose proof (renumber_same_core_self (l1 ++ b :: a :: l2)) as Hc.
    apply Forall2_app_inv_r in Hc as (l1' & k & Hl1 & Hk & Hre).
    apply Forall2_cons_inv_r in Hk as (b' & k' & Hb & Hk' & ->).
    apply Forall2_cons_inv_r in Hk' as (a' & l2' & Ha & Hl2 & ->).
    exists l1', l2', a', b'. split_and!; [done| | | |].
    - rewrite Hqs. apply Forall2_app; [done|]. by repeat constructor.
    - unfold Spec.same_core in Ha. by destruct a, a'; injection Ha.
    - unfold Spec.same_core in Hb. by destruct b, b'; injection Hb.
    - rewrite renumber_ids. rewrite Hqs in Hnd. revert Hnd.
      rewrite !fmap_app, !fmap_cons.
      intros Hnd.
      assert ((id <$> l1) ++ id b :: id a :: (id <$> l2)
              ≡ₚ (id <$> l1) ++ id a :: id b :: (id <$> l2)) as ->; [|done].
      apply Permutation_app_head, perm_swap. }
  split.
  - intros Hcan. unfold CreateForm.canMoveUp in Hcan. apply Z.ltb_lt in Hcan.
    destruct (findIndex_cases (λ q, id q = questionId) (questions formData))
      as [[Hidx _]|(i & q & Hidx & Hi & <-)]; [lia|].
    rewrite Hidx in Hcan. destruct i as [|j]; [lia|].
    destruct (lookup_lt_is_Some_2 (questions formData) j) as [p Hj].
    { apply lookup_lt_Some in Hi. lia. }
    destruct (lookup_pair_split _ j p q Hj Hi) as (l1 & l2 & Hqs & _).
    destruct (moveQuestion_swap formData l1 l2 p q Hqs Hnd) as [-> _].
    destruct (Hshape l1 l2 p q Hqs) as (l1' & l2' & p' & q' & Hre & Hc & _ & Hq & Hnd').
    rewrite <- Hq.
    set (formData' := CreateForm.updateFormData_questions formData _).
    destruct (moveQuestion_swap formData' l1' l2' q' p' Hre Hnd') as [_ ->].
    subst formData'. rewrite updateFormData_questions_twice.
    apply formData_eq. rewrite (renumber_same_core _ _ Hc).
    symmetry. by apply renumber_dense.
  - intros Hcan. unfold CreateForm.canMoveDown in Hcan. apply Z.ltb_lt in Hcan.
    destruct (findIndex_cases (λ q, id q = questionId) (questions formData))
      as [[Hidx _]|(i & p & Hidx & Hi & <-)].
    { unfold CreateForm.moveQuestion. cbn zeta. rewrite Hidx. cbn.
      unfold CreateForm.moveQuestion. cbn zeta. by rewrite Hidx. }
    rewrite Hidx in Hcan.
    destruct (lookup_lt_is_Some_2 (questions formData) (S i)) as [q Hj]; [lia|].
    destruct (lookup_pair_split _ i p q Hi Hj) as (l1 & l2 & Hqs & _).
    destruct (moveQuestion_swap formData l1 l2 p q Hqs Hnd) as [_ ->].
    destruct (Hshape l1 l2 p q Hqs) as (l1' & l2' & p' & q' & Hre & Hc & Hp & _ & Hnd').
    rewrite <- Hp.
    set (formData' := CreateForm.updateFormData_questions formData _).
    destruct (moveQuestion_swap formData' l1' l2' q' p' Hre Hnd') as [-> _].
    subst formData'. rewrite updateFormData_questions_twice.
    apply formData_eq. rewrite (renumber_same_core _ _ Hc).
    symmetry. by apply renumber_dense.
Qed.

Lemma moveQuestion_round_trip_witness :
  let formData :=
    CreateForm.addQuestion 2 (CreateForm.addQuestion 1 CreateForm.initialFormData) in
  CreateForm.moveQuestion (Js.str "temp-2") CreateForm.down
    (CreateForm.moveQuestion (Js.str "temp-2") CreateForm.up formData) = formData.
Proof.
  intros formData.
  refine (proj1 (moveQuestion_round_trip (Js.str "temp-2") formData _ _) _).
  - reflexivity.
  - apply NoDup_cons. split; [|apply NoDup_singleton].
    intros Hin. apply list_elem_of_In in Hin. cbn in Hin.
    destruct Hin as [Heq|[]]. discriminate.
  - reflexivity.
Defined.

Lemma moveQuestion_edge formData dir (i : nat) q :
  questions formData !! i = Some q →
  NoDup (id <$> questions formData) →
  (dir = CreateForm.up ∧ i = 0%nat)
  ∨ (dir = CreateForm.down ∧ S i = length (questions formData)) →
  CreateForm.moveQuestion (id q) dir formData = formData.
Proof.
  intros Hi Hnd Hdir. unfold CreateForm.moveQuestion. cbn zeta.
  rewrite (findIndex_lookup _ i q Hnd Hi).
  destruct Hdir as [[-> ->]|[-> Hlen]]; [done|].
  destruct (Z.eqb_spec (Z.of_nat i) (-1)); [done|].
  destruct (Z.leb_spec (Z.of_nat (length (questions formData))) (Z.of_nat i + 1));
    [|lia].
  by rewrite orb_true_r.
Qed.

Lemma moveQuestion_swap_changes formData (l1 l2 : list Question) p q :
  questions formData = l1 ++ p :: q :: l2 →
  NoDup (id <$> questions formData) →
  CreateForm.updateFormData_questions formData
    (CreateForm.renumber (l1 ++ q :: p :: l2)) ≠ formData.
Proof.
  intros Hqs Hnd Heq.
  pose proof (f_equal (λ fd, id <$> questions fd) Heq) as Hids.
  change (id <$> CreateForm.renumber (l1 ++ q :: p :: l2)
          = id <$> questions formData) in Hids.
  rewrite renumber_ids, Hqs, !fmap_app, !fmap_cons in Hids.
  apply app_inv_head in Hids. injection Hids as Hqp _.
  rewrite Hqs, fmap_app, !fmap_cons, Hqp in Hnd.
  apply NoDup_app in Hnd as (_ & _ & Hnd).
  apply NoDup_cons in Hnd as [Hnotin _].
  apply Hnotin, list_elem_of_here.
Qed.

(** The editor rendered at position [index] is offered the move up, or
    the move down, exactly when that move changes the form. *)
Theorem canMove_iff_moves formData (index : nat) question :
  questions formData !! index = Some question →
  NoDup (id <$> questions formData) →
  (CreateForm.canMoveUp (Z.of_nat index) = true
   ↔ CreateForm.moveQuestion (id question) CreateForm.up formData ≠ formData)
  ∧ (CreateForm.canMoveDown formData (Z.of_nat index) = true
     ↔ CreateForm.moveQuestion (id question) CreateForm.down formData ≠ formData).
Proof.
  intros Hi Hnd. unfold CreateForm.canMoveUp, CreateForm.canMoveDown.
  rewrite !Z.ltb_lt. pose proof (lookup_lt_Some _ _ _ Hi) as Hlen. split; split.
  - intros Hpos. destruct index as [|j]; [lia|].
    destruct (lookup_lt_is_Some_2 (questions formData) j) as [p Hj]; [lia|].
    destruct (lookup_pair_split _ j p question Hj Hi) as (l1 & l2 & Hqs & _).
    destruct (moveQuestion_swap formData l1 l2 p question Hqs Hnd) as [-> _].
    by apply moveQuestion_swap_changes.
  - intros Hne. destruct index as [|j]; [|lia]. exfalso. apply Hne.
    apply (moveQuestion_edge formData CreateForm.up 0 question); auto.
  - intros Hlt.
    destruct (lookup_lt_is_Some_2 (questions formData) (S index)) as [q Hj]; [lia|].
    destruct (lookup_pair_split _ index question q Hi Hj) as (l1 & l2 & Hqs & _).
    destruct (moveQuestion_swap formData l1 l2 question q Hqs Hnd) as [_ ->].
    by apply moveQuestion_swap_changes.
  - intros Hne.
    destruct (decide (S index = length (questions formData))) as [Hlast|]; [|lia].
    exfalso. apply Hne.
    apply (moveQuestion_edge formData CreateForm.down index question); auto.
Qed.

Lemma canMove_iff_moves_witness :
  let formData :=
    CreateForm.addQuestion 2 (CreateForm.addQuestion 1 CreateForm.initialFormData) in
  let question := mkQuestion (Js.str "temp-2") (Js.str "") text [] true 1 in
  (CreateForm.canMoveUp (Z.of_nat 1) = true
   ↔ CreateForm.moveQuestion (id question) CreateForm.up formData ≠ formData)
  ∧ (CreateForm.canMoveDown formData (Z.of_nat 1) = true
     ↔ CreateForm.moveQuestion (id question) CreateForm.down formData ≠ formData).
Proof.
  intros formData question.
  apply (canMove_iff_moves formData 1 question).
  - reflexivity.
  - apply NoDup_cons. split; [|apply NoDup_singleton].
    intros Hin. apply list_elem_of_In in Hin. cbn in Hin.
    destruct Hin as [Heq|[]]. discriminate.
Defined.

(** *** The sort of the question list at each render *)

Lemma insert_by_last {A} (key : A → Z) (x : A) (l : list A) :
  (∀ y, y ∈ l → (key y ≤ key x)%Z) → Js.insert_by key x l = l ++ [x].
Proof.
  induction l as [|y l IH]; intros Hle; [done|]. cbn.
  destruct (Z.ltb_spec (key x) (key y)) as [Hlt|_].
  - pose proof (Hle y (list_elem_of_here _ _)). lia.
  - f_equal. apply IH. intros z Hz. by apply Hle, list_elem_of_further.
Qed.

Lemma sort_by_snoc {A} (key : A → Z) (l : list A) (x : A) :
  Js.sort_by key (l ++ [x]) = Js.insert_by key x (Js.sort_by key l).
Proof. unfold Js.sort_by. by rewrite foldl_app. Qed.

Lemma sort_by_ascending {A} (key : A → Z) (l : list A) :
  (∀ i j a b, l !! i = Some a → l !! j = Some b → (i < j)%nat →
              (key a ≤ key b)%Z) →
  Js.sort_by key l = l.
Proof.
  induction l as [|x l IH] using rev_ind; intros Hasc; [done|].
  rewrite sort_by_snoc, IH.
  - apply insert_by_last. intros y Hy.
    apply list_elem_of_lookup in Hy as [i Hi].
    apply (Hasc i (length l) y x).
    + by rewrite lookup_app_l by by eapply lookup_lt_Some.
    + by apply list_lookup_middle.
    + by eapply lookup_lt_Some.
  - intros i j a b Ha Hb Hlt. apply (Hasc i j a b); [| |done].
    + by rewrite lookup_app_l by by eapply lookup_lt_Some.
    + by rewrite lookup_app_l by by eapply lookup_lt_Some.
Qed.

Lemma render_questions_dense formData :
  Spec.dense order_index (questions formData) →
  CreateForm.render_questions formData = formData.
Proof.
  intros Hd. apply formData_eq. symmetry. apply sort_by_ascending.
  intros i j a b Ha Hb Hlt.
  rewrite (dense_lookup _ _ _ _ Hd Ha), (dense_lookup _ _ _ _ Hd Hb). lia.
Qed.

(** The in-place sort of the render leaves the question list as it is,
    whenever the order indices are 0 .. N-1 in list order, and so after
    every sequence of additions, deletions and moves. *)
Theorem render_questions_keeps_order :
  (∀ formData, Spec.dense order_index (questions formData) →
     CreateForm.render_questions formData = formData)
  ∧ ∀ ops,
      CreateForm.render_questions (Spec.create_run ops CreateForm.initialFormData)
      = Spec.create_run ops CreateForm.initialFormData.
Proof.
  split; [apply render_questions_dense|].
  intros ops. apply render_questions_dense.
  apply createForm_run_dense. reflexivity.
Qed.

(** *** Updates from the question editor *)

Lemma updateQuestion_insert formData (i : nat) question updated :
  questions formData !! i = Some question →
  NoDup (id <$> questions formData) →
  questions (CreateForm.updateQuestion (id question) updated formData)
  = <[i := updated]> (questions formData).
Proof.
  intros Hi Hnd. cbn. apply list_eq. intros j.
  rewrite list_lookup_fmap.
  destruct (decide (j = i)) as [->|Hne].
  - rewrite list_lookup_insert_eq by by eapply lookup_lt_Some.
    rewrite Hi. cbn. by rewrite decide_True.
  - rewrite list_lookup_insert_ne by done.
    destruct (questions formData !! j) as [q|] eqn:Hj; [|done]. cbn.
    rewrite decide_False; [done|]. intros Heq. apply Hne.
    apply (NoDup_lookup (id <$> questions formData) j i (id question)); [done| |].
    + by rewrite list_lookup_fmap, Hj, <- Heq.
    + by rewrite list_lookup_fmap, Hi.
Qed.

(** An update the editor of [question] sends, one that carries neither
    an id nor an order index, replaces that question at its position and
    no other; the ids and the order indices of the list stay as they
    are. *)
Theorem onUpdate_editor formData (index : nat) question updates :
  questions formData !! index = Some question →
  NoDup (id <$> questions formData) →
  QuestionEditor.p_id updates = None →
  QuestionEditor.p_order_index updates = None →
  let updated := QuestionEditor.updateQuestion question updates in
  let formData' := CreateForm.onUpdate question updated formData in
  questions formData' = <[index := updated]> (questions formData)
  ∧ id <$> questions formData' = id <$> questions formData
  ∧ order_index <$> questions formData' = order_index <$> questions formData
  ∧ title formData' = title formData
  ∧ description formData' = description formData
  ∧ is_active formData' = is_active formData.
Proof.
  intros Hi Hnd Hid Hoi updated formData'.
  assert (questions formData' = <[index := updated]> (questions formData)) as Hqs
    by by apply updateQuestion_insert.
  split_and!; try done.
  - rewrite Hqs, list_fmap_insert. apply list_insert_id.
    rewrite list_lookup_fmap, Hi. subst updated. cbn. by rewrite Hid.
  - rewrite Hqs, list_fmap_insert. apply list_insert_id.
    rewrite list_lookup_fmap, Hi. subst updated. cbn. by rewrite Hoi.
Qed.

Lemma onUpdate_editor_witness :
  let formData :=
    CreateForm.addQuestion 2 (CreateForm.addQuestion 1 CreateForm.initialFormData) in
  let question := mkQuestion (Js.str "temp-2") (Js.str "") text [] true 1 in
  let updated := QuestionEditor.changeText (Js.str "Why?") question in
  questions (CreateForm.onUpdate question updated formData)
  = <[1%nat := updated]> (questions formData).
Proof.
  intros formData question updated.
  refine (proj1 (onUpdate_editor formData 1 question
                   (QuestionEditor.mkPartial None (Some (Js.str "Why?"))
                      None None None None) _ _ _ _)).
  - reflexivity.
  - apply NoDup_cons. split; [|apply NoDup_singleton].
    intros Hin. apply list_elem_of_In in Hin. cbn in Hin.
    destruct Hin as [Heq|[]]. discriminate.
  - reflexivity.
  - reflexivity.
Defined.

(** Two questions added within the same millisecond share their id, and
    an update from the editor of one of them then overwrites both. *)
Example onUpdate_shared_id :
  let formData :=
    CreateForm.addQuestion 7 (CreateForm.addQuestion 7 CreateForm.initialFormData) in
  let question := mkQuestion (Js.str "temp-7") (Js.str "") text [] true 1 in
  let updated := QuestionEditor.changeText (Js.str "Why?") question in
  questions formData !! 1%nat = Some question
  ∧ questions (CreateForm.onUpdate question updated formData) = [updated; updated].
Proof. split; reflexivity. Qed.

End QuestionList.

(** ** Options of a question in the editor *)

Section Options.

Context {A : Type}.

Lemma filter_index_keep (index : Z) (n : nat) (l : list A) :
  (∀ i, (i < length l)%nat → Z.of_nat (n + i) ≠ index) →
  snd <$> filter (λ p, Z.of_nat (fst p) ≠ index) (imap (λ i, pair (n + i)%nat) l)
  = l.
Proof.
  revert n. induction l as [|x l IH]; intros n Hne; [done|].
  rewrite imap_cons, filter_cons. cbn [fst].
  rewrite decide_True by (apply (Hne 0%nat); cbn; lia).
  rewrite fmap_cons. cbn [snd]. f_equal.
  rewrite <- (IH (S n)) at 2.
  - do 2 f_equal. apply imap_ext. intros i y _. cbn. f_equal. lia.
  - intros i Hi. replace (S n + i)%nat with (n + S i)%nat by lia.
    apply Hne. cbn. lia.
Qed.

Lemma filter_index_drop (index n : nat) (l : list A) :
  snd <$> filter (λ p, Z.of_nat (fst p) ≠ Z.of_nat (n + index))
            (imap (λ i, pair (n + i)%nat) l)
  = delete index l.
Proof.
  revert index n. induction l as [|x l IH]; intros index n; [done|].
  rewrite imap_cons, filter_cons. cbn [fst].
  assert (imap ((λ i, pair (n + i)%nat) ∘ S) l
          = imap (λ i, pair (S n + i)%nat) l) as ->.
  { apply imap_ext. intros i y _. cbn. f_equal. lia. }
  destruct index as [|index].
  - rewrite decide_False by lia. cbn [delete list_delete].
    apply filter_index_keep. intros i _. lia.
  - rewrite decide_True by lia. rewrite fmap_cons. cbn [snd delete list_delete].
    f_equal. replace (n + S index)%nat with (S n + index)%nat by lia.
    apply IH.
Qed.

Lemma js_filter_index_ne_delete (index : nat) (l : list A) :
  Js.filter_index_ne (Z.of_nat index) l = delete index l.
Proof. apply (filter_index_drop index 0 l). Qed.

Lemma js_filter_index_ne_outside (index : Z) (l : list A) :
  (index < 0 ∨ Z.of_nat (length l) ≤ index)%Z →
  Js.filter_index_ne index l = l.
Proof.
  intros Hout. apply (filter_index_keep index 0 l). intros i Hi. lia.
Qed.

End Options.

Section EditorOptions.

Import Types.

Lemma question_eta (q : Question) :
  mkQuestion (id q) (question_text q) (question_type q) (options q)
             (is_required q) (order_index q) = q.
Proof. by destruct q. Qed.

(** Removing the option that [addOption] has just added gives back the
    question; so does removing an option at an index outside the
    option list. At an index inside it only the options change, and they
    lose the entry at the index. *)
Theorem removeOption_addOption question :
  QuestionEditor.removeOption (Z.of_nat (length (options question)))
    (QuestionEditor.addOption question) = question
  ∧ (∀ index, (index < 0 ∨ Z.of_nat (length (options question)) ≤ index)%Z →
       QuestionEditor.removeOption index question = question)
  ∧ (∀ index : nat,
       QuestionEditor.removeOption (Z.of_nat index) question
       = mkQuestion (id question) (question_text question)
           (question_type question) (delete index (options question))
           (is_required question) (order_index question)).
Proof.
  assert (∀ index q,
            QuestionEditor.removeOption index q
            = mkQuestion (id q) (question_text q) (question_type q)
                (Js.filter_index_ne index (options q))
                (is_required q) (order_index q)) as Hremove by done.
  split_and!.
  - rewrite Hremove.
    change (QuestionEditor.addOption question)
      with (mkQuestion (id question) (question_text question)
              (question_type question) (options question ++ [Js.str ""])
              (is_required question) (order_index question)).
    cbn [id question_text question_type options is_required order_index].
    rewrite js_filter_index_ne_delete.
    rewrite (delete_middle (options question) [] (Js.str "")), app_nil_r. apply question_eta.
  - intros index Hout. rewrite Hremove, js_filter_index_ne_outside by done.
    apply question_eta.
  - intros index. by rewrite Hremove, js_filter_index_ne_delete.
Qed.

End EditorOptions.

(** ** Editing and saving on the edit page *)

Section EditPage.

Import EditForm.

Implicit Types questions : list Question.

Lemma set_order_index_id q : set_order_index q (order_index q) = q.
Proof. by destruct q. Qed.

Lemma removeQuestion_delete (index : nat) questions :
  removeQuestion (Z.of_nat index) questions
  = imap (λ i q, set_order_index q (Z.of_nat i)) (delete index questions).
Proof.
  unfold removeQuestion. cbn zeta. f_equal.
  apply (filter_index_drop index 0 questions).
Qed.

(** [removeQuestion] at an index inside the list drops that question,
    moves the later ones up by one and numbers all of them by position;
    the other fields of the questions are kept. *)
Theorem removeQuestion_lookup (index : nat) questions (j : nat) :
  length (removeQuestion (Z.of_nat index) questions)
  = (if decide (index < length questions)%nat
     then length questions - 1 else length questions)%nat
  ∧ removeQuestion (Z.of_nat index) questions !! j
    = (λ q, set_order_index q (Z.of_nat j))
        <$> questions !! (if decide (j < index)%nat then j else S j).
Proof.
  split.
  - destruct (decide (index < length questions)%nat).
    + rewrite removeQuestion_delete, length_imap.
      rewrite length_delete; [lia|]. by apply lookup_lt_is_Some_2.
    + unfold removeQuestion. cbn zeta. rewrite length_imap.
      assert (filter_index_ne (Z.of_nat index) questions = questions) as ->;
        [|done].
      apply (filter_index_keep (Z.of_nat index) 0 questions). intros i Hi. lia.
  - by rewrite removeQuestion_delete, list_lookup_imap, list_lookup_delete.
Qed.

(** An index outside the list removes nothing: on a list whose order
    indices are 0 .. N-1 the call changes nothing at all. *)
Theorem removeQuestion_outside (index : Z) questions :
  Spec.dense order_index questions →
  (index < 0 ∨ Z.of_nat (length questions) ≤ index)%Z →
  removeQuestion index questions = questions.
Proof.
  intros Hd Hout. unfold removeQuestion. cbn zeta.
  assert (filter_index_ne index questions = questions) as ->
    by (apply (filter_index_keep index 0 questions); intros i Hi; lia).
  apply list_eq. intros i. rewrite list_lookup_imap.
  destruct (questions !! i) as [q|] eqn:Hi; [|done]. cbn.
  by rewrite <- (dense_lookup order_index questions i q Hd Hi), set_order_index_id.
Qed.

Lemma removeQuestion_outside_witness :
  removeQuestion 5 (addQuestion (addQuestion initialQuestions))
  = addQuestion (addQuestion initialQuestions).
Proof.
  apply (removeQuestion_outside 5 (addQuestion (addQuestion initialQuestions))).
  - reflexivity.
  - right. cbn. lia.
Defined.

(** *** The checks before saving *)

Lemma validateQuestions_find (i : Z) questions :
  validateQuestions i questions
  = match list_find (λ q, ¬ Spec.edit_question_ok q) questions with
    | Some (k, q) => Some (Spec.edit_question_error (i + Z.of_nat k + 1) q)
    | None => None
    end.
Proof.
  revert i. induction questions as [|q questions IH]; intros i; [done|].
  cbn [validateQuestions list_find].
  assert (∀ o : option (nat * Question),
            match fmap (M:=option) (prod_map S (@Datatypes.id Question)) o
            return option (list N) with
            | Some (k, q') => Some (Spec.edit_question_error (i + Z.of_nat k + 1) q')
            | None => None
            end
            = match o with
              | Some (k, q') =>
                  Some (Spec.edit_question_error (i + 1 + Z.of_nat k + 1) q')
              | None => None
              end) as Hshift.
  { intros [[k q']|]; [|done]. cbn [fmap option_fmap option_map prod_map fst snd Datatypes.id].
    do 2 f_equal. lia. }
  destruct (decide (Js.trim (question_text q) = [])) as [Hblank|Htext].
  - rewrite decide_True by (intros [Hok _]; done).
    rewrite Hblank. cbn [Js.truthy negb]. unfold Spec.edit_question_error.
    rewrite decide_True by done. by rewrite Z.add_0_r.
  - apply truthy_true in Htext as Htruthy. rewrite Htruthy. cbn [negb].
    destruct (decide (question_type q = Types.multiple_choice)) as [Hmc|Hmc].
    + rewrite bool_decide_eq_true_2 by done. cbn [andb].
      destruct (Z.ltb_spec (Z.of_nat (length (options q))) 2) as [Hfew|Hmany].
      * rewrite decide_True by (intros [_ Hok]; specialize (Hok Hmc); lia).
        unfold Spec.edit_question_error.
        rewrite decide_False by done. by rewrite Z.add_0_r.
      * rewrite decide_False.
        2:{ intros Hnot. apply Hnot. split; [done|]. intros _. lia. }
        by rewrite IH, Hshift.
    + rewrite bool_decide_eq_false_2 by done. cbn [andb].
      rewrite decide_False.
      2:{ intros Hnot. apply Hnot. split; [done|]. intros Heq. done. }
      by rewrite IH, Hshift.
Qed.

(** On the edit page, a titled form with at least one question passes
    the checks exactly when every question has a non-blank text and every
    multiple-choice question has two entries in its option array; when it
    fails, the message names the first failing question, counted from 1,
    and the text check comes first. *)
Theorem editForm_validate_first_failure form questions :
  Js.trim (title form) ≠ [] →
  questions ≠ [] →
  (validate form questions = None ↔ Forall Spec.edit_question_ok questions)
  ∧ ∀ message, validate form questions = Some message ↔
      ∃ (k : nat) q,
        questions !! k = Some q
        ∧ ¬ Spec.edit_question_ok q
        ∧ (∀ j q', questions !! j = Some q' → (j < k)%nat → Spec.edit_question_ok q')
        ∧ message = Spec.edit_question_error (Z.of_nat k + 1) q.
Proof.
  intros Htitle Hqs. unfold validate.
  apply truthy_true in Htitle. rewrite Htitle. cbn [negb].
  destruct (Z.eqb_spec (Z.of_nat (length questions)) 0) as [Hlen|_].
  { destruct questions; [done|]. cbn [length] in Hlen. lia. }
  rewrite validateQuestions_find.
  destruct (list_find _ questions) as [[k q]|] eqn:Hfind.
  - apply list_find_Some in Hfind as (Hk & Hbad & Hfirst). split.
    + split; [done|]. intros Hall. exfalso. apply Hbad.
      rewrite Forall_lookup in Hall. by apply (Hall k).
    + intros message. split.
      * intros [= <-]. exists k, q. split_and!; [done..| |done].
        intros j q' Hj Hlt. destruct (decide (Spec.edit_question_ok q')); [done|].
        by destruct (Hfirst j q' Hj Hlt).
      * intros (k' & q' & Hk' & Hbad' & Hfirst' & ->).
        assert (k' = k) as ->.
        { destruct (Nat.lt_trichotomy k' k) as [Hlt|[Heq|Hgt]]; [|done|].
          - by destruct (Hfirst k' q' Hk' Hlt).
          - by destruct Hbad, (Hfirst' k q Hk Hgt). }
        rewrite Hk in Hk'. by injection Hk' as ->.
  - apply list_find_None in Hfind. split.
    + split; [|done]. intros _. eapply Forall_impl; [exact Hfind|].
      intros q Hq. cbn in Hq. by destruct (decide (Spec.edit_question_ok q)).
    + intros message. split; [done|].
      intros (k & q & Hk & Hbad & _). exfalso.
      rewrite Forall_lookup in Hfind. by apply (Hfind k q Hk).
Qed.

Lemma editForm_validate_first_failure_witness :
  validate (mkFormData (Js.str "f1") (Js.str "Survey") (Js.str "") true)
    [mkQuestion None (Js.str "Name?") Types.text [] false 0;
     mkQuestion None (Js.str "Colour?") Types.multiple_choice [Js.str "red"] false 1;
     mkQuestion None (Js.str " ") Types.text [] false 2]
  = Some (Js.str "Question 2 must have at least 2 options").
Proof.
  apply (editForm_validate_first_failure
           (mkFormData (Js.str "f1") (Js.str "Survey") (Js.str "") true)
           [mkQuestion None (Js.str "Name?") Types.text [] false 0;
            mkQuestion None (Js.str "Colour?") Types.multiple_choice
              [Js.str "red"] false 1;
            mkQuestion None (Js.str " ") Types.text [] false 2]).
  - vm_compute. discriminate.
  - discriminate.
  - exists 1%nat, (mkQuestion None (Js.str "Colour?") Types.multiple_choice
                     [Js.str "red"] false 1).
    split_and!.
    + reflexivity.
    + intros [_ Hok]. specialize (Hok eq_refl). cbn in Hok. lia.
    + intros j q' Hj Hlt. destruct j as [|j]; [|lia].
      injection Hj as <-. split; [vm_compute; discriminate|]. discriminate.
    + reflexivity.
Defined.

End EditPage.

(** ** What the two pages store *)

Section SavePlans.

Lemma nonblank_trim opt : CreateForm.nonblank opt ↔ Js.trim opt ≠ [].
Proof. unfold CreateForm.nonblank. apply truthy_true. Qed.

Lemma createForm_validate_None formData :
  CreateForm.validate formData = None →
  Js.trim (Types.title formData) ≠ []
  ∧ Types.questions formData ≠ []
  ∧ ∀ q, q ∈ Types.questions formData →
      Js.trim (Types.question_text q) ≠ []
      ∧ (Types.question_type q = Types.multiple_choice →
         filter CreateForm.nonblank (Types.options q) ≠ []).
Proof.
  unfold CreateForm.validate.
  destruct (Js.truthy (Js.trim (Types.title formData))) eqn:Htitle; [|done].
  cbn [negb]. apply truthy_true in Htitle.
  destruct (Z.eqb_spec (Z.of_nat (length (Types.questions formData))) 0)
    as [|Hlen]; [done|].
  destruct (0 <? Z.of_nat (length (filter _ (Types.questions formData))))%Z
    eqn:Hempty; [done|].
  destruct (0 <? Z.of_nat (length (filter _ (Types.questions formData))))%Z
    eqn:Hinvalid in |- *; [done|].
  intros _. apply length_pos_false in Hempty, Hinvalid.
  split_and!; [done| |].
  - intros Hnil. rewrite Hnil in Hlen. by apply Hlen.
  - intros q Hq. split.
    + intros Hblank.
      apply (proj1 (filter_nil_iff _ _) Hempty q Hq). by rewrite Hblank.
    + intros Hmc Hnone.
      apply (proj1 (filter_nil_iff _ _) Hinvalid q Hq). by rewrite Hnone.
Qed.

(** When the creation page gets as far as storing the form, a user is
    signed in, the stored title is not empty, there is at least one
    question row, and every row carries the id of the new form, a
    non-empty trimmed text and the order index of its question;
    a multiple-choice row has at least one option and none of its options
    is blank, and a row of another type has no options. *)
Theorem createForm_saveForm_rows user formData plan formId :
  CreateForm.saveForm user formData = CreateForm.Insert plan →
  let rows := CreateForm.plan_questions plan formId in
  user = true
  ∧ CreateForm.plan_title plan ≠ []
  ∧ rows ≠ []
  ∧ CreateForm.row_order_index <$> rows
    = Types.order_index <$> Types.questions formData
  ∧ ∀ row, row ∈ rows →
      CreateForm.row_form_id row = formId
      ∧ CreateForm.row_question_text row ≠ []
      ∧ Js.trim (CreateForm.row_question_text row) = CreateForm.row_question_text row
      ∧ (∀ opt, opt ∈ CreateForm.row_options row → Js.trim opt ≠ [])
      ∧ (CreateForm.row_question_type row = Types.multiple_choice →
         CreateForm.row_options row ≠ [])
      ∧ (CreateForm.row_question_type row ≠ Types.multiple_choice →
         CreateForm.row_options row = []).
Proof.
  unfold CreateForm.saveForm. destruct user; [|done]. cbn [negb].
  destruct (CreateForm.validate formData) as [message|] eqn:Hvalid; [done|].
  intros [= <-]. cbn.
  destruct (createForm_validate_None formData Hvalid) as (Htitle & Hqs & Hall).
  split_and!; [done|done| | |].
  - unfold CreateForm.questionsToInsert. intros Hnil.
    apply fmap_nil_inv in Hnil. done.
  - unfold CreateForm.questionsToInsert. rewrite <- list_fmap_compose.
    by apply list_fmap_ext.
  - intros row Hrow. unfold CreateForm.questionsToInsert in Hrow.
    apply list_elem_of_fmap in Hrow as (q & -> & Hq). cbn.
    destruct (Hall q Hq) as [Htext Hoptions].
    split_and!; [done|done|apply trim_idem| | |].
    + intros opt Hopt. destruct (Types.question_type q);
        [by apply elem_of_nil in Hopt| |by apply elem_of_nil in Hopt].
      apply list_elem_of_filter in Hopt as [Hopt _]. by apply nonblank_trim.
    + intros Hmc. rewrite Hmc. by apply Hoptions.
    + intros Hmc. by destruct (Types.question_type q).
Qed.

Lemma createForm_saveForm_rows_witness :
  let formData :=
    Types.mkFormData (Js.str " Survey ") (Js.str "") true
      [Types.mkQuestion (Js.str "temp-1") (Js.str "Colour? ")
         Types.multiple_choice [Js.str "red"; Js.str " "] true 0;
       Types.mkQuestion (Js.str "temp-2") (Js.str "Why?")
         Types.text [Js.str "left over"] false 1] in
  CreateForm.row_order_index
    <$> CreateForm.questionsToInsert (Js.str "f1") (Types.questions formData)
  = Types.order_index <$> Types.questions formData.
Proof.
  intros formData.
  pose proof (createForm_saveForm_rows true formData
                (CreateForm.mkSavePlan (Js.str "Survey") (Js.str "") true
                   (λ formId, CreateForm.questionsToInsert formId
                                (Types.questions formData)))
                (Js.str "f1") eq_refl) as Hplan.
  by destruct Hplan as (_ & _ & _ & Hindex & _).
Defined.

Lemma dense_imap_rows {A B} (oi : B → Z) (f : nat → A → B) (l : list A) :
  (∀ i x, oi (f i x) = Z.of_nat i) → Spec.dense oi (imap f l).
Proof.
  intros Hf. unfold Spec.dense. rewrite length_imap. apply list_eq. intros i.
  rewrite !list_lookup_fmap, list_lookup_imap.
  destruct (l !! i) as [x|] eqn:Hi.
  - rewrite lookup_seq_lt by by eapply lookup_lt_Some. cbn. by rewrite Hf.
  - rewrite lookup_seq_ge by by apply lookup_ge_None. done.
Qed.

Lemma editForm_validate_None form questions :
  EditForm.validate form questions = None →
  Js.trim (EditForm.title form) ≠ []
  ∧ questions ≠ []
  ∧ Forall Spec.edit_question_ok questions.
Proof.
  unfold EditForm.validate.
  destruct (Js.truthy (Js.trim (EditForm.title form))) eqn:Htitle; [|done].
  cbn [negb]. apply truthy_true in Htitle.
  destruct (Z.eqb_spec (Z.of_nat (length questions)) 0) as [|Hlen]; [done|].
  rewrite validateQuestions_find.
  destruct (list_find _ questions) as [[k q]|] eqn:Hfind; [done|].
  intros _. split_and!; [done| |].
  - intros ->. by apply Hlen.
  - apply list_find_None in Hfind. eapply Forall_impl; [exact Hfind|].
    intros q Hq. cbn in Hq. by destruct (decide (Spec.edit_question_ok q)).
Qed.

(** When the edit page gets as far as storing the questions, the stored
    title is not empty, there is one row for each question, in list
    order and numbered 0 .. N-1 by position whatever the order indices of
    the questions were, and every row carries the id of the form, a
    non-empty trimmed text, and options none of which is blank. *)
Theorem editForm_saveForm_rows formId form questions plan :
  EditForm.saveForm formId form questions = inr plan →
  let rows := EditForm.plan_questions plan in
  EditForm.plan_title plan ≠ []
  ∧ rows ≠ []
  ∧ length rows = length questions
  ∧ Spec.dense EditForm.row_order_index rows
  ∧ ∀ (i : nat) row, rows !! i = Some row →
      ∃ q, questions !! i = Some q
           ∧ EditForm.row_form_id row = formId
           ∧ EditForm.row_question_text row = Js.trim (EditForm.question_text q)
           ∧ EditForm.row_question_text row ≠ []
           ∧ EditForm.row_question_type row = EditForm.question_type q
           ∧ EditForm.row_is_required row = EditForm.is_required q
           ∧ EditForm.row_options row
             = filter CreateForm.nonblank (EditForm.options q)
           ∧ ∀ opt, opt ∈ EditForm.row_options row → Js.trim opt ≠ [].
Proof.
  unfold EditForm.saveForm.
  destruct (EditForm.validate form questions) as [message|] eqn:Hvalid; [done|].
  intros [= <-]. cbn.
  destruct (editForm_validate_None form questions Hvalid) as (Htitle & Hqs & Hall).
  unfold EditForm.questionsToInsert. split_and!; [done| | | |].
  - intros Hnil. apply (f_equal length) in Hnil.
    rewrite length_imap in Hnil. by destruct questions.
  - apply length_imap.
  - by apply dense_imap_rows.
  - intros i row Hrow. rewrite list_lookup_imap in Hrow.
    destruct (questions !! i) as [q|] eqn:Hq; [|done].
    injection Hrow as <-. exists q. cbn.
    rewrite Forall_lookup in Hall. destruct (Hall i q Hq) as [Htext _].
    split_and!; try done.
    intros opt Hopt. by apply list_elem_of_filter in Hopt as [Hopt%truthy_true _].
Qed.

Lemma editForm_saveForm_rows_witness :
  let questions :=
    [EditForm.mkQuestion (Some (Js.str "q9")) (Js.str " Why? ") Types.text
       [Js.str "left over"; Js.str " "] false 4] in
  Spec.dense EditForm.row_order_index
    (EditForm.questionsToInsert (Js.str "f1") questions).
Proof.
  intros questions.
  pose proof (editForm_saveForm_rows (Js.str "f1")
                (EditForm.mkFormData (Js.str "f1") (Js.str "Survey") (Js.str "") true)
                questions
                (EditForm.mkSavePlan (Js.str "Survey") (Js.str "") true
                   (EditForm.questionsToInsert (Js.str "f1") questions))
                eq_refl) as Hplan.
  by destruct Hplan as (_ & _ & _ & Hdense & _).
Defined.

End SavePlans.

(** ** Reading an exported text back *)

Section CsvReader.

Lemma plain_cons c s :
  Spec.plain (c :: s) ↔ (c ≠ 44 ∧ c ≠ 10 ∧ c ≠ 34)%N ∧ Spec.plain s.
Proof.
  unfold Spec.plain, Spec.plain_unit. cbn [forallb].
  rewrite andb_true_iff, negb_true_iff, !orb_false_iff, !N.eqb_neq. tauto.
Qed.

Lemma no_quote_cons c s :
  Spec.no_quote (c :: s) ↔ c ≠ 34%N ∧ Spec.no_quote s.
Proof.
  unfold Spec.no_quote. cbn [forallb].
  by rewrite andb_true_iff, negb_true_iff, N.eqb_neq.
Qed.

Lemma plain_no_quote s : Spec.plain s → Spec.no_quote s.
Proof.
  induction s as [|c s IH]; [done|].
  rewrite plain_cons, no_quote_cons. tauto.
Qed.

Lemma doubled_no_quote s : Spec.no_quote s → Spec.doubled s s.
Proof.
  induction s as [|c s IH]; [constructor|].
  intros [Hc Hs]%no_quote_cons. constructor; auto.
Qed.

(** A text without double quotes, put between two double quotes, is a
    quoted field for that text. *)
Lemma csv_quoted_no_quote s :
  Spec.no_quote s → Spec.csv_quoted s ([34%N] ++ s ++ [34%N]).
Proof. intros Hs. exists s. split; [done|]. by apply doubled_no_quote. Qed.

Lemma csv_run_plain f :
  Spec.plain f → ∀ field record rest,
    Spec.csv_run Spec.Unquoted field record (f ++ rest)
    = Spec.csv_run Spec.Unquoted (field ++ f) record rest.
Proof.
  induction f as [|c f IH]; intros Hp field record rest.
  - by rewrite app_nil_r.
  - apply plain_cons in Hp as [(H44 & H10 & H34) Hp].
    cbn [app Spec.csv_run].
    apply N.eqb_neq in H44, H10, H34. rewrite H44, H10, H34.
    rewrite IH by done. by rewrite <- app_assoc.
Qed.

Lemma csv_run_doubled value body :
  Spec.doubled value body → ∀ field record rest,
    Spec.csv_run Spec.Quoted field record (body ++ rest)
    = Spec.csv_run Spec.Quoted (field ++ value) record rest.
Proof.
  induction 1 as [|value body _ IH|c value body Hc _ IH];
    intros field record rest.
  - by rewrite app_nil_r.
  - cbn [app Spec.csv_run]. rewrite !N.eqb_refl.
    rewrite IH. by rewrite <- app_assoc.
  - cbn [app Spec.csv_run]. apply N.eqb_neq in Hc. rewrite Hc.
    rewrite IH. by rewrite <- app_assoc.
Qed.

Lemma csv_run_quoted value cell :
  Spec.csv_quoted value cell → ∀ record rest,
    Spec.csv_run Spec.Unquoted [] record (cell ++ rest)
    = Spec.csv_run Spec.QuoteSeen value record rest.
Proof.
  intros (body & -> & Hd) record rest.
  rewrite <- !app_assoc. cbn [app Spec.csv_run].
  change (34 =? 44)%N with false. change (34 =? 10)%N with false.
  rewrite N.eqb_refl. rewrite (csv_run_doubled value body Hd).
  cbn [app Spec.csv_run]. by rewrite N.eqb_refl.
Qed.

Lemma csv_run_cell value cell :
  Spec.csv_cell value cell →
  ∃ mode, mode ≠ Spec.Quoted ∧ ∀ record rest,
    Spec.csv_run Spec.Unquoted [] record (cell ++ rest)
    = Spec.csv_run mode value record rest.
Proof.
  intros [[Hp ->]|Hq].
  - exists Spec.Unquoted. split; [done|]. intros record rest.
    by rewrite csv_run_plain.
  - exists Spec.QuoteSeen. split; [done|]. by apply csv_run_quoted.
Qed.

Lemma csv_run_comma mode value record rest :
  mode ≠ Spec.Quoted →
  Spec.csv_run mode value record (44%N :: rest)
  = Spec.csv_run Spec.Unquoted [] (record ++ [value]) rest.
Proof. by destruct mode. Qed.

Lemma csv_run_line_feed mode value record rest :
  mode ≠ Spec.Quoted →
  Spec.csv_run mode value record (10%N :: rest)
  = cons (record ++ [value]) <$> Spec.csv_run Spec.Unquoted [] [] rest.
Proof. by destruct mode. Qed.

Lemma csv_run_end mode value record :
  mode ≠ Spec.Quoted →
  Spec.csv_run mode value record [] = Some [record ++ [value]].
Proof. by destruct mode. Qed.

Lemma join_cons_cons sep (a b : list N) l :
  Js.join sep (a :: b :: l) = a ++ sep ++ Js.join sep (b :: l).
Proof. done. Qed.

(** The cells of one line, joined by commas, are read as their values. *)
Lemma csv_run_line values cells :
  Forall2 Spec.csv_cell values cells → cells ≠ [] →
  ∃ mode value values',
    mode ≠ Spec.Quoted ∧ values = values' ++ [value]
    ∧ ∀ record rest,
        Spec.csv_run Spec.Unquoted [] record (Js.join (Js.str ",") cells ++ rest)
        = Spec.csv_run mode value (record ++ values') rest.
Proof.
  induction 1 as [|value cell values cells Hcell Hcells IH]; [done|].
  intros _. destruct (csv_run_cell value cell Hcell) as (mode & Hmode & Hrun).
  destruct cells as [|cell' cells].
  - apply Forall2_nil_inv_r in Hcells as ->.
    exists mode, value, []. split_and!; [done..|].
    intros record rest. cbn [Js.join]. by rewrite Hrun, app_nil_r.
  - destruct IH as (mode' & value' & values' & Hmode' & -> & Hrun'); [done|].
    exists mode', value', (value :: values'). split_and!; [done..|].
    intros record rest. rewrite join_cons_cons, <- !app_assoc, Hrun.
    change (Js.str ",") with [44%N]. cbn [app].
    rewrite csv_run_comma by done. rewrite Hrun'. by rewrite <- app_assoc.
Qed.

(** Lines of cells, each joined by commas and the lines joined by line
    feeds, are read back as the records of their values. *)
Lemma csv_read_lines records lines :
  Forall2 (Forall2 Spec.csv_cell) records lines →
  Forall (λ cells, cells ≠ []) lines →
  lines ≠ [] →
  Spec.csv_read (Js.join [10%N] (Js.join (Js.str ",") <$> lines)) = Some records.
Proof.
  unfold Spec.csv_read.
  induction 1 as [|values cells records lines Hline Hlines IH]; [done|].
  intros [Hne Hall]%Forall_cons _.
  destruct (csv_run_line values cells Hline Hne)
    as (mode & value & values' & Hmode & -> & Hrun).
  destruct lines as [|cells' lines].
  - apply Forall2_nil_inv_r in Hlines as ->. cbn [fmap list_fmap Js.join].
    rewrite <- (app_nil_r (Js.join _ cells)), Hrun.
    by rewrite csv_run_end.
  - rewrite fmap_cons, fmap_cons, join_cons_cons, <- fmap_cons, Hrun.
    cbn [app]. rewrite csv_run_line_feed by done.
    by rewrite IH.
Qed.

End CsvReader.

(** ** The responses of all forms *)

Section AllResponses.

Import Responses.

Lemma transform_typed response :
  answers (transform response)
  = Spec.typed_answers
      (filter (λ change, change.1 ≠ Js.str "__proto__")
         ((λ answer, (question_text (raw_questions answer), answer_text answer))
            <$> raw_answers response)).
Proof.
  unfold transform, Spec.typed_answers. cbn [answers].
  generalize (@nil (list N * list N)).
  induction (raw_answers response) as [|answer l IH]; intros acc; [done|].
  rewrite fmap_cons, filter_cons. cbn [foldl fst].
  destruct (decide (question_text (raw_questions answer) = Js.str "__proto__"))
    as [Heq|Hne].
  - rewrite decide_False by (intros Hne; by apply Hne).
    assert (Js.assign acc (question_text (raw_questions answer))
              (answer_text answer) = acc) as ->
      by (unfold Js.assign; by rewrite decide_True).
    apply IH.
  - rewrite decide_True by done. cbn [foldl].
    assert (Js.assign acc (question_text (raw_questions answer))
              (answer_text answer)
            = PublicForm.handleAnswerChange
                (question_text (raw_questions answer)) (answer_text answer) acc)
      as -> by (unfold Js.assign; by rewrite decide_False).
    apply IH.
Qed.

Lemma last_typed_Some (changes : list (list N * list N)) k :
  is_Some (Spec.last_typed changes k) ↔ k ∈ fst <$> changes.
Proof.
  unfold Spec.last_typed. rewrite fmap_is_Some, last_is_Some. split.
  - intros Hne. destruct (filter _ changes) as [|c l] eqn:Hf; [done|].
    assert (c ∈ filter (λ change, change.1 = k) changes) as Hc
      by (rewrite Hf; apply list_elem_of_here).
    apply list_elem_of_filter in Hc as [<- Hc].
    apply list_elem_of_fmap. by exists c.
  - intros (c & -> & Hc)%list_elem_of_fmap Hnil.
    by apply (filter_nil_not_elem_of (λ change, change.1 = c.1) changes c).
Qed.

Lemma keys_is_Some (o : list (list N * list N)) k :
  k ∈ Js.keys o ↔ is_Some (Js.get o k).
Proof.
  rewrite <- not_eq_None_Some, get_None_keys.
  destruct (decide (k ∈ Js.keys o)); tauto.
Qed.

(** The answers of a response become an object with one property for
    each question text that occurs, the text [__proto__] apart, for which
    the assignment stores nothing; the property holds the answer that comes
    last among the answers to questions with that text. *)
Theorem transform_answers_by_text response :
  let changes :=
    filter (λ change, change.1 ≠ Js.str "__proto__")
      ((λ answer, (question_text (raw_questions answer), answer_text answer))
         <$> raw_answers response) in
  NoDup (Js.keys (answers (transform response)))
  ∧ (∀ k, Js.get (answers (transform response)) k = Spec.last_typed changes k)
  ∧ (∀ k, k ∈ Js.keys (answers (transform response)) ↔
          k ≠ Js.str "__proto__"
          ∧ ∃ answer, answer ∈ raw_answers response
                      ∧ question_text (raw_questions answer) = k)
  ∧ Js.read (answers (transform response)) (Js.str "__proto__")
    = Js.InheritedPrototype.
Proof.
  intros changes. rewrite transform_typed. fold changes.
  assert (∀ k, k ∈ Js.keys (Spec.typed_answers changes) ↔
               k ≠ Js.str "__proto__"
               ∧ ∃ answer, answer ∈ raw_answers response
                           ∧ question_text (raw_questions answer) = k) as Hkeys.
  { intros k. rewrite keys_is_Some, typed_answers_lookup_aux, last_typed_Some.
    subst changes. rewrite list_elem_of_fmap. split.
    - intros ([k' v] & -> & Hin). apply list_elem_of_filter in Hin as [Hne Hin].
      split; [done|]. apply list_elem_of_fmap in Hin as (answer & [= -> ->] & Hin).
      by exists answer.
    - intros (Hne & answer & Hin & <-).
      exists (question_text (raw_questions answer), answer_text answer).
      split; [done|]. apply list_elem_of_filter. split; [done|].
      apply list_elem_of_fmap. by exists answer. }
  split_and!.
  - apply typed_answers_NoDup.
  - apply typed_answers_lookup_aux.
  - done.
  - unfold Js.read.
    assert (Js.get (Spec.typed_answers changes) (Js.str "__proto__") = None) as ->.
    { apply get_None_keys. rewrite Hkeys. by intros [Hne _]. }
    done.
Qed.

(** *** The header of the export *)

Lemma Set_add_elem_of s x y : y ∈ Set_add s x ↔ y ∈ s ∨ y = x.
Proof.
  unfold Set_add. destruct (decide (x ∈ s)).
  - split; [by left|]. by intros [?| ->].
  - rewrite elem_of_app, list_elem_of_singleton. done.
Qed.

Lemma Set_add_NoDup s x : NoDup s → NoDup (Set_add s x).
Proof.
  intros Hnd. unfold Set_add. destruct (decide (x ∈ s)); [done|].
  apply NoDup_app. split_and!; [done| |apply NoDup_singleton].
  intros y Hy ->%list_elem_of_singleton. done.
Qed.

Lemma foldl_Set_add s l :
  (NoDup s → NoDup (foldl Set_add s l))
  ∧ ∀ y, y ∈ foldl Set_add s l ↔ y ∈ s ∨ y ∈ l.
Proof.
  revert s. induction l as [|x l IH]; intros s.
  - cbn. split; [done|]. intros y. rewrite elem_of_nil. tauto.
  - cbn [foldl]. destruct (IH (Set_add s x)) as [IHnd IHin]. split.
    + intros Hnd. by apply IHnd, Set_add_NoDup.
    + intros y. rewrite IHin, Set_add_elem_of, elem_of_cons. tauto.
Qed.

Lemma allQuestions_from s (responses : list Response) :
  let all := foldl (λ s response, foldl Set_add s (Js.keys (answers response)))
                   s responses in
  (NoDup s → NoDup all)
  ∧ ∀ y, y ∈ all ↔
      y ∈ s ∨ ∃ response, response ∈ responses ∧ y ∈ Js.keys (answers response).
Proof.
  revert s. induction responses as [|r responses IH]; intros s all.
  - subst all. cbn. split; [done|]. intros y. split; [by left|].
    intros [?|(r & Hr & _)]; [done|]. by apply elem_of_nil in Hr.
  - subst all. cbn [foldl].
    destruct (IH (foldl Set_add s (Js.keys (answers r)))) as [IHnd IHin].
    destruct (foldl_Set_add s (Js.keys (answers r))) as [Hnd Hin]. split.
    + intros Hs. by apply IHnd, Hnd.
    + intros y. rewrite IHin, Hin. split.
      * intros [[?|Hy]|(r' & Hr' & Hy)]; [by left| |].
        -- right. exists r. split; [apply list_elem_of_here|done].
        -- right. exists r'. split; [by apply list_elem_of_further|done].
      * intros [?|(r' & Hr' & Hy)]; [by left; left|].
        apply elem_of_cons in Hr' as [->|Hr']; [by left; right|].
        right. by exists r'.
Qed.

Lemma allQuestions_spec (responses : list Response) :
  NoDup (allQuestions responses)
  ∧ ∀ question, question ∈ allQuestions responses ↔
      ∃ response, response ∈ responses ∧ question ∈ Js.keys (answers response).
Proof.
  destruct (allQuestions_from [] responses) as [Hnd Hin]. split.
  - apply Hnd, NoDup_nil_2.
  - intros question. unfold allQuestions. rewrite Hin, elem_of_nil. tauto.
Qed.

(** The text written for a question in the row of a response has no
    double quote when the answers and the source texts of the inherited
    functions have none. *)
Lemma answer_text_of_no_quote functionSource response question :
  Forall Spec.no_quote (Js.values (answers response)) →
  Forall (λ k, Spec.no_quote (functionSource k)) Js.Object_prototype_functions →
  Spec.no_quote (answer_text_of functionSource response question).
Proof.
  intros Hvalues Hsource. unfold answer_text_of, Js.read.
  destruct (Js.get (answers response) question) as [v|] eqn:Hget.
  - destruct v as [|c v]; [done|]. cbn [Js.truthy].
    rewrite Forall_forall in Hvalues. apply Hvalues.
    apply get_elem_of in Hget. unfold Js.values.
    apply list_elem_of_fmap. by exists (question, c :: v).
  - destruct (decide (question = Js.str "__proto__")); [done|].
    destruct (decide (question ∈ Js.Object_prototype_functions)) as [Hin|]; [|done].
    rewrite Forall_forall in Hsource. by apply Hsource.
Qed.

(** The export of all responses has one question column for each
    question text that some response holds an answer under, without
    repetition. When no form title, answer or source text of an inherited
    function holds a double quote, and the question texts and the times
    as the browser writes them are plain, the exported text reads back as
    the header followed by one record per response, each with the form
    title, the time and one field per question column. That field is
    empty for a question the response has no answer to, unless the
    question text names a function of [Object.prototype], whose source
    text is written then. *)
Theorem exportToCSV_columns toLocaleString functionSource
    (responses : list Response) :
  responses ≠ [] →
  Forall (λ response,
            Spec.no_quote (formTitle response)
            ∧ Spec.plain (toLocaleString (submittedAt response))
            ∧ Forall Spec.plain (Js.keys (answers response))
            ∧ Forall Spec.no_quote (Js.values (answers response)))
         responses →
  Forall (λ k, Spec.no_quote (functionSource k)) Js.Object_prototype_functions →
  let all := allQuestions responses in
  NoDup all
  ∧ (∀ question, question ∈ all ↔
       ∃ response, response ∈ responses
                   ∧ question ∈ Js.keys (answers response))
  ∧ (∃ text,
       exportToCSV toLocaleString functionSource responses = Some text
       ∧ Spec.csv_read text
         = Some (csvHeaders responses
                 :: ((λ response,
                        formTitle response
                        :: toLocaleString (submittedAt response)
                        :: (answer_text_of functionSource response <$> all))
                       <$> responses)))
  ∧ ∀ response question,
      question ∉ Js.keys (answers response) →
      answer_text_of functionSource response question
      = if decide (question = Js.str "__proto__") then Js.str "[object Object]"
        else if decide (question ∈ Js.Object_prototype_functions)
             then functionSource question
             else Js.str "".
Proof.
  intros Hne Hall Hsource all.
  destruct (allQuestions_spec responses) as [Hnd Hin]. fold all in Hnd, Hin.
  split_and!; [done|done| |].
  - unfold exportToCSV. fold all.
    destruct (Z.eqb_spec (Z.of_nat (length responses)) 0) as [Hlen|_].
    { destruct responses; [done|]. cbn [length] in Hlen. lia. }
    eexists. split; [done|].
    assert (Js.join (Js.str ",") (csvHeaders responses)
            :: ((λ response,
                   Js.join (Js.str ",")
                     (csvRow toLocaleString functionSource all response))
                  <$> responses)
            = Js.join (Js.str ",")
                <$> (csvHeaders responses
                     :: (csvRow toLocaleString functionSource all <$> responses)))
      as ->.
    { rewrite fmap_cons. f_equal.
      apply (list_fmap_compose (csvRow toLocaleString functionSource all)
               (Js.join (Js.str ","))). }
    apply csv_read_lines; [constructor| |done].
    + unfold csvHeaders. apply Forall2_app.
      * repeat constructor; by left.
      * apply Forall_Forall2_diag, Forall_forall. intros question Hq.
        left. split; [|done].
        apply Hin in Hq as (response & Hr & Hq).
        rewrite Forall_forall in Hall. destruct (Hall response Hr) as (_ & _ & Hk & _).
        rewrite Forall_forall in Hk. by apply Hk.
    + apply Forall2_fmap, Forall_Forall2_diag.
      eapply Forall_impl; [exact Hall|]. intros response (Ht & Htime & _ & Hv).
      unfold csvRow. constructor; [|constructor].
      * right. by apply csv_quoted_no_quote.
      * by left.
      * apply Forall2_fmap, Forall_Forall2_diag, Forall_forall.
        intros question _. right. apply csv_quoted_no_quote.
        by apply answer_text_of_no_quote.
    + constructor; [done|]. apply Forall_fmap, Forall_forall. by intros response _.
  - intros response question Hnot. unfold answer_text_of, Js.read.
    apply get_None_keys in Hnot. rewrite Hnot.
    destruct (decide (question = Js.str "__proto__")); [done|].
    by destruct (decide (question ∈ Js.Object_prototype_functions)).
Qed.

Lemma exportToCSV_columns_witness :
  let toLocaleString := λ s : list N, s in
  let functionSource :=
    λ k : list N, Js.str "function " ++ k ++ Js.str "() { [native code] }" in
  let responses :=
    [mkResponse (Js.str "r1") (Js.str "Survey") (Js.str "f1") (Js.str "2025-07-18")
       [(Js.str "Comments", Js.str "fine, thanks")];
     mkResponse (Js.str "r2") (Js.str "Survey") (Js.str "f1") (Js.str "2025-07-19")
       [(Js.str "constructor", Js.str "me")]] in
  match exportToCSV toLocaleString functionSource responses with
  | Some text => Spec.csv_read text
  | None => None
  end
  = Some [[Js.str "Form Title"; Js.str "Submitted At"; Js.str "Comments";
           Js.str "constructor"];
          [Js.str "Survey"; Js.str "2025-07-18"; Js.str "fine, thanks";
           Js.str "function constructor() { [native code] }"];
          [Js.str "Survey"; Js.str "2025-07-19"; Js.str ""; Js.str "me"]].
Proof.
  intros toLocaleString functionSource responses.
  pose proof (exportToCSV_columns toLocaleString functionSource responses) as H.
  destruct H as (_ & _ & (text & Hexport & Hread) & _).
  - discriminate.
  - repeat constructor.
  - repeat constructor.
  - rewrite Hexport. exact Hread.
Defined.

End AllResponses.

(** ** Sorting the answers of a response *)

Section Sorting.

Context {A : Type} (key : A → Z).

Local Abbreviation le_key := (Spec.ascending_by key).

Lemma insert_by_Permutation (x : A) (l : list A) :
  Js.insert_by key x l ≡ₚ x :: l.
Proof.
  induction l as [|y l IH]; [done|]. cbn.
  destruct (key x <? key y)%Z; [done|].
  by rewrite IH, Permutation_swap.
Qed.

Lemma insert_by_sorted (x : A) (l : list A) :
  StronglySorted le_key l → StronglySorted le_key (Js.insert_by key x l).
Proof.
  induction 1 as [|y l Hsorted IH Hall]; cbn.
  - repeat constructor.
  - destruct (Z.ltb_spec (key x) (key y)) as [Hlt|Hge].
    + constructor; [by constructor|]. constructor; [unfold Spec.ascending_by; lia|].
      eapply Forall_impl; [exact Hall|]. intros z Hz. unfold Spec.ascending_by in *. lia.
    + constructor; [done|]. rewrite insert_by_Permutation.
      constructor; [unfold Spec.ascending_by; lia|done].
Qed.

Lemma insert_by_filter (k : Z) (x : A) (l : list A) :
  StronglySorted le_key l →
  filter (λ a, key a = k) (Js.insert_by key x l)
  = filter (λ a, key a = k) l ++ filter (λ a, key a = k) [x].
Proof.
  induction 1 as [|y l Hsorted IH Hall]; [done|]. cbn [Js.insert_by].
  destruct (Z.ltb_spec (key x) (key y)) as [Hlt|Hge].
  - rewrite (filter_cons _ x), (filter_cons _ x []), filter_nil.
    destruct (decide (key x = k)) as [Hk|Hk]; [|by rewrite app_nil_r].
    assert (filter (λ a, key a = k) (y :: l) = []) as ->; [|done].
    apply filter_nil_iff. intros z Hz Hzk.
    apply elem_of_cons in Hz as [->|Hz]; [lia|].
    rewrite Forall_forall in Hall. specialize (Hall z Hz).
    unfold Spec.ascending_by in Hall. lia.
  - rewrite !(filter_cons _ y), IH. by destruct (decide (key y = k)).
Qed.

Lemma sort_by_spec (l : list A) :
  Js.sort_by key l ≡ₚ l
  ∧ StronglySorted le_key (Js.sort_by key l)
  ∧ ∀ k, filter (λ a, key a = k) (Js.sort_by key l) = filter (λ a, key a = k) l.
Proof.
  induction l as [|x l (IHperm & IHsorted & IHstable)] using rev_ind.
  - split_and!; [done|constructor|done].
  - rewrite sort_by_snoc. split_and!.
    + by rewrite insert_by_Permutation, IHperm, Permutation_cons_append.
    + by apply insert_by_sorted.
    + intros k. by rewrite insert_by_filter, IHstable, filter_app.
Qed.

End Sorting.

Section SortedAnswers.

Import FormResponses.

(** The answers shown for a response are the answers storage returned,
    each with the text, type and order index of its question, in
    ascending order of the order index; answers with the same order
    index keep the order in which storage returned them. *)
Theorem transform_answers_sorted response :
  let flat := transform_answer <$> raw_answers response in
  answers (transform response) ≡ₚ flat
  ∧ StronglySorted (Spec.ascending_by order_index)
      (answers (transform response))
  ∧ ∀ k, filter (λ a, order_index a = k) (answers (transform response))
         = filter (λ a, order_index a = k) flat.
Proof.
  intros flat. unfold transform. cbn [answers]. fold flat.
  destruct (sort_by_spec order_index flat) as (Hperm & Hsorted & Hstable).
  by split_and!.
Qed.

End SortedAnswers.

(** ** The statistics of the dashboard *)

Section DashboardStats.

Import Dashboard.

Lemma topPerformingForm_snoc (allFormsData : list FormRow) form :
  topPerformingForm (allFormsData ++ [form])
  = match topPerformingForm allFormsData with
    | None => Some (mkTopForm (title form) (responseCount form))
    | Some t =>
        if (top_responses t <? responseCount form)%N
        then Some (mkTopForm (title form) (responseCount form))
        else Some t
    end.
Proof.
  unfold topPerformingForm. rewrite foldl_app. cbn [foldl].
  by destruct (foldl _ None allFormsData).
Qed.

Lemma totalResponses_snoc (allFormsData : list FormRow) form :
  totalResponses (allFormsData ++ [form])
  = (totalResponses allFormsData + responseCount form)%N.
Proof. unfold totalResponses. by rewrite foldl_app. Qed.

(** The top performing form is missing exactly when the user has no
    form; otherwise it is the first form, in the order storage returned
    them, whose response count is the largest, and its count is at most
    the total number of responses. *)
Theorem topPerformingForm_first_largest (allFormsData : list FormRow) :
  match topPerformingForm allFormsData with
  | None => allFormsData = []
  | Some top =>
      ∃ (i : nat) form,
        allFormsData !! i = Some form
        ∧ top = mkTopForm (title form) (responseCount form)
        ∧ (∀ f, f ∈ allFormsData → (responseCount f ≤ responseCount form)%N)
        ∧ (∀ (j : nat) f, allFormsData !! j = Some f → (j < i)%nat →
             (responseCount f < responseCount form)%N)
        ∧ (top_responses top ≤ totalResponses allFormsData)%N
  end.
Proof.
  induction allFormsData as [|form l IH] using rev_ind; [done|].
  rewrite topPerformingForm_snoc, totalResponses_snoc.
  destruct (topPerformingForm l) as [t|].
  - destruct IH as (i & best & Hi & -> & Hmax & Hfirst & Htotal).
    cbn [top_responses] in *.
    destruct (N.ltb_spec (responseCount best) (responseCount form)) as [Hlt|Hge].
    + exists (length l), form. split_and!.
      * by apply list_lookup_middle.
      * done.
      * intros f [Hf| ->%list_elem_of_singleton]%elem_of_app; [|lia].
        specialize (Hmax f Hf). lia.
      * intros j f Hj Hjlt. rewrite lookup_app_l in Hj by done.
        apply list_elem_of_lookup_2 in Hj. specialize (Hmax f Hj). lia.
      * cbn. lia.
    + exists i, best. split_and!.
      * rewrite lookup_app_l; [done|]. by eapply lookup_lt_Some.
      * done.
      * intros f [Hf| ->%list_elem_of_singleton]%elem_of_app; [by apply Hmax|lia].
      * intros j f Hj Hjlt. apply (Hfirst j f); [|done].
        rewrite lookup_app_l in Hj; [done|].
        apply lookup_lt_Some in Hi. lia.
      * cbn. lia.
  - subst l. exists 0%nat, form. split_and!; [done..| | |].
    + by intros f ->%list_elem_of_singleton.
    + intros j f _ Hj. lia.
    + cbn. unfold totalResponses. cbn. lia.
Qed.

End DashboardStats.

(** ** Options of a question on the edit page *)

Section EditOptions.

Import EditForm.

Implicit Types questions : list Question.

Lemma splice_snoc {A} (start : Z) (l : list A) (x : A) :
  start = Z.of_nat (length l) ∨ start = (-1)%Z →
  Js.splice start 1 (l ++ [x]) = l.
Proof.
  intros Hstart. unfold Js.splice. rewrite length_app. cbn [length].
  set (actualStart := if (start <? 0)%Z then _ else _).
  assert (actualStart = Z.of_nat (length l)) as ->.
  { subst actualStart. destruct Hstart as [-> | ->].
    - destruct (Z.ltb_spec (Z.of_nat (length l)) 0); lia.
    - cbn. lia. }
  replace (Z.min (Z.max 1 0) (Z.of_nat (length l + 1) - Z.of_nat (length l)))
    with 1%Z by lia.
  rewrite Nat2Z.id.
  replace (Z.to_nat (Z.of_nat (length l) + 1)) with (S (length l)) by lia.
  rewrite take_app_length, drop_ge by (rewrite length_app; cbn; lia).
  apply app_nil_r.
Qed.

Lemma at_index_Some {A} (l : list A) (index : Z) (x : A) :
  Js.at_index l index = Some x ↔ (0 ≤ index)%Z ∧ l !! Z.to_nat index = Some x.
Proof.
  unfold Js.at_index. destruct (Z.ltb_spec index 0); [|tauto].
  split; [done|]. intros [? _]. lia.
Qed.

Lemma at_index_None {A} (l : list A) (index : Z) :
  Js.at_index l index = None ↔ (index < 0 ∨ Z.of_nat (length l) ≤ index)%Z.
Proof.
  unfold Js.at_index. destruct (Z.ltb_spec index 0); [tauto|].
  rewrite lookup_ge_None. lia.
Qed.

Lemma set_options_id q : set_options q (options q) = q.
Proof. by destruct q. Qed.

(** [addOption] fails exactly when there is no question at the index.
    When there is one, removing the option it has added, by its index or
    as the last one, gives back the question list. *)
Theorem editForm_addOption_removeOption (questionIndex : Z) questions :
  match Js.at_index questions questionIndex with
  | None =>
      addOption questionIndex questions = None
      ∧ (questionIndex < 0 ∨ Z.of_nat (length questions) ≤ questionIndex)%Z
  | Some q =>
      ∃ questions',
        addOption questionIndex questions = Some questions'
        ∧ removeOption questionIndex (Z.of_nat (length (options q))) questions'
          = Some questions
        ∧ removeOption questionIndex (-1) questions' = Some questions
  end.
Proof.
  unfold addOption.
  destruct (Js.at_index questions questionIndex) as [q|] eqn:Hq.
  - eexists. split; [done|].
    apply at_index_Some in Hq as [Hpos Hq].
    assert (∀ start,
              start = Z.of_nat (length (options q)) ∨ start = (-1)%Z →
              removeOption questionIndex start
                (<[Z.to_nat questionIndex :=
                     set_options q (options q ++ [Js.str ""])]> questions)
              = Some questions) as Hremove; [|split; apply Hremove; auto].
    intros start Hstart. unfold removeOption.
    assert (Js.at_index
              (<[Z.to_nat questionIndex :=
                   set_options q (options q ++ [Js.str ""])]> questions)
              questionIndex
            = Some (set_options q (options q ++ [Js.str ""]))) as ->.
    { apply at_index_Some. split; [done|].
      apply list_lookup_insert_eq. by eapply lookup_lt_Some. }
    f_equal. rewrite list_insert_insert_eq. apply list_insert_id.
    rewrite Hq. f_equal. cbn [options set_options].
    rewrite splice_snoc by done. cbn. by destruct q.
  - split; [done|]. by apply at_index_None.
Qed.

Lemma editForm_validate_None_iff form questions :
  validate form questions = None ↔
  Js.trim (title form) ≠ [] ∧ questions ≠ []
  ∧ Forall Spec.edit_question_ok questions.
Proof.
  split; [apply editForm_validate_None|].
  intros (Htitle & Hqs & Hall). unfold validate.
  apply truthy_true in Htitle. rewrite Htitle. cbn [negb].
  destruct (Z.eqb_spec (Z.of_nat (length questions)) 0) as [Hlen|_].
  { destruct questions; [done|]. cbn [length] in Hlen. lia. }
  rewrite validateQuestions_find.
  destruct (list_find _ questions) as [[k q]|] eqn:Hfind; [|done].
  apply list_find_Some in Hfind as (Hk & Hbad & _).
  rewrite Forall_lookup in Hall. by destruct Hbad, (Hall k q Hk).
Qed.

(** An option added on the edit page is blank, so it changes nothing in
    the rows that are stored; and it never turns a form that passes the
    checks into one that fails them. *)
Theorem editForm_addOption_stored formId form (questionIndex : Z)
    questions questions' :
  addOption questionIndex questions = Some questions' →
  questionsToInsert formId questions' = questionsToInsert formId questions
  ∧ (validate form questions = None → validate form questions' = None).
Proof.
  unfold addOption.
  destruct (Js.at_index questions questionIndex) as [q|] eqn:Hq; [|done].
  intros [= <-]. apply at_index_Some in Hq as [_ Hq].
  set (i := Z.to_nat questionIndex) in *. split.
  - unfold questionsToInsert. apply list_eq. intros j.
    rewrite !list_lookup_imap. destruct (decide (j = i)) as [->|Hne].
    + rewrite list_lookup_insert_eq by by eapply lookup_lt_Some.
      rewrite Hq. cbn. do 2 f_equal. by rewrite filter_app, app_nil_r.
    + by rewrite list_lookup_insert_ne.
  - rewrite !editForm_validate_None_iff. intros (Htitle & Hqs & Hall).
    split_and!; [done| |].
    + intros Hnil. apply (f_equal length) in Hnil.
      rewrite length_insert in Hnil. by destruct questions.
    + apply Forall_insert; [done|].
      rewrite Forall_lookup in Hall. destruct (Hall i q Hq) as [Htext Hcount].
      split; [done|]. intros Hmc. cbn. rewrite length_app.
      specialize (Hcount Hmc). lia.
Qed.

Lemma editForm_addOption_stored_witness :
  let questions :=
    [mkQuestion None (Js.str "Colour?") Types.multiple_choice
       [Js.str "red"; Js.str "blue"] false 0] in
  let questions' :=
    [mkQuestion None (Js.str "Colour?") Types.multiple_choice
       [Js.str "red"; Js.str "blue"; Js.str ""] false 0] in
  questionsToInsert (Js.str "f1") questions'
  = questionsToInsert (Js.str "f1") questions.
Proof.
  intros questions questions'.
  exact (proj1 (editForm_addOption_stored (Js.str "f1")
                  (mkFormData (Js.str "f1") (Js.str "Survey") (Js.str "") true)
                  0 questions questions' eq_refl)).
Defined.

End EditOptions.

(** ** The export of one form, read back *)

Section FormExport.

Import FormResponses.

(** [response.ip_address || 'N/A'] *)
Lemma ip_cell_plain (ip_address : option (list N)) :
  Spec.plain (default [] ip_address) →
  Spec.plain match ip_address with
             | Some ip => if Js.truthy ip then ip else Js.str "N/A"
             | None => Js.str "N/A"
             end.
Proof. by destruct ip_address as [[|c ip]|]. Qed.

(** When the response ids, the times as the browser writes them, the IP
    addresses and the question texts of the first response are plain (no
    comma, double quote or line feed), the exported text of one form reads
    back as the header, whose question columns are those of the first
    response, followed by one record per response holding the id, the
    time, the IP address or N/A, and the answer texts as they were stored,
    whatever they contain. The record of a response is then as wide as
    the header exactly when the response holds as many answers as the
    first one. *)
Theorem exportResponses_reads_back toLocaleString
    (responses : list FormResponse) (first : FormResponse) :
  responses !! 0%nat = Some first →
  Forall Spec.plain (question_text <$> answers first) →
  Forall (λ response,
            Spec.plain (id response)
            ∧ Spec.plain (toLocaleString (submitted_at response))
            ∧ Spec.plain (default [] (ip_address response)))
         responses →
  let record := λ response,
    [id response;
     toLocaleString (submitted_at response);
     match ip_address response with
     | Some ip => if Js.truthy ip then ip else Js.str "N/A"
     | None => Js.str "N/A"
     end] ++ (answer_text <$> answers response) in
  let header :=
    [Js.str "Response ID"; Js.str "Submitted At"; Js.str "IP Address"]
    ++ (question_text <$> answers first) in
  (∃ text,
     exportResponses toLocaleString responses = Some text
     ∧ Spec.csv_read text = Some (header :: (record <$> responses)))
  ∧ ∀ response,
      length (record response) = length header
      ↔ length (answers response) = length (answers first).
Proof.
  intros Hfirst Hquestions Hall record header. split.
  - unfold exportResponses.
    destruct (Z.eqb_spec (Z.of_nat (length responses)) 0) as [Hlen|_].
    { destruct responses; [done|]. cbn [length] in Hlen. lia. }
    eexists. split; [done|]. cbv zeta.
    apply csv_read_lines; [constructor| |done].
    + unfold csvHeaders. rewrite Hfirst. subst header. apply Forall2_app.
      * repeat constructor; by left.
      * apply Forall_Forall2_diag.
        eapply Forall_impl; [exact Hquestions|]. intros question Hq. by left.
    + apply Forall2_fmap, Forall_Forall2_diag.
      eapply Forall_impl; [exact Hall|]. intros response (Hid & Htime & Hip).
      subst record. unfold csvRow. cbv beta zeta. apply Forall2_app.
      * constructor; [left; by split|].
        constructor; [left; by split|].
        constructor; [|constructor].
        left. split; [by apply ip_cell_plain|done].
      * apply Forall2_fmap, Forall_Forall2_diag, Forall_forall.
        intros answer _. right. apply quote_field_quoted.
    + constructor.
      * unfold csvHeaders. done.
      * apply Forall_fmap, Forall_forall. by intros response _.
  - intros response. subst record header. cbn [length app].
    rewrite !length_fmap. lia.
Qed.

Lemma exportResponses_reads_back_witness :
  let first :=
    mkFormResponse (Js.str "r1") (Js.str "2025-07-18") None None
      [mkAnswer (Js.str "Name?") (Js.str "text")
         (Js.str "Ann, " ++ [34%N] ++ Js.str "A" ++ [34%N; 10%N]) 0;
       mkAnswer (Js.str "Rate us") (Js.str "rating") (Js.str "5") 1] in
  let second :=
    mkFormResponse (Js.str "r2") (Js.str "2025-07-19") (Some (Js.str "::1")) None
      [mkAnswer (Js.str "Rate us") (Js.str "rating") (Js.str "4") 1] in
  match exportResponses (λ s, s) [first; second] with
  | Some text => Spec.csv_read text
  | None => None
  end
  = Some [[Js.str "Response ID"; Js.str "Submitted At"; Js.str "IP Address";
           Js.str "Name?"; Js.str "Rate us"];
          [Js.str "r1"; Js.str "2025-07-18"; Js.str "N/A";
           Js.str "Ann, " ++ [34%N] ++ Js.str "A" ++ [34%N; 10%N]; Js.str "5"];
          [Js.str "r2"; Js.str "2025-07-19"; Js.str "::1"; Js.str "4"]].
Proof.
  intros first second.
  pose proof (exportResponses_reads_back (λ s, s) [first; second] first) as H.
  destruct H as [(text & Hexport & Hread) _].
  - reflexivity.
  - repeat constructor.
  - repeat constructor.
  - rewrite Hexport. exact Hread.
Defined.

End FormExport.
